(** * pymbar.confidenceintervals: a shallow embedding and its properties

    The module under study, [src/pymbar/confidenceintervals.py], checks the
    uncertainty estimates of a free-energy estimator over a list of
    replicates.  Its four functions are embedded below:

    - [OrderReplicates]   (lines 28-60): normalised, sorted order statistics;
    - [AndersonDarling]   (lines 62-101): the Anderson-Darling statistic;
    - [generateConfidenceIntervals] (lines 164-349): the coverage sweep and
      the summary statistics;
    - [QQPlot]            (lines 103-162): the quantile-quantile figure, as
      the sequence of its calls into matplotlib.

    Modelling decisions, in one place:

    - a float64 is [NaN] or an exact rational kept in lowest terms; the
      arithmetic is exact (no rounding, no overflow, no infinities).  A
      property that rounding, overflow or an infinity would break is stated
      with a hypothesis on the values the code computes, and what breaks it
      is shown on binary64 itself: [OrderReplicates64] and
      [AndersonDarling64] repeat the two functions on the primitive floats
      of Rocq;
    - an ndarray is its shape and its elements in row-major order; an array
      with a leading replicate axis is the list of its slices along axis 0;
    - the transcendental functions of numpy and scipy ([log], [sqrt],
      [norm.cdf], [erf], [beta.ppf]) are not code of this module: they are
      the fields of the class [Numerics]; [norm.ppf], which only [QQPlot]
      uses, is the field of the class [Quantiles];
    - global names are looked up in the module namespace at call time, as
      Python does; the namespace is an argument of every function;
    - [OrderReplicates] updates [replicates[0]['destimated']] in place, so
      the replicate list is threaded through it as a store;
    - [print] appends an event to the standard output, which
      [generateConfidenceIntervals] returns next to its result; an event
      keeps the values printed, not their formatting;
    - [K] is a natural number; the fields of a replicate are arrays (a
      scalar is the array of shape [()]);
    - where numpy would broadcast two arrays of different shapes, which the
      data model excludes, the model answers [ValueError]. *)

From Stdlib Require Import List ZArith QArith Qabs Qreduction String Bool Lia Lqa.
From Stdlib Require Import Sorting.Mergesort Sorting.Sorted Permutation Orders.
From Stdlib Require Floats.
Import ListNotations.

Local Open Scope string_scope.
Local Open Scope list_scope.
Local Open Scope Q_scope.

(** ** Numbers *)

(** A number of the model: a NaN, or a rational.  Binary64 rounds, overflows
    to an infinity and underflows to zero; these numbers do not. *)
Inductive float : Type :=
| NaN
| Fin (q : Q).

Definition lift2 (op : Q -> Q -> Q) (x y : float) : float :=
  match x, y with
  | Fin a, Fin b => Fin (Qred (op a b))
  | _, _ => NaN
  end.

Definition fadd : float -> float -> float := lift2 Qplus.
Definition fsub : float -> float -> float := lift2 Qminus.
Definition fmul : float -> float -> float := lift2 Qmult.

(** Division by zero has no finite value; IEEE answers an infinity or a NaN.
    The functions below never divide by zero. *)
Definition fdiv (x y : float) : float :=
  match x, y with
  | Fin a, Fin b => if Qeq_bool b 0 then NaN else Fin (Qred (a / b))
  | _, _ => NaN
  end.

Definition fabs (x : float) : float :=
  match x with
  | Fin a => Fin (Qred (Qabs a))
  | NaN => NaN
  end.

(** Comparisons with a NaN are false. *)
Definition fle (x y : float) : bool :=
  match x, y with
  | Fin a, Fin b => Qle_bool a b
  | _, _ => false
  end.

Definition feq (x y : float) : bool :=
  match x, y with
  | Fin a, Fin b => Qeq_bool a b
  | _, _ => false
  end.

Definition isnan (x : float) : bool :=
  match x with
  | NaN => true
  | Fin _ => false
  end.

Definition of_int (z : Z) : float := Fin (inject_Z z).
Definition of_nat (n : nat) : float := of_int (Z.of_nat n).
Definition of_bool (b : bool) : float := if b then Fin 1 else Fin 0.

(** The functions of numpy and scipy that are not rational. *)
Class Numerics : Type := {
  np_log : float -> float;
  np_sqrt : float -> float;
  norm_cdf : float -> float;
  special_erf : float -> float;
  beta_ppf : float -> float -> float -> float
}.

(** ** Exceptions *)

Inductive exn : Type :=
| NameError (name : string)
| UnboundLocalError (name : string)
| AttributeError (name : string)
| TypeError
| IndexError
| ValueError
| ZeroDivisionError        (* a Python division by zero, also inside numpy *)
| StrRaise (s : string).   (* [raise s] with a str: a string exception
                              before Python 2.6, a TypeError since *)

Inductive result (A : Type) : Type :=
| Ok (a : A)
| Err (e : exn).
Arguments Ok {A} a.
Arguments Err {A} e.

Definition bind {A B : Type} (m : result A) (f : A -> result B) : result B :=
  match m with
  | Ok a => f a
  | Err e => Err e
  end.

Declare Scope result_scope.
Delimit Scope result_scope with result.
Notation "x <- m ;; k" := (bind m (fun x => k))
  (at level 61, m at next level, right associativity) : result_scope.

(** ** The module namespace *)

Inductive pyobj : Type :=
| PyModule (name : string)
| PyFunction (name : string).

Definition globals : Type := list (string * pyobj).

Fixpoint lookup (g : globals) (name : string) : option pyobj :=
  match g with
  | [] => None
  | (n, o) :: g' => if String.eqb n name then Some o else lookup g' name
  end.

(** Lines 23-26 and the four [def]s: the names the module binds. *)
Definition module_globals : globals :=
  [ ("numpy", PyModule "numpy");
    ("scipy", PyModule "scipy");
    ("OrderReplicates", PyFunction "OrderReplicates");
    ("AndersonDarling", PyFunction "AndersonDarling");
    ("QQPlot", PyFunction "QQPlot");
    ("generateConfidenceIntervals", PyFunction "generateConfidenceIntervals") ].

(** The namespace after an [import numpy as np]. *)
Definition np_globals : globals := ("np", PyModule "numpy") :: module_globals.

(** [name.attr...] where the attribute lives in the library [lib]. *)
Definition use_module (g : globals) (name lib : string) : result unit :=
  match lookup g name with
  | None => Err (NameError name)
  | Some (PyModule m) => if String.eqb m lib then Ok tt else Err (AttributeError name)
  | Some (PyFunction _) => Err (AttributeError name)
  end.

(** [name(...)] where the callee is the module's function [fn]. *)
Definition use_function (g : globals) (name : string) : result unit :=
  match lookup g name with
  | None => Err (NameError name)
  | Some (PyFunction f) => if String.eqb f name then Ok tt else Err TypeError
  | Some (PyModule _) => Err TypeError
  end.

(** ** Arrays *)

Record ndarray : Type := mkarr { shape : list nat; data : list float }.

Definition size (s : list nat) : nat := fold_right Nat.mul 1%nat s.

Definition scalar (x : float) : ndarray := mkarr [] [x].

Definition np_zeros (s : list nat) : ndarray := mkarr s (repeat (Fin 0) (size s)).

Fixpoint shape_eqb (s t : list nat) : bool :=
  match s, t with
  | [], [] => true
  | a :: s', b :: t' => Nat.eqb a b && shape_eqb s' t'
  | _, _ => false
  end.

Fixpoint map2 {A B C : Type} (f : A -> B -> C) (l : list A) (m : list B) : list C :=
  match l, m with
  | a :: l', b :: m' => f a b :: map2 f l' m'
  | _, _ => []
  end.

Definition amap (f : float -> float) (a : ndarray) : ndarray :=
  mkarr (shape a) (map f (data a)).

(** Element-wise operation on two arrays of one shape.  The data model gives
    every array of a replicate set the same shape; on other operands numpy
    would try to broadcast, here the operation is a [ValueError]. *)
Definition azip (f : float -> float -> float) (a b : ndarray) : result ndarray :=
  if shape_eqb (shape a) (shape b)
  then Ok (mkarr (shape a) (map2 f (data a) (data b)))
  else Err ValueError.

Fixpoint set_nth {A : Type} (k : nat) (v : A) (l : list A) : list A :=
  match l, k with
  | [], _ => []
  | _ :: l', O => v :: l'
  | x :: l', S k' => x :: set_nth k' v l'
  end.

(** [a[:, k]] and [a[:, k] = vals] on an array held as its axis-0 slices,
    [k] being the row-major offset of the coordinate inside a slice. *)
Definition column (k : nat) (rows : list ndarray) : list float :=
  map (fun r => nth k (data r) NaN) rows.

Definition set_column (k : nat) (vals : list float) (rows : list ndarray) : list ndarray :=
  map2 (fun r v => mkarr (shape r) (set_nth k v (data r))) rows vals.

(** ** numpy.sort: ascending, NaN last *)

Module FloatOrder <: TotalLeBool.

Definition t : Type := float.

Definition leb (x y : float) : bool :=
  match x, y with
  | _, NaN => true
  | NaN, Fin _ => false
  | Fin a, Fin b => Qle_bool a b
  end.

Theorem leb_total : forall x y, leb x y = true \/ leb y x = true.
Proof.
  intros [|a] [|b]; simpl; auto.
  destruct (Qle_bool a b) eqn:E; auto.
  right. apply Qle_bool_iff. apply Qlt_le_weak. apply Qnot_le_lt.
  intro H. apply Qle_bool_iff in H. congruence.
Qed.

End FloatOrder.

Module FloatSort := Sort FloatOrder.

Definition np_sort (l : list float) : list float := FloatSort.sort l.

(** ** Replicates *)

Record replicate : Type := mkrep {
  estimated : ndarray;
  error : ndarray;
  destimated : ndarray
}.

(** The replicate list as a store: [replicates[0]['destimated'] = s]. *)
Definition set_destimated0 (s : ndarray) (replicates : list replicate) : list replicate :=
  match replicates with
  | [] => []
  | r :: rest => mkrep (estimated r) (error r) s :: rest
  end.

Fixpoint mapM {A B : Type} (f : A -> result B) (l : list A) : result (list B) :=
  match l with
  | [] => Ok []
  | a :: l' =>
      match f a with
      | Err e => Err e
      | Ok b => match mapM f l' with
                | Err e => Err e
                | Ok bs => Ok (b :: bs)
                end
      end
  end.

(** [for x in xs: acc = body(acc, x)], stopping at the first exception. *)
Fixpoint forM {A S : Type} (xs : list A) (body : S -> A -> result S) (acc : S) : result S :=
  match xs with
  | [] => Ok acc
  | x :: xs' =>
      match body acc x with
      | Err e => Err e
      | Ok acc' => forM xs' body acc'
      end
  end.

Section Normalizer.

Context {numerics : Numerics}.

(** *** OrderReplicates, lines 28-60 *)

(** Line 39: [zerosigma = (sigma == 0)]. *)
Definition zerosigma_of (sigma : ndarray) : list bool :=
  map (fun x => feq x (Fin 0)) (data sigma).

(** Lines 41 and 59: [sigma += sigmacorr], [sigma -= sigmacorr]; the mask
    counts as 1 where it is set and as 0 elsewhere. *)
Definition add_mask (sigma : ndarray) (m : list bool) : ndarray :=
  mkarr (shape sigma) (map2 (fun x b => fadd x (of_bool b)) (data sigma) m).

Definition sub_mask (sigma : ndarray) (m : list bool) : ndarray :=
  mkarr (shape sigma) (map2 (fun x b => fsub x (of_bool b)) (data sigma) m).

(** An augmented assignment on an ndarray writes through to
    [replicates[0]['destimated']]; on a scalar it rebinds the local name. *)
Definition write_sigma (dims : list nat) (s : ndarray) (replicates : list replicate)
  : list replicate :=
  match dims with
  | [] => replicates
  | _ :: _ => set_destimated0 s replicates
  end.

(** Lines 49, 52, 56: [sortedyi[:, k] = np.sort(yiarray[:, k])]. *)
Definition sort_column (yiarray : list ndarray) (k : nat) (sortedyi : list ndarray)
  : list ndarray :=
  set_column k (np_sort (column k yiarray)) sortedyi.

(** Lines 48-56. *)
Definition sort_by_dims (dims : list nat) (K : nat) (yiarray sortedyi : list ndarray)
  : result (list ndarray) :=
  match dims with
  | [] => Ok (sort_column yiarray 0 sortedyi)
  | [d0] =>
      forM (seq 0 K)
        (fun s i => if (i <? d0)%nat then Ok (sort_column yiarray i s) else Err IndexError)
        sortedyi
  | [d0; d1] =>
      forM (seq 0 K)
        (fun s i =>
           forM (seq 0 K)
             (fun s j =>
                if ((i <? d0) && (j <? d1))%nat%bool
                then Ok (sort_column yiarray (i * d1 + j) s)
                else Err IndexError)
             s)
        sortedyi
  | _ => Ok sortedyi
  end.

Definition OrderReplicates (g : globals) (replicates : list replicate) (K : nat)
  : list replicate * result (list ndarray) :=
  (* line 36: the callee [np.shape] is evaluated before its argument *)
  match use_module g "np" "numpy" with
  | Err e => (replicates, Err e)
  | Ok _ =>
  match replicates with
  | [] => (replicates, Err IndexError)
  | r0 :: _ =>
      let dims := shape (destimated r0) in
      (* lines 38-41 *)
      let sigma := destimated r0 in
      let zerosigma := zerosigma_of sigma in
      let sigmacorr := zerosigma in
      let sigma := add_mask sigma sigmacorr in
      let replicates := write_sigma dims sigma replicates in
      (* lines 43-47 *)
      match mapM (fun replicate => azip fdiv (error replicate) sigma) replicates with
      | Err e => (replicates, Err e)
      | Ok yiarray =>
          let sortedyi := map (fun y => np_zeros (shape y)) yiarray in
          (* lines 48-56 *)
          match sort_by_dims dims K yiarray sortedyi with
          | Err e => (replicates, Err e)
          | Ok sortedyi =>
              (* lines 58-60 *)
              let sigma := sub_mask sigma sigmacorr in
              (write_sigma dims sigma replicates, Ok sortedyi)
          end
      end
  end
  end.

(** *** AndersonDarling, lines 62-101 *)

(** Line 98, the two integer weights of iteration [i]. *)
Definition weight_cdf (i : nat) : Z := 2 * Z.of_nat i - 1.
Definition weight_sf (N i : nat) : Z := 2 * (Z.of_nat N - Z.of_nat i) + 1.

(** Lines 97-98, one element of the array added to [sum]. *)
Definition ad_term (N i : nat) (y : float) : float :=
  let cdfi := norm_cdf y in
  fadd (fmul (of_int (weight_cdf i)) (np_log cdfi))
       (fmul (of_int (weight_sf N i)) (np_log (fsub (Fin 1) cdfi))).

(** Line 100, [A2[zerosigma] = 0], on an array. *)
Definition mask_assign (a : ndarray) (m : list bool) (v : float) : ndarray :=
  mkarr (shape a) (map2 (fun x (b : bool) => if b then v else x) (data a) m).

(** Lines 95-101: the statistic from the sorted sample [sortedyi]. *)
Definition ad_statistic (g : globals) (N : nat) (dims : list nat) (zerosigma : list bool)
    (sortedyi : list ndarray) : result ndarray :=
  let sum := np_zeros dims in
  (* lines 96-98 *)
  (sum <- forM (seq 0 N)
            (fun sum i =>
               _ <- use_module g "scipy" "scipy" ;;
               row <- match nth_error sortedyi i with
                      | Some row => Ok row
                      | None => Err IndexError
                      end ;;
               azip fadd sum (amap (ad_term N i) row))
            sum ;;
   (* line 99 *)
   let A2 := amap (fun s => fsub (of_int (- Z.of_nat N)) (fdiv s (of_nat N))) sum in
   (* lines 100-101: for a scalar quantity [sum] is a 0-d array, [sum/N] and
      so [A2] a numpy.float64, which supports no item assignment *)
   match dims with
   | [] => Err TypeError
   | _ :: _ => Ok (mask_assign A2 zerosigma (Fin 0))
   end)%result.

Definition AndersonDarling (g : globals) (replicates : list replicate) (K : nat)
  : list replicate * result ndarray :=
  (* line 90 *)
  match use_function g "OrderReplicates" with
  | Err e => (replicates, Err e)
  | Ok _ =>
  match OrderReplicates g replicates K with
  | (replicates, Err e) => (replicates, Err e)
  | (replicates, Ok sortedyi) =>
  match replicates with
  | [] => (replicates, Err IndexError)
  | r0 :: _ =>
      (* line 91 *)
      let zerosigma := zerosigma_of (destimated r0) in
      (* lines 93-94 *)
      let N := List.length replicates in
      match use_module g "np" "numpy" with
      | Err e => (replicates, Err e)
      | Ok _ =>
          let dims := shape (destimated r0) in
          (replicates, ad_statistic g N dims zerosigma sortedyi)
      end
  end
  end
  end.

End Normalizer.

(** ** The two functions on binary64

    [float] above computes exactly.  Here [OrderReplicates] and
    [AndersonDarling] are repeated for a per-state quantity on the IEEE 754
    binary64 numbers the code runs on, the primitive floats of Rocq, with
    [np] and [scipy] bound: rounding, overflow, underflow, the infinities
    and the signed zeros are those of the machine.  An array over the
    states is the list of its entries; as above, arrays of different
    lengths, which numpy may broadcast, are answered with [ValueError]. *)

Abbreviation float64 := PrimFloat.float (only parsing).

Section Binary64.

Import Floats.
Local Open Scope float_scope.

(** [scipy.stats.norm.cdf] and [numpy.log] on binary64. *)
Class Numerics64 : Type := {
  norm_cdf64 : float64 -> float64;
  np_log64 : float64 -> float64
}.

Context {numerics64 : Numerics64}.

(** The two fields of a replicate that the two functions read. *)
Record replicate64 : Type := mkrep64 {
  error64 : list float64;
  destimated64 : list float64
}.

(** A Python int, a bool, as a float (an int below [2^63], as the loop
    indices and the number of replicates are). *)
Definition of_Z64 (z : Z) : float64 :=
  match z with
  | Z0 => 0
  | Zpos _ => of_uint63 (Uint63.of_Z z)
  | Zneg p => - of_uint63 (Uint63.of_Z (Zpos p))
  end.

Definition of_bool64 (b : bool) : float64 := if b then 1 else 0.

(** Line 39. *)
Definition zerosigma64 (sigma : list float64) : list bool :=
  map (fun x => x =? 0) sigma.

(** Lines 41 and 59. *)
Definition add_mask64 (sigma : list float64) (m : list bool) : list float64 :=
  map2 (fun x b => x + of_bool64 b) sigma m.

Definition sub_mask64 (sigma : list float64) (m : list bool) : list float64 :=
  map2 (fun x b => x - of_bool64 b) sigma m.

(** [numpy.sort]: ascending, NaN last.  The order among numbers that compare
    equal (the two zeros), which numpy does not specify, is the one they
    came in. *)
Definition leb64 (x y : float64) : bool :=
  if is_nan y then true else if is_nan x then false else x <=? y.

Fixpoint insert64 (x : float64) (l : list float64) : list float64 :=
  match l with
  | [] => [x]
  | y :: l' => if leb64 x y then x :: l else y :: insert64 x l'
  end.

Definition np_sort64 (l : list float64) : list float64 := fold_right insert64 [] l.

Definition column64 (k : nat) (rows : list (list float64)) : list float64 :=
  map (fun row => nth k row nan) rows.

Definition set_column64 (k : nat) (vals : list float64) (rows : list (list float64))
  : list (list float64) :=
  map2 (fun row v => set_nth k v row) rows vals.

(** Lines 36-60 with [len(dims) == 1]: the restored [destimated] of
    replicate 0 and [sortedyi]. *)
Definition OrderReplicates64 (replicates : list replicate64) (K : nat)
  : result (list float64 * list (list float64)) :=
  match replicates with
  | [] => Err IndexError
  | r0 :: _ =>
      (* lines 38-41 *)
      let sigma := destimated64 r0 in
      let zerosigma := zerosigma64 sigma in
      let sigmacorr := zerosigma in
      let sigma := add_mask64 sigma sigmacorr in
      (* lines 43-47 *)
      (yiarray <- mapM (fun replicate =>
                          if (List.length (error64 replicate) =? List.length sigma)%nat
                          then Ok (map2 PrimFloat.div (error64 replicate) sigma)
                          else Err ValueError)
                       replicates ;;
       let sortedyi := map (fun y => repeat 0 (List.length y)) yiarray in
       (* lines 50-52 *)
       sortedyi <- forM (seq 0 K)
                     (fun s i =>
                        if (i <? List.length sigma)%nat
                        then Ok (set_column64 i (np_sort64 (column64 i yiarray)) s)
                        else Err IndexError)
                     sortedyi ;;
       (* lines 58-60 *)
       let sigma := sub_mask64 sigma sigmacorr in
       Ok (sigma, sortedyi))%result
  end.

(** Lines 97-98. *)
Definition ad_term64 (N i : nat) (y : float64) : float64 :=
  let cdfi := norm_cdf64 y in
  of_Z64 (weight_cdf i) * np_log64 cdfi + of_Z64 (weight_sf N i) * np_log64 (1 - cdfi).

(** Lines 90-101. *)
Definition AndersonDarling64 (replicates : list replicate64) (K : nat)
  : result (list float64) :=
  (* line 90 *)
  (out <- OrderReplicates64 replicates K ;;
   let (destimated0, sortedyi) := out : list float64 * list (list float64) in
   (* line 91 *)
   let zerosigma := zerosigma64 destimated0 in
   (* lines 93-95 *)
   let N := List.length replicates in
   let sum := repeat 0 (List.length destimated0) in
   (* lines 96-98 *)
   sum <- forM (seq 0 N)
            (fun sum i =>
               match nth_error sortedyi i with
               | Some row => Ok (map2 PrimFloat.add sum (map (ad_term64 N i) row))
               | None => Err IndexError
               end)
            sum ;;
   (* lines 99-101 *)
   let A2 := map (fun s => of_Z64 (- Z.of_nat N) - s / of_Z64 (Z.of_nat N)) sum in
   Ok (map2 (fun x (b : bool) => if b then 0 else x) A2 zerosigma))%result.

End Binary64.

(** ** Standard output and the monad of generateConfidenceIntervals *)

Inductive event : Type :=
| PrintStr (s : string)
| PrintReplicate (replicate_index : nat)          (* "replicate %d" *)
| PrintArray (a : ndarray)
| PrintCoverage (alpha cheby obs low high normal : float)          (* line 276 *)
| PrintSummary (i : nat) (pave pbias prms pstdev pavestd : float)  (* lines 337, 345 *)
| PrintTotals (pave pbias prms pstdev pavestd : float).            (* line 347 *)

(** What was printed so far, and the value or the exception. *)
Definition io (A : Type) : Type := (list event * result A)%type.

Definition ret {A : Type} (a : A) : io A := ([], Ok a).
Definition raise {A : Type} (e : exn) : io A := ([], Err e).
Definition print (e : event) : io unit := ([e], Ok tt).
Definition lift {A : Type} (r : result A) : io A := ([], r).

Definition iobind {A B : Type} (m : io A) (f : A -> io B) : io B :=
  match m with
  | (out, Err e) => (out, Err e)
  | (out, Ok a) => let (out', r) := f a in (out ++ out', r)
  end.

Declare Scope io_scope.
Delimit Scope io_scope with io.
Notation "x <- m ;; k" := (iobind m (fun x => k))
  (at level 61, m at next level, right associativity) : io_scope.
Notation "m ;; k" := (iobind m (fun _ => k))
  (at level 61, right associativity) : io_scope.

Fixpoint for_io {A S : Type} (xs : list A) (body : S -> A -> io S) (acc : S) : io S :=
  match xs with
  | [] => ret acc
  | x :: xs' => (acc' <- body acc x ;; for_io xs' body acc')%io
  end.

Fixpoint map_io {A B : Type} (f : A -> io B) (xs : list A) : io (list B) :=
  match xs with
  | [] => ret []
  | x :: xs' => (b <- f x ;; bs <- map_io f xs' ;; ret (b :: bs))%io
  end.

Fixpoint print_all (es : list event) : io unit :=
  match es with
  | [] => ret tt
  | e :: es' => (print e ;; print_all es')%io
  end.

(** [enumerate(xs)]. *)
Definition enumerate {A : Type} (xs : list A) : list (nat * A) :=
  combine (seq 0 (List.length xs)) xs.

(** ** Indexing *)

(** A scalar used as a number. *)
Definition item0 (a : ndarray) : result float :=
  match shape a, data a with
  | [], [x] => Ok x
  | _, _ => Err ValueError
  end.

(** [a[i]] used as a number. *)
Definition item1 (a : ndarray) (i : nat) : result float :=
  match shape a with
  | [n] => if (i <? n)%nat
           then match nth_error (data a) i with Some x => Ok x | None => Err IndexError end
           else Err IndexError
  | [] => Err IndexError
  | _ => Err ValueError
  end.

(** [a[i, j]] used as a number. *)
Definition item2 (a : ndarray) (i j : nat) : result float :=
  match shape a with
  | [n; m] => if ((i <? n) && (j <? m))%nat%bool
              then match nth_error (data a) (i * m + j) with
                   | Some x => Ok x
                   | None => Err IndexError
                   end
              else Err IndexError
  | [] | [_] => Err IndexError
  | _ => Err ValueError
  end.

(** [numpy.linspace(start, stop, num)]. *)
Definition np_linspace (start stop : float) (num : nat) : list float :=
  let step := fdiv (fsub stop start) (of_nat (num - 1)) in
  map (fun i => fadd start (fmul (of_nat i) step)) (seq 0 num).

(** [numpy.average(rows, axis=0)] and [numpy.std(rows, axis=0)] for an array
    whose axis-0 slices have shape [eshape]. *)
Definition fsum (l : list float) : float := fold_left fadd l (Fin 0).

Definition mean (l : list float) : float := fdiv (fsum l) (of_nat (List.length l)).

(** [rows.mean(axis=0)]: the mean of every column. *)
Definition mean0 (eshape : list nat) (rows : list ndarray) : ndarray :=
  mkarr eshape (map (fun k => mean (column k rows)) (seq 0 (size eshape))).

(** [numpy.average] without weights takes [rows.mean(axis=0)] and then
    divides the number of elements of [rows] by that of the mean, two
    Python ints: when a slice holds no element the divisor is 0 and the
    call raises ZeroDivisionError. *)
Definition average0 (eshape : list nat) (rows : list ndarray) : result ndarray :=
  if (size eshape =? 0)%nat then Err ZeroDivisionError else Ok (mean0 eshape rows).

Definition square (x : float) : float := fmul x x.

Section Coverage.

Context {numerics : Numerics}.

Definition std0 (eshape : list nat) (rows : list ndarray) : ndarray :=
  mkarr eshape
    (map (fun k =>
            let c := column k rows in
            let m := mean c in
            np_sqrt (mean (map (fun x => square (fabs (fsub x m))) c)))
         (seq 0 (size eshape))).

(** *** The sweep, lines 199-268 *)

Definition min_alpha : float := Fin (1 # 10).
Definition max_alpha : float := Fin 4.
Definition nalpha : nat := 40.

Definition alpha_values : list float := np_linspace min_alpha max_alpha nalpha.

(** Lines 222-227, 237-242, 253-258: the report on a NaN, and the raise. *)
Definition report_nan {A : Type} (error_label destimated_label : string)
    (replicate_index : nat) (replicate : replicate) : io A :=
  (print (PrintReplicate replicate_index) ;;
   print (PrintStr error_label) ;;
   print (PrintArray (error replicate)) ;;
   print (PrintStr destimated_label) ;;
   print (PrintArray (destimated replicate)) ;;
   raise (StrRaise "isnan"))%io.

(** Lines 229-232 (244-247, 260-263): one test, counted into [a] or [b]. *)
Definition tally (alpha e d : float) (ab : float * float) : float * float :=
  let (a, b) := ab in
  if fle (fabs e) (fmul alpha d) then (fadd a (Fin 1), b) else (a, fadd b (Fin 1)).

(** One coordinate of one replicate: [e] and [d] read the two entries; the
    second is not read when the first is a NaN ([or] is lazy). *)
Definition test_entry (error_label destimated_label : string)
    (replicate_index : nat) (replicate : replicate) (alpha : float)
    (e d : result float) (ab : float * float) : io (float * float) :=
  (ev <- lift e ;;
   if isnan ev then report_nan error_label destimated_label replicate_index replicate
   else
     dv <- lift d ;;
     if isnan dv then report_nan error_label destimated_label replicate_index replicate
     else ret (tally alpha ev dv ab))%io.

(** Lines 220-263: the body of the loop over the replicates. *)
Definition sweep_replicate (dim K : nat) (alpha : float)
    (ab : float * float) (ir : nat * replicate) : io (float * float) :=
  let (replicate_index, replicate) := ir in
  match dim with
  | 0%nat =>
      test_entry "error" "destimated" replicate_index replicate alpha
        (item0 (error replicate)) (item0 (destimated replicate)) ab
  | 1%nat =>
      for_io (seq 0 K)
        (fun ab i =>
           test_entry "error" "destimated" replicate_index replicate alpha
             (item1 (error replicate) i) (item1 (destimated replicate) i) ab)
        ab
  | 2%nat =>
      for_io (seq 0 K)
        (fun ab i =>
           for_io (seq 0 i)
             (fun ab j =>
                test_entry "ij_error" "ij_estimated" replicate_index replicate alpha
                  (item2 (error replicate) i j) (item2 (destimated replicate) i j) ab)
             ab)
        ab
  | _ => ret ab
  end.

(** Lines 217-263: [a] and [b] for one [alpha]. *)
Definition count_alpha (dim K : nat) (replicates : list replicate) (alpha : float)
  : io (float * float) :=
  for_io (enumerate replicates) (sweep_replicate dim K alpha) (Fin 1, Fin 1).

(** One row of the sweep: [Pobs], [Plow], [Phigh], [dPobs] at one [alpha]. *)
Record sweep_row : Type := mkrow {
  row_Pobs : float; row_Plow : float; row_Phigh : float; row_dPobs : float
}.

(** Lines 209-268: the body of the loop over [alpha_index]. *)
Definition sweep_alpha (g : globals) (dim K : nat) (replicates : list replicate)
    (alpha : float) : io sweep_row :=
  (ab <- count_alpha dim K replicates alpha ;;
   let (a, b) := ab : float * float in
   let Pobs := fdiv a (fadd a b) in
   _ <- lift (use_module g "scipy" "scipy") ;;
   let Plow := beta_ppf (Fin (25 # 1000)) a b in
   let Phigh := beta_ppf (Fin (975 # 1000)) a b in
   _ <- lift (use_module g "numpy" "numpy") ;;
   let dPobs :=
     np_sqrt (fdiv (fmul a b)
                   (fmul (square (fadd a b)) (fadd (fadd a b) (Fin 1)))) in
   ret (mkrow Pobs Plow Phigh dPobs))%io.

(** *** The summary statistics, lines 278-318 *)

(** Lines 279-290: the element shape of [vals], [vals_error], [vals_std];
    no branch binds them when [dim] is 3 or more. *)
Definition vals_shape (dim K : nat) : option (list nat) :=
  match dim with
  | 0%nat => Some []
  | 1%nat => Some [K]
  | 2%nat => Some [K; K]
  | _ => None
  end.

(** [vals[rindex, ...] = x]: [x] takes the place of slice [rindex]. *)
Definition assign_slice (eshape : list nat) (rindex : nat) (x : ndarray)
    (rows : list ndarray) : result (list ndarray) :=
  if shape_eqb (shape x) eshape then Ok (set_nth rindex x rows) else Err ValueError.

Definition triple : Type := (list ndarray * list ndarray * list ndarray)%type.

(** Lines 295-297, 300-302, 306-308: the three assignments. *)
Definition assign_replicate (eshape : list nat) (rindex : nat) (replicate : replicate)
    (v : triple) : result triple :=
  let '(vals, vals_error, vals_std) := v in
  (vals <- assign_slice eshape rindex (estimated replicate) vals ;;
   vals_error <- assign_slice eshape rindex (error replicate) vals_error ;;
   vals_std <- assign_slice eshape rindex (destimated replicate) vals_std ;;
   Ok (vals, vals_error, vals_std))%result.

(** Lines 294-308: the body of the loop over the replicates. *)
Definition populate_replicate (dim K : nat) (eshape : list nat)
    (v : triple) (ir : nat * replicate) : result triple :=
  let (rindex, replicate) := ir in
  match dim with
  | 0%nat => assign_replicate eshape rindex replicate v
  | 1%nat =>
      forM (seq 0 K) (fun v i => assign_replicate eshape rindex replicate v) v
  | 2%nat =>
      forM (seq 0 K)
        (fun v i =>
           forM (seq 0 i) (fun v j => assign_replicate eshape rindex replicate v) v)
        v
  | _ => Ok v
  end.

Record summary : Type := mksummary {
  aveval : ndarray;
  standarddev : ndarray;
  bias : ndarray;
  rms_error : ndarray;
  ave_std : ndarray
}.

(** Lines 311-318. *)
Definition summarize (eshape : list nat) (v : triple) : result summary :=
  let '(vals, vals_error, vals_std) := v in
  (* lines 311-312 *)
  (aveval <- average0 eshape vals ;;
   let standarddev := std0 eshape vals in
   (* lines 313-314: [bias] and [aveerr] are the same average *)
   bias <- average0 eshape vals_error ;;
   (* lines 315-318 *)
   d2 <- average0 eshape (map (amap square) vals_error) ;;
   let rms_error := amap np_sqrt d2 in
   d2 <- average0 eshape (map (amap square) vals_std) ;;
   let ave_std := amap np_sqrt d2 in
   Ok (mksummary aveval standarddev bias rms_error ave_std))%result.

(** Lines 278-318. *)
Definition summary_statistics (dim K : nat) (replicates : list replicate)
  : result summary :=
  let nreplicates := List.length replicates in
  let alloc := vals_shape dim K in
  let zeros := match alloc with
               | Some eshape => repeat (np_zeros eshape) nreplicates
               | None => []
               end in
  let eshape := match alloc with Some eshape => eshape | None => [] end in
  (v <- forM (enumerate replicates) (populate_replicate dim K eshape)
             (zeros, zeros, zeros) ;;
   match alloc with
   | None => Err (UnboundLocalError "vals")
   | Some eshape => summarize eshape v
   end)%result.

(** *** The printed summary, lines 320-347 *)

Definition five : Type := (float * float * float * float * float)%type.

Definition print_summary (i : nat) (p : five) : io unit :=
  let '(pave, pbias, prms, pstdev, pavestd) := p in
  print (PrintSummary i pave pbias prms pstdev pavestd).

Definition pick (f : ndarray -> result float) (s : summary) : result five :=
  (pave <- f (aveval s) ;;
   pbias <- f (bias s) ;;
   prms <- f (rms_error s) ;;
   pstdev <- f (standarddev s) ;;
   pavestd <- f (ave_std s) ;;
   Ok (pave, pbias, prms, pstdev, pavestd))%result.

Definition report_summary (dim K : nat) (s : summary) : io unit :=
  (print (PrintStr "") ;;
   print (PrintStr "     i      average    bias      rms_error     stddev  ave_analyt_std") ;;
   print (PrintStr "---------------------------------------------------------------------") ;;
   last <-
     match dim with
     | 0%nat => (p <- lift (pick item0 s) ;; ret (Some p))
     | 1%nat =>
         for_io (seq 0 K)
           (fun _ i => p <- lift (pick (fun a => item1 a i) s) ;;
                       print_summary i p ;; ret (Some p))
           None
     | 2%nat =>
         for_io (seq 0 K)
           (fun _ i => p <- lift (pick (fun a => item2 a 0 i) s) ;;
                       print_summary i p ;; ret (Some p))
           None
     | _ => ret None
     end ;;
   match last with
   | None => raise (UnboundLocalError "pave")
   | Some (pave, pbias, prms, pstdev, pavestd) =>
       print (PrintTotals pave pbias prms pstdev pavestd)
   end)%io.

(** *** generateConfidenceIntervals, lines 164-349 *)

(** Lines 181-195. *)
Definition preamble : list event :=
  map PrintStr
    [ "The uncertainty estimates are tested in this section.";
      "If the error is normally distributed, the actual error will be less than a";
      "multiplier 'alpha' times the computed uncertainty 'sigma' a fraction of";
      "time given by:";
      "P(error < alpha sigma) = erf(alpha / sqrt(2))";
      "For example, the true error should be less than 1.0 * sigma";
      "(one standard deviation) a total of 68% of the time, and";
      "less than 2.0 * sigma (two standard deviations) 95% of the time.";
      "The observed fraction of the time that error < alpha sigma, and its";
      "uncertainty, is given as 'obs' (with uncertainty 'obs err') below.";
      "This should be compared to the column labeled 'normal'.";
      "A weak lower bound that holds regardless of how the error is distributed is given";
      "by Chebyshev's inequality, and is listed as 'cheby' below.";
      "Uncertainty estimates are tested for both free energy differences and expectations.";
      "" ].

(** Line 276: one line of the table. *)
Definition coverage_line (alpha : float) (r : sweep_row) (pnorm : float) : event :=
  PrintCoverage alpha (fsub (Fin 1) (fdiv (Fin 1) (square alpha)))
    (row_Pobs r) (row_Plow r) (row_Phigh r) pnorm.

Fixpoint coverage_lines (alphas : list float) (rows : list sweep_row) (pnorms : list float)
  : list event :=
  match alphas, rows, pnorms with
  | alpha :: alphas', r :: rows', p :: pnorms' =>
      coverage_line alpha r p :: coverage_lines alphas' rows' pnorms'
  | _, _, _ => []
  end.

Definition vector (l : list float) : ndarray := mkarr [List.length l] l.

Definition generateConfidenceIntervals (g : globals) (replicates : list replicate) (K : nat)
  : io (list ndarray) :=
  (print_all preamble ;;
   (* lines 199-208 *)
   _ <- lift (use_module g "numpy" "numpy") ;;
   dim <- match replicates with
          | [] => raise IndexError
          | r0 :: _ => ret (List.length (shape (estimated r0)))
          end ;;
   (* lines 209-268 *)
   rows <- map_io (sweep_alpha g dim K replicates) alpha_values ;;
   (* lines 270-276 *)
   print (PrintStr "Error vs. alpha") ;;
   print (PrintStr "alpha      cheby        obs          obs err            normal") ;;
   _ <- lift (use_module g "scipy" "scipy") ;;
   let Pnorm := map (fun alpha => special_erf (fdiv alpha (np_sqrt (Fin 2)))) alpha_values in
   print_all (coverage_lines alpha_values rows Pnorm) ;;
   (* lines 278-318 *)
   s <- lift (summary_statistics dim K replicates) ;;
   (* lines 320-347 *)
   report_summary dim K s ;;
   (* line 349 *)
   ret [ vector alpha_values;
         vector (map row_Pobs rows);
         vector (map row_Plow rows);
         vector (map row_Phigh rows);
         vector (map row_dPobs rows);
         vector Pnorm ])%io.

End Coverage.

(** ** QQPlot, lines 103-162 *)

(** [scipy.stats.norm.ppf] is not code of this module either. *)
Class Quantiles : Type := {
  norm_ppf : float -> float
}.

(** The calls into matplotlib, as [QQPlot] makes them: a call keeps the
    arguments the function computes, not the constant styling.  What
    matplotlib does with a call is outside the model. *)
Inductive plot_call : Type :=
| RcColor (group key value : string)              (* lines 141-142 *)
| RcLabelsize (group : string) (labelsize : float) (* lines 143-144 *)
| Figure (width height : Z)                       (* line 147 *)
| Subplot (h w : Z) (index : nat)                 (* line 149 *)
| PlotPoints (x y : list float) (ms : float)      (* line 151 *)
| PlotLine (x y : list float)                     (* line 152 *)
| Xlim (lo hi : float)                            (* line 153 *)
| Annotate (label : list nat) (size : float)      (* lines 155, 157 *)
| Suptitle (title : string)                       (* line 158 *)
| Savefig (filename : string)                     (* line 159 *)
| Close.                                          (* line 160 *)

(** The exceptions of [QQPlot]: those of the other functions, and the one
    that only its dict can raise. *)
Inductive plot_exn : Type :=
| Python (e : exn)
| KeyError (key : nat).

Coercion Python : exn >-> plot_exn.

Inductive outcome (A : Type) : Type :=
| Returned (a : A)
| Raised (e : plot_exn).
Arguments Returned {A} a.
Arguments Raised {A} e.

(** The calls made so far, and the value or the exception. *)
Definition plot (A : Type) : Type := (list plot_call * outcome A)%type.

Definition done {A : Type} (a : A) : plot A := ([], Returned a).
Definition fails {A : Type} (e : plot_exn) : plot A := ([], Raised e).
Definition call (c : plot_call) : plot unit := ([c], Returned tt).

Definition python {A : Type} (r : result A) : plot A :=
  match r with
  | Ok a => done a
  | Err e => fails (Python e)
  end.

Definition andthen {A B : Type} (m : plot A) (f : A -> plot B) : plot B :=
  match m with
  | (calls, Raised e) => (calls, Raised e)
  | (calls, Returned a) => let (calls', r) := f a in (calls ++ calls', r)
  end.

Declare Scope plot_scope.
Delimit Scope plot_scope with plot.
Notation "x <- m ;; k" := (andthen m (fun x => k))
  (at level 61, m at next level, right associativity) : plot_scope.
Notation "m ;; k" := (andthen m (fun _ => k))
  (at level 61, right associativity) : plot_scope.

Fixpoint for_plot {A : Type} (xs : list A) (body : A -> plot unit) : plot unit :=
  match xs with
  | [] => done tt
  | x :: xs' => (body x ;; for_plot xs' body)%plot
  end.

(** *** Scalar arithmetic of Python *)

(** [x / y] on Python floats. *)
Definition float_div (x y : float) : plot float :=
  match y with
  | Fin b => if Qeq_bool b 0 then fails ZeroDivisionError else done (fdiv x y)
  | NaN => done NaN
  end.

(** [int(x)]: truncation towards zero. *)
Definition int_of (x : float) : result Z :=
  match x with
  | Fin q => Ok (Z.quot (Qnum q) (Zpos (Qden q)))
  | NaN => Err ValueError
  end.

(** [x > y]. *)
Definition fgt (x y : float) : bool :=
  match x, y with
  | Fin a, Fin b => negb (Qle_bool a b)
  | _, _ => false
  end.

(** [a.min()] and [a.max()]: a NaN wins, an empty array is an error. *)
Definition fmin (x y : float) : float :=
  match x, y with
  | Fin a, Fin b => if Qle_bool a b then Fin a else Fin b
  | _, _ => NaN
  end.

Definition fmax (x y : float) : float :=
  match x, y with
  | Fin a, Fin b => if Qle_bool a b then Fin b else Fin a
  | _, _ => NaN
  end.

Definition np_min (l : list float) : result float :=
  match l with
  | [] => Err ValueError
  | x :: l' => Ok (fold_left fmin l' x)
  end.

Definition np_max (l : list float) : result float :=
  match l with
  | [] => Err ValueError
  | x :: l' => Ok (fold_left fmax l' x)
  end.

(** *** The columns to plot, lines 113-137 *)

(** The shape of the slices of [sortedyi]. *)
Definition slice_shape (rows : list ndarray) : list nat :=
  match rows with
  | [] => []
  | r :: _ => shape r
  end.

(** [sortedyi[:]], [sortedyi[:, i]] and [sortedyi[:, i, j]] as the right-hand
    side of an assignment to a column of [yy]. *)
Definition column0 (rows : list ndarray) : result (list float) :=
  match slice_shape rows with
  | [] => Ok (column 0 rows)
  | _ => Err ValueError
  end.

Definition column1 (rows : list ndarray) (i : nat) : result (list float) :=
  match slice_shape rows with
  | [d0] => if (i <? d0)%nat then Ok (column i rows) else Err IndexError
  | [] => Err IndexError
  | _ => Err ValueError
  end.

Definition column2 (rows : list ndarray) (i j : nat) : result (list float) :=
  match slice_shape rows with
  | [d0; d1] => if ((i <? d0) && (j <? d1))%nat%bool
                then Ok (column (i * d1 + j) rows)
                else Err IndexError
  | [] | [_] => Err IndexError
  | _ => Err ValueError
  end.

(** [yy] is held as the list of its columns: every access is [yy[:, k]]. *)
Definition set_plot_column (k : nat) (vals : list float) (yy : list (list float))
  : result (list (list float)) :=
  if (k <? List.length yy)%nat then Ok (set_nth k vals yy) else Err IndexError.

(** The dict [labelij]; the latest binding of a key is the first. *)
Definition labels : Type := list (nat * (nat * nat)).

Fixpoint getitem (d : labels) (k : nat) : option (nat * nat) :=
  match d with
  | [] => None
  | (k', v) :: d' => if (k' =? k)%nat then Some v else getitem d' k
  end.

Record layout : Type := mklayout {
  nplots : nat;
  yy : list (list float);
  labelij : labels
}.

(** Lines 134-137: the body of the loops over [i] and [j]. *)
Definition fill_pair (sortedyi : list ndarray)
    (st : list (list float) * labels * nat) (ij : nat * nat)
  : result (list (list float) * labels * nat) :=
  let '(yy, labelij, k) := st in
  let (i, j) := ij in
  if (i =? j)%nat then Ok st
  else (vals <- column2 sortedyi i j ;;
        yy <- set_plot_column k vals yy ;;
        Ok (yy, (k, (i, j)) :: labelij, S k))%result.

(** Lines 113-137. *)
Definition qq_layout (dim K N : nat) (sortedyi : list ndarray) : result layout :=
  (* lines 113-120; no branch binds [nplots] when [dim] is 3 or more *)
  match match dim with
        | 0%nat => Some 1%nat
        | 1%nat => Some K
        | 2%nat => Some (K * K)%nat
        | _ => None
        end with
  | None => Err (UnboundLocalError "nplots")
  | Some columns =>
      let yy := repeat (repeat (Fin 0) N) columns in
      (* lines 122-137 *)
      match dim with
      | 0%nat =>
          (vals <- column0 sortedyi ;;
           yy <- set_plot_column 0 vals yy ;;
           Ok (mklayout 1 yy []))%result
      | 1%nat =>
          (yy <- forM (seq 0 K)
                   (fun yy i => vals <- column1 sortedyi i ;; set_plot_column i vals yy)
                   yy ;;
           Ok (mklayout K yy []))%result
      | 2%nat =>
          (st <- forM (seq 0 K)
                   (fun st i => forM (seq 0 K) (fun st j => fill_pair sortedyi st (i, j)) st)
                   (yy, [], 0%nat) ;;
           let '(yy, labelij, _) := st in
           Ok (mklayout (K * (K - 1)) yy labelij))%result
      | _ => Ok (mklayout columns yy [])
      end
  end.

Section Plotting.

Context {numerics : Numerics} {quantiles : Quantiles}.

(** Line 111: the plotting positions. *)
Definition plotting_positions (N : nat) : list float :=
  map (fun i => norm_ppf (fdiv (fadd (of_nat i) (Fin (1 # 2))) (of_nat N))) (seq 0 N).

(** Lines 149-157: one panel. *)
Definition panel (dim : nat) (xvals : list float) (lay : layout) (labelsize : float)
    (h w : Z) (i : nat) : plot unit :=
  (call (Subplot h w (i + 1)) ;;
   column <- python (match nth_error (yy lay) i with
                     | Some c => Ok c
                     | None => Err IndexError
                     end) ;;
   ms <- float_div (Fin 75) (of_nat (List.length column)) ;;
   call (PlotPoints xvals column ms) ;;
   call (PlotLine xvals xvals) ;;
   lo <- python (np_min xvals) ;;
   hi <- python (np_max xvals) ;;
   call (Xlim lo hi) ;;
   (if (dim =? 1)%nat then call (Annotate [i] labelsize) else done tt) ;;
   (if (dim =? 2)%nat
    then match getitem (labelij lay) i with
         | Some (a, b) => call (Annotate [a; b] labelsize)
         | None => fails (KeyError i)
         end
    else done tt))%plot.

(** Lines 139-160: the figure, from the columns to plot. *)
Definition render (dim : nat) (xvals : list float) (lay : layout)
    (title filename : string) : plot unit :=
  (* lines 139-147; [x ** 0.5] is the square root of the class *)
  (let sq := np_sqrt (of_nat (nplots lay)) in
   labelsize <- float_div (Fin 30) sq ;;
   call (RcColor "axes" "facecolor" "#E3E4FA") ;;
   call (RcColor "axes" "edgecolor" "white") ;;
   call (RcLabelsize "xtick" labelsize) ;;
   call (RcLabelsize "ytick" labelsize) ;;
   h <- python (int_of sq) ;;
   let w := (h + 1 + 1 * (if fgt (fsub sq (of_int h)) (Fin (1 # 2)) then 1 else 0))%Z in
   call (Figure 8 6) ;;
   (* lines 148-160 *)
   for_plot (seq 0 (nplots lay)) (panel dim xvals lay labelsize h w) ;;
   call (Suptitle title) ;;
   call (Savefig filename) ;;
   call Close)%plot.

(** Lines 109-160, after the call of [OrderReplicates]. *)
Definition draw (g : globals) (replicates : list replicate) (K : nat)
    (title filename : string) (sortedyi : list ndarray) : plot unit :=
  (* lines 109-111 *)
  (let N := List.length replicates in
   _ <- python (use_module g "np" "numpy") ;;
   dim <- match replicates with
          | [] => fails (Python IndexError)
          | r0 :: _ => done (List.length (shape (error r0)))
          end ;;
   _ <- python (use_module g "scipy" "scipy") ;;
   let xvals := plotting_positions N in
   (* lines 113-137 *)
   lay <- python (qq_layout dim K N sortedyi) ;;
   render dim xvals lay title filename)%plot.

(** Lines 105-106 import matplotlib, taken to be installed; line 108 calls
    [OrderReplicates], which may leave the store changed. *)
Definition QQPlot (g : globals) (replicates : list replicate) (K : nat)
    (title filename : string) : list replicate * plot unit :=
  match use_function g "OrderReplicates" with
  | Err e => (replicates, fails (Python e))
  | Ok _ =>
      match OrderReplicates g replicates K with
      | (replicates, Err e) => (replicates, fails (Python e))
      | (replicates, Ok sortedyi) =>
          (replicates, draw g replicates K title filename sortedyi)
      end
  end.

End Plotting.

(** The defaults of line 103. *)
Definition default_title : string := "Generic Q-Q plot".
Definition default_filename : string := "qq.pdf".

(** * Vocabulary of the properties, and concrete replicate sets *)

(** Two runs of a loop over the same indices, kept in step by [R]: they end
    with the same exception or with related states. *)
Definition same_outcome {S T : Type} (R : S -> T -> Prop) (m : result S) (n : result T) : Prop :=
  match m, n with
  | Ok s, Ok t => R s t
  | Err e, Err e' => e = e'
  | _, _ => False
  end.

(** Rows that all have the element shape [dims] and hold [size dims] numbers. *)
Definition row_ok (dims : list nat) (r : ndarray) : Prop :=
  shape r = dims /\ List.length (data r) = size dims.

(** A number, not a NaN. *)
Definition is_finite (x : float) : Prop := isnan x = false.

(** Ascending in the sense of the claims: each entry [<=] the next. *)
Definition ascending (l : list float) : Prop :=
  forall i, (S i < List.length l)%nat -> fle (nth i l NaN) (nth (S i) l NaN) = true.

(** Line 41: the scale the errors are divided by. *)
Definition corrected_sigma (r0 : replicate) : ndarray :=
  add_mask (destimated r0) (zerosigma_of (destimated r0)).

(** Line 45: one slice of [yiarray]. *)
Definition normalized (sigma : ndarray) (r : replicate) : ndarray :=
  mkarr (shape (error r)) (map2 fdiv (data (error r)) (data sigma)).

(** An array holds as many numbers as its shape says. *)
Definition well_formed (a : ndarray) : Prop := List.length (data a) = size (shape a).

(** No entry is a NaN. *)
Definition nan_free (a : ndarray) : Prop := Forall is_finite (data a).

(** No quotient of line 45 is a NaN. *)
Definition normalized_without_nan (replicates : list replicate) : Prop :=
  match replicates with
  | [] => True
  | r0 :: _ =>
      forall r k, In r replicates -> (k < size (shape (destimated r0)))%nat ->
        isnan (nth k (data (normalized (corrected_sigma r0) r)) NaN) = false
  end.

(** [normalized[i] <= normalized[i+1]] at every coordinate [k]. *)
Definition sorted_along_replicates (s : list ndarray) : Prop :=
  forall i k d, (S i < List.length s)%nat -> (k < size (shape (nth i s d)))%nat ->
    fle (nth k (data (nth i s d)) NaN) (nth k (data (nth (S i) s d)) NaN) = true.

(** A rational instance of [Numerics], with which the model runs on
    concrete replicate sets.  It is coarse ([cdf 0 = 1/2], [log 1 = 0],
    [sqrt 1 = 1], odd [erf]); what is proved for every instance does not
    depend on it. *)
Definition rational_numerics : Numerics := {|
  np_log := fun x =>
    match x with
    | Fin q => if Qle_bool q 0 then NaN else Fin (Qred ((q - 1) / q))
    | NaN => NaN
    end;
  np_sqrt := fun x =>
    match x with
    | Fin q => if Qle_bool 0 q
               then (if Qeq_bool q 0 then Fin 0 else Fin (Qred ((1 + q) / 2)))
               else NaN
    | NaN => NaN
    end;
  norm_cdf := fun x =>
    match x with
    | Fin q => Fin (Qred (1 / 2 + q / (2 * (1 + Qabs q))))
    | NaN => NaN
    end;
  special_erf := fun x =>
    match x with
    | Fin q => Fin (Qred (q / (1 + Qabs q)))
    | NaN => NaN
    end;
  beta_ppf := fun p a b =>
    match p, a, b with
    | Fin p, Fin a, Fin b => Fin (Qred (a * p / (a * p + b * (1 - p))))
    | _, _, _ => NaN
    end
|}.

(** A per-state vector and a replicate of per-state vectors. *)
Definition vec (l : list float) : ndarray := mkarr [List.length l] l.

Definition rep (est err dest : list float) : replicate :=
  mkrep (vec est) (vec err) (vec dest).

(** Three replicates over two states; state 0 has a zero reference scale. *)
Definition three_by_two : list replicate :=
  [ rep [Fin 1; Fin 2] [Fin 1; Fin 2] [Fin 0; Fin 1];
    rep [Fin 1; Fin 2] [Fin (-3); Fin (1 # 2)] [Fin 5; Fin 1];
    rep [Fin 1; Fin 2] [Fin 2; Fin (-1)] [Fin 1; Fin 1] ].

(** Two replicates over one state, the first with a NaN error. *)
Definition nan_error : list replicate :=
  [ rep [Fin 1] [NaN] [Fin 1];
    rep [Fin 1] [Fin 1] [Fin 1] ].

(** [error -> c * error], [destimated -> c * destimated]. *)
Definition rescale (c : Q) (r : replicate) : replicate :=
  mkrep (estimated r) (amap (fmul (Fin c)) (error r)) (amap (fmul (Fin c)) (destimated r)).

(** Two slices that agree in shape, and in value wherever the mask is clear. *)
Definition row_rel (mask : list bool) (r' r : ndarray) : Prop :=
  shape r' = shape r /\
  List.length (data r') = List.length (data r) /\
  forall k, nth k mask false = false -> nth k (data r') NaN = nth k (data r) NaN.

(** Line 39 on the rescaled replicates: the zero mask of replicate 0 is the
    one of the replicates themselves. *)
Definition mask_kept (c : Q) (replicates : list replicate) : Prop :=
  match replicates with
  | [] => True
  | r0 :: _ => zerosigma_of (destimated (rescale c r0)) = zerosigma_of (destimated r0)
  end.

(** Line 45 on the rescaled replicates: wherever the mask is clear, the
    quotients are those of the replicates themselves. *)
Definition ratios_kept (c : Q) (replicates : list replicate) : Prop :=
  match replicates with
  | [] => True
  | r0 :: _ =>
      forall r k, In r replicates ->
        nth k (zerosigma_of (destimated r0)) false = false ->
        nth k (data (normalized (corrected_sigma (rescale c r0)) (rescale c r))) NaN
        = nth k (data (normalized (corrected_sigma r0) r)) NaN
  end.

(** Two replicates over one state: errors 2 and 1, scale 1. *)
Definition two_by_one : list replicate :=
  [ rep [Fin 0] [Fin 2] [Fin 1];
    rep [Fin 0] [Fin 1] [Fin 1] ].

(** Two runs that both end normally end in related states. *)
Definition both_ok {S T : Type} (R : S -> T -> Prop) (m : io S) (n : io T) : Prop :=
  match snd m, snd n with
  | Ok s, Ok t => R s t
  | _, _ => True
  end.

(** A number [>= 0]. *)
Definition nonneg (x : float) : Prop := exists q, x = Fin q /\ 0 <= q.

(** Every [destimated] entry is a number [>= 0]. *)
Definition destimated_nonneg (replicates : list replicate) : Prop :=
  Forall (fun r => Forall nonneg (data (destimated r))) replicates.

(** The counts of two sweeps over the same data, the second at the larger
    [alpha]: as many tests in both, at least as many passes in the second. *)
Definition counts_rel (ab ab' : float * float) : Prop :=
  exists a b a' b' : Q,
    ab = (Fin a, Fin b) /\ ab' = (Fin a', Fin b') /\
    0 < a /\ 0 < b /\ 0 < a' /\ 0 < b' /\
    a <= a' /\ a + b == a' + b'.

(** The three replicates of the scenario of section 8: scalar quantity,
    [destimated = 1], [error = 0.5, -0.5, 1.5]. *)
Definition scalar_three : list replicate :=
  [ mkrep (scalar (Fin 1)) (scalar (Fin (1 # 2))) (scalar (Fin 1));
    mkrep (scalar (Fin 1)) (scalar (Fin (-1 # 2))) (scalar (Fin 1));
    mkrep (scalar (Fin 1)) (scalar (Fin (3 # 2))) (scalar (Fin 1)) ].

(** A matrix from its rows. *)
Definition mat (rows : list (list float)) : ndarray :=
  mkarr [List.length rows; List.length (hd [] rows)] (List.concat rows).

(** One replicate of a 2 x 2 state-pair quantity. *)
Definition one_pair_matrix : list replicate :=
  [ mkrep (mat [[Fin 1; Fin 2]; [Fin 3; Fin 4]])
          (mat [[Fin 10; Fin 20]; [Fin 30; Fin 40]])
          (mat [[Fin 1; Fin 1]; [Fin 1; Fin 1]]) ].

(** One replicate of a 1 x 1 x 1 quantity. *)
Definition cube (x : float) : ndarray := mkarr [1; 1; 1]%nat [x].

Definition one_cube : list replicate :=
  [ mkrep (cube (Fin 1)) (cube (Fin (1 # 2))) (cube (Fin 1)) ].

(** The five summary arrays are among the components of the tuple. *)
Definition returns_summary (returned : list ndarray) (s : summary) : Prop :=
  In (aveval s) returned /\ In (bias s) returned /\ In (rms_error s) returned /\
  In (standarddev s) returned /\ In (ave_std s) returned.

(** The coordinates the sweep visits in a replicate, in order (section 4.3,
    step 1): one for a scalar, [K] for a vector, the pairs [j < i] for a
    matrix. *)
Definition coordinates (dim K : nat) : list (list nat) :=
  match dim with
  | 0%nat => [[]]
  | 1%nat => map (fun i => [i]) (seq 0 K)
  | 2%nat => flat_map (fun i => map (fun j => [i; j]) (seq 0 i)) (seq 0 K)
  | _ => []
  end.

(** The entry of [a] at the coordinate [c], as the sweep reads it. *)
Definition entry (a : ndarray) (c : list nat) : result float :=
  match c with
  | [] => item0 a
  | [i] => item1 a i
  | [i; j] => item2 a i j
  | _ => Err ValueError
  end.

(** A replicate, with its index, and a coordinate. *)
Definition visit : Type := (nat * replicate * list nat)%type.

(** Every (replicate, coordinate) the sweep visits for one [alpha], in order. *)
Definition visits (dim K : nat) (replicates : list replicate) : list visit :=
  flat_map (fun ir => map (fun c => (fst ir, snd ir, c)) (coordinates dim K))
           (enumerate replicates).

(** What the sweep finds at a visit. *)
Inductive verdict : Type :=
| Clean        (* both entries are numbers *)
| Offending    (* the error, or else the destimated entry, is a NaN *)
| Broken.      (* an entry cannot be read *)

Definition classify (v : visit) : verdict :=
  let '(_, r, c) := v in
  match entry (error r) c with
  | Err _ => Broken
  | Ok e =>
      if isnan e then Offending
      else match entry (destimated r) c with
           | Err _ => Broken
           | Ok d => if isnan d then Offending else Clean
           end
  end.

(** The first visit that meets a NaN, every visit before it being clean. *)
Fixpoint first_offender (vs : list visit) : option visit :=
  match vs with
  | [] => None
  | v :: vs' =>
      match classify v with
      | Clean => first_offender vs'
      | Offending => Some v
      | Broken => None
      end
  end.

(** Lines 223, 238, 254 and 225, 240, 256: the two headings. *)
Definition error_label (dim : nat) : string :=
  match dim with 2%nat => "ij_error" | _ => "error" end.

Definition destimated_label (dim : nat) : string :=
  match dim with 2%nat => "ij_estimated" | _ => "destimated" end.

(** What is printed about the offending replicate. *)
Definition nan_report (dim replicate_index : nat) (replicate : replicate) : list event :=
  [ PrintReplicate replicate_index;
    PrintStr (error_label dim);
    PrintArray (error replicate);
    PrintStr (destimated_label dim);
    PrintArray (destimated replicate) ].

(** Two replicates over two states, a NaN error in state 1 of replicate 1. *)
Definition nan_second : list replicate :=
  [ rep [Fin 1; Fin 1] [Fin 1; Fin 1] [Fin 1; Fin 1];
    rep [Fin 1; Fin 1] [Fin 1; NaN] [Fin 1; Fin 1] ].

(** The data model of section 3: every array of every replicate is a
    scalar, a vector over the [K] states or a matrix over the pairs of
    states, the same for all, and holds as many numbers as its shape says. *)
Definition model_shape (K : nat) (s : list nat) : Prop :=
  s = [] \/ s = [K] \/ s = [K; K].

Definition replicate_ok (s : list nat) (r : replicate) : Prop :=
  (shape (estimated r) = s /\ well_formed (estimated r)) /\
  (shape (error r) = s /\ well_formed (error r)) /\
  (shape (destimated r) = s /\ well_formed (destimated r)).

Definition valid_replicates (K : nat) (s : list nat) (replicates : list replicate) : Prop :=
  replicates <> [] /\ model_shape K s /\ Forall (replicate_ok s) replicates.

(** No NaN among the errors and the standard errors. *)
Definition nan_free_all (replicates : list replicate) : Prop :=
  Forall (fun r => nan_free (error r) /\ nan_free (destimated r)) replicates.

(** The five summary arrays have the element shape [s]. *)
Definition summary_ok (s : list nat) (sm : summary) : Prop :=
  row_ok s (aveval sm) /\ row_ok s (bias sm) /\ row_ok s (rms_error sm) /\
  row_ok s (standarddev sm) /\ row_ok s (ave_std sm).

(** A run that ends normally. *)
Definition succeeds {A : Type} (m : io A) : Prop := exists out a, m = (out, Ok a).

Section Vocabulary.

Context {numerics : Numerics}.

(** The statistic in the words of the specification, section 4.2: the
    weights take the rank of the order statistic, counted from 1. *)
Definition classical_term (N rank : nat) (y : float) : float :=
  let cdf := norm_cdf y in
  fadd (fmul (of_int (2 * Z.of_nat rank - 1)) (np_log cdf))
       (fmul (of_int (2 * (Z.of_nat N - Z.of_nat rank) + 1)) (np_log (fsub (Fin 1) cdf))).

Definition classical_A2 (ys : list float) : float :=
  let N := List.length ys in
  let S := fold_left (fun s iy => fadd s (classical_term N (S (fst iy)) (snd iy)))
                     (enumerate ys) (Fin 0) in
  fsub (of_int (- Z.of_nat N)) (fdiv S (of_nat N)).

(** Line 273. *)
Definition Pnorm_values : list float :=
  map (fun alpha => special_erf (fdiv alpha (np_sqrt (Fin 2)))) alpha_values.

(** Line 349: the tuple returned, from the rows of the sweep. *)
Definition returned_tuple (rows : list sweep_row) : list ndarray :=
  [ vector alpha_values;
    vector (map row_Pobs rows);
    vector (map row_Plow rows);
    vector (map row_Phigh rows);
    vector (map row_dPobs rows);
    vector Pnorm_values ].

(** The row of the table when nothing was tested: [a = b = 1]. *)
Definition untested_row : sweep_row :=
  mkrow (fdiv (Fin 1) (fadd (Fin 1) (Fin 1)))
        (beta_ppf (Fin (25 # 1000)) (Fin 1) (Fin 1))
        (beta_ppf (Fin (975 # 1000)) (Fin 1) (Fin 1))
        (np_sqrt (fdiv (fmul (Fin 1) (Fin 1))
                       (fmul (square (fadd (Fin 1) (Fin 1)))
                             (fadd (fadd (Fin 1) (Fin 1)) (Fin 1))))).

(** What [generateConfidenceIntervals] prints before it stops when the
    dimensionality is above 2: the preamble and the whole table. *)
Definition untested_report : list event :=
  preamble ++
  PrintStr "Error vs. alpha" ::
  PrintStr "alpha      cheby        obs          obs err            normal" ::
  coverage_lines alpha_values (map (fun _ => untested_row) alpha_values) Pnorm_values.

(** Lines 220-263 at one visit. *)
Definition visit_body (dim : nat) (alpha : float) (ab : float * float) (v : visit)
  : io (float * float) :=
  let '(replicate_index, replicate, c) := v in
  test_entry (error_label dim) (destimated_label dim) replicate_index replicate alpha
    (entry (error replicate) c) (entry (destimated replicate) c) ab.

End Vocabulary.

(** ** Vocabulary of the further properties *)

(** Lines 48-56: the row-major offsets of the coordinates [OrderReplicates]
    writes, in the order of the loops. *)
Definition written_offsets (dims : list nat) (K : nat) : list nat :=
  match dims with
  | [] => [0%nat]
  | [_] => seq 0 K
  | [_; d1] => flat_map (fun i => map (fun j => (i * d1 + j)%nat) (seq 0 K)) (seq 0 K)
  | _ => []
  end.

Definition written (dims : list nat) (K k : nat) : bool :=
  existsb (Nat.eqb k) (written_offsets dims K).

(** Line 46, one column: the normalised errors of all replicates at the
    coordinate of offset [k]. *)
Definition normalized_column (replicates : list replicate) (k : nat) : list float :=
  match replicates with
  | [] => []
  | r0 :: _ => column k (map (normalized (corrected_sigma r0)) replicates)
  end.

(** Two numbers that are both NaN or numerically equal. *)
Definition same_number (x y : float) : Prop :=
  match x, y with
  | NaN, NaN => True
  | Fin a, Fin b => a == b
  | _, _ => False
  end.

(** Two arrays of one shape whose entries are numerically equal. *)
Definition same_array (a b : ndarray) : Prop :=
  shape a = shape b /\ Forall2 same_number (data a) (data b).

Section FurtherVocabulary.

Context {numerics : Numerics}.

(** Lines 95-99 at one coordinate: the sum over the sorted column [ys],
    iteration [i] taking [ys[i]], and the statistic made of it. *)
Definition ad_sum (N : nat) (ys : list float) : float :=
  fold_left (fun acc iy => fadd acc (ad_term N (fst iy) (snd iy))) (enumerate ys) (Fin 0).

Definition ad_value (N : nat) (ys : list float) : float :=
  fsub (of_int (- Z.of_nat N)) (fdiv (ad_sum N ys) (of_nat N)).

End FurtherVocabulary.

(** Lines 220-263: how many (error, destimated) pairs of one replicate the
    sweep tests: one for a scalar, one per state for a vector, one per pair
    [j < i] of states for a matrix. *)
Definition tests_per_replicate (dim K : nat) : nat :=
  match dim with
  | 0%nat => 1
  | 1%nat => K
  | 2%nat => K * (K - 1) / 2
  | _ => 0
  end.

(** Two replicates with the same errors and the same standard errors. *)
Definition same_tests (r r' : replicate) : Prop :=
  error r = error r' /\ destimated r = destimated r'.

(** Lines 293-308: whether the loops around the three assignments run their
    body at least once for a replicate. *)
Definition populated (dim K : nat) : bool :=
  match dim with
  | 0%nat => true
  | 1%nat => (1 <=? K)%nat
  | 2%nat => (2 <=? K)%nat
  | _ => false
  end.

(** Lines 320-322. *)
Definition summary_heading : list event :=
  [ PrintStr "";
    PrintStr "     i      average    bias      rms_error     stddev  ave_analyt_std";
    PrintStr "---------------------------------------------------------------------" ].

(** Lines 295-297 (300-302, 306-308) on arrays of the element shape. *)
Definition assigned (rindex : nat) (r : replicate) (v : triple) : triple :=
  let '(vals, vals_error, vals_std) := v in
  (set_nth rindex (estimated r) vals,
   set_nth rindex (error r) vals_error,
   set_nth rindex (destimated r) vals_std).

(** Lines 279-308: [vals], [vals_error] and [vals_std] after the loop over
    the replicates: the arrays of the replicates where the assignments ran,
    the zeros of the allocation where they did not. *)
Definition collected (eshape : list nat) (dim K : nat) (replicates : list replicate)
  : triple :=
  if populated dim K
  then (map estimated replicates, map error replicates, map destimated replicates)
  else let zeros := repeat (np_zeros eshape) (List.length replicates) in
       (zeros, zeros, zeros).

Section SummaryVocabulary.

Context {numerics : Numerics}.

(** What lines 311-318 compute on slices that hold an element: the means,
    the standard deviation and the root mean squares over the replicates. *)
Definition summary_of (eshape : list nat) (v : triple) : summary :=
  let '(vals, vals_error, vals_std) := v in
  mksummary
    (mean0 eshape vals)
    (std0 eshape vals)
    (mean0 eshape vals_error)
    (amap np_sqrt (mean0 eshape (map (amap square) vals_error)))
    (amap np_sqrt (mean0 eshape (map (amap square) vals_std))).

End SummaryVocabulary.

(** A rational instance of [Quantiles]: the inverse of the [norm_cdf] of
    [rational_numerics] on the open unit interval. *)
Definition rational_quantiles : Quantiles := {|
  norm_ppf := fun p =>
    match p with
    | Fin p => if Qle_bool p 0 || Qle_bool 1 p
               then NaN
               else Fin (Qred ((2 * p - 1) / (1 - Qabs (2 * p - 1))))
    | NaN => NaN
    end
|}.

(** Three replicates of a 2 x 2 state-pair quantity. *)
Definition three_matrices : list replicate :=
  [ mkrep (mat [[Fin 0; Fin 1]; [Fin (-1); Fin 0]])
          (mat [[Fin 0; Fin 3]; [Fin (-3); Fin 0]])
          (mat [[Fin 0; Fin 1]; [Fin 1; Fin 0]]);
    mkrep (mat [[Fin 0; Fin 1]; [Fin (-1); Fin 0]])
          (mat [[Fin 0; Fin 1]; [Fin (-1); Fin 0]])
          (mat [[Fin 0; Fin 1]; [Fin 1; Fin 0]]);
    mkrep (mat [[Fin 0; Fin 1]; [Fin (-1); Fin 0]])
          (mat [[Fin 0; Fin 2]; [Fin (-2); Fin 0]])
          (mat [[Fin 0; Fin 1]; [Fin 1; Fin 0]]) ].

(** A call that asks for a panel asks for one of its grid. *)
Definition fits_grid (c : plot_call) : Prop :=
  match c with
  | Subplot h w index => (1 <= Z.of_nat index <= h * w)%Z
  | _ => True
  end.

(** What the grid of lines 145-146 needs of the square root of line 139: a
    number, not negative, whose square is not more than 1/2 below [n], and
    not below the root when [n] is a perfect square.  The exact root is
    one, and so is every root that is not below it. *)
Definition close_root (n : nat) (root : float) : Prop :=
  exists q, root = Fin q /\ 0 <= q /\
    inject_Z (Z.of_nat n) <= q * q + (1 # 2) /\
    forall r : nat, n = (r * r)%nat -> inject_Z (Z.of_nat r) <= q.

(** Lines 132-133: the pairs the two loops go through, and, line 134, the
    ones that get a panel. *)
Definition all_pairs (K : nat) : list (nat * nat) :=
  flat_map (fun i => map (fun j => (i, j)) (seq 0 K)) (seq 0 K).

Definition off_diagonal (K : nat) : list (nat * nat) :=
  filter (fun ij => negb (fst ij =? snd ij)%nat) (all_pairs K).

(** The coordinates that get a panel, in the order of the panels, and the
    row-major offset of a coordinate in a slice of shape [dims]. *)
Definition plotted (dims : list nat) (K : nat) : list (list nat) :=
  match dims with
  | [] => [[]]
  | [_] => map (fun i => [i]) (seq 0 K)
  | [_; _] => map (fun ij => [fst ij; snd ij]) (off_diagonal K)
  | _ => []
  end.

Definition offset_of (dims : list nat) (c : list nat) : nat :=
  match dims, c with
  | [_], [i] => i
  | [_; d1], [i; j] => (i * d1 + j)%nat
  | _, _ => 0%nat
  end.

(** The point sets and the labels of a figure, in the order of the calls. *)
Definition curves (calls : list plot_call) : list (list float * list float) :=
  flat_map (fun c => match c with PlotPoints x y _ => [(x, y)] | _ => [] end) calls.

Definition annotations (calls : list plot_call) : list (list nat) :=
  flat_map (fun c => match c with Annotate label _ => [label] | _ => [] end) calls.

(** Lines 155 and 157: the label of panel [i], if it gets one. *)
Definition panel_label (dim : nat) (lay : layout) (i : nat) : list (list nat) :=
  match dim with
  | 1%nat => [[i]]
  | 2%nat => match getitem (labelij lay) i with
             | Some (a, b) => [[a; b]]
             | None => []
             end
  | _ => []
  end.

(** A state-pair quantity over two states with a NaN in every entry the
    sweep does not test: the diagonal and the pair above it. *)
Definition nan_off_the_tests : list replicate :=
  [ mkrep (mat [[NaN; NaN]; [Fin (-1); NaN]])
          (mat [[NaN; NaN]; [Fin (-3); NaN]])
          (mat [[NaN; NaN]; [Fin 1; NaN]]) ].

(** Lines 271-272. *)
Definition table_heading : list event :=
  [ PrintStr "Error vs. alpha";
    PrintStr "alpha      cheby        obs          obs err            normal" ].

(** Lines 325-329, 332-336, 340-344: the five numbers read at the row-major
    offset [i] of the summary arrays. *)
Definition summary_values (sm : summary) (i : nat) : five :=
  (nth i (data (aveval sm)) NaN,
   nth i (data (bias sm)) NaN,
   nth i (data (rms_error sm)) NaN,
   nth i (data (standarddev sm)) NaN,
   nth i (data (ave_std sm)) NaN).

(** Lines 337 and 345, and line 347. *)
Definition summary_line (sm : summary) (i : nat) : event :=
  let '(pave, pbias, prms, pstdev, pavestd) := summary_values sm i in
  PrintSummary i pave pbias prms pstdev pavestd.

Definition totals_line (sm : summary) (i : nat) : event :=
  let '(pave, pbias, prms, pstdev, pavestd) := summary_values sm i in
  PrintTotals pave pbias prms pstdev pavestd.

(** The states that get a line of the summary, and the offset the "Totals"
    line reads: the last of them, or the scalar itself. *)
Definition printed_states (dim K : nat) : list nat :=
  match dim with
  | 0%nat => []
  | _ => seq 0 K
  end.

Definition totals_state (dim K : nat) : nat :=
  match dim with
  | 0%nat => 0%nat
  | _ => (K - 1)%nat
  end.

(** Line 111: the probabilities [norm.ppf] is evaluated at. *)
Definition plotting_probabilities (N : nat) : list float :=
  map (fun i => fdiv (fadd (of_nat i) (Fin (1 # 2))) (of_nat N)) (seq 0 N).

(** A number strictly between 0 and 1. *)
Definition inside_unit (x : float) : Prop := exists p, x = Fin p /\ 0 < p /\ p < 1.

(** ** Vocabulary of the properties on binary64 *)

Section Binary64Vocabulary.

Import Floats.
Local Open Scope float_scope.

(** [error -> c * error], [destimated -> c * destimated] on binary64. *)
Definition rescale64 (c : float64) (r : replicate64) : replicate64 :=
  mkrep64 (map (fun x => c * x) (error64 r)) (map (fun x => c * x) (destimated64 r)).

(** A coarse instance of [Numerics64], the one of [rational_numerics]. *)
Definition coarse64 : Numerics64 := {|
  norm_cdf64 := fun x => 1 / 2 + x / (2 * (1 + abs x));
  np_log64 := fun x => (x - 1) / x
|}.

(** Two powers of two, and the nearest binary64 numbers to 0.1 and 0.3. *)
Definition tiny64 : float64 := 0x1p-600.
Definition huge64 : float64 := 0x1p+600.
Definition tenth64 : float64 := 1 / 10.
Definition three_tenths64 : float64 := 3 / 10.

(** One replicate over one state: error 0, standard error [2^-600]. *)
Definition one_state64 : list replicate64 := [ mkrep64 [0] [tiny64] ].

(** One replicate over one state: error 0.1, standard error 0.3. *)
Definition one_third64 : list replicate64 := [ mkrep64 [tenth64] [three_tenths64] ].

(** Two replicates over one state; the first has an infinite error and an
    infinite standard error. *)
Definition infinite64 : list replicate64 :=
  [ mkrep64 [infinity] [infinity]; mkrep64 [1] [1] ].

(** Line 41 and line 45 on binary64. *)
Definition corrected_sigma64 (r0 : replicate64) : list float64 :=
  add_mask64 (destimated64 r0) (zerosigma64 (destimated64 r0)).

Definition normalized64 (sigma : list float64) (r : replicate64) : list float64 :=
  map2 PrimFloat.div (error64 r) sigma.

(** No quotient of line 45 is a NaN. *)
Definition normalized_without_nan64 (replicates : list replicate64) : Prop :=
  match replicates with
  | [] => True
  | r0 :: _ =>
      forall r k, In r replicates -> (k < List.length (destimated64 r0))%nat ->
        is_nan (nth k (normalized64 (corrected_sigma64 r0) r) nan) = false
  end.

(** Each entry [<=] the next. *)
Definition ascending64 (l : list float64) : Prop :=
  forall i, (S i < List.length l)%nat -> (nth i l nan <=? nth (S i) l nan) = true.

(** Line 39 on the rescaled replicates: the zero mask of replicate 0 is the
    one of the replicates themselves. *)
Definition mask_kept64 (c : float64) (replicates : list replicate64) : Prop :=
  match replicates with
  | [] => True
  | r0 :: _ =>
      zerosigma64 (destimated64 (rescale64 c r0)) = zerosigma64 (destimated64 r0)
  end.

(** Line 45 on the rescaled replicates: wherever the mask is clear, the
    quotients are those of the replicates themselves. *)
Definition ratios_kept64 (c : float64) (replicates : list replicate64) : Prop :=
  match replicates with
  | [] => True
  | r0 :: _ =>
      forall r k, In r replicates ->
        nth k (zerosigma64 (destimated64 r0)) false = false ->
        nth k (normalized64 (corrected_sigma64 (rescale64 c r0)) (rescale64 c r)) nan
        = nth k (normalized64 (corrected_sigma64 r0) r) nan
  end.

(** Two rows of the same length that agree wherever the mask is clear. *)
Definition row_rel64 (mask : list bool) (r' r : list float64) : Prop :=
  List.length r' = List.length r /\
  forall k, nth k mask false = false -> nth k r' nan = nth k r nan.

(** Three replicates over two states with infinite errors; state 1 has a
    zero standard error in replicate 0. *)
Definition with_infinities64 : list replicate64 :=
  [ mkrep64 [infinity; 3] [1; 0];
    mkrep64 [-2; 1] [5; 7];
    mkrep64 [neg_infinity; 2] [1; 1] ].

(** Two replicates over two states; state 1 has a zero standard error in
    replicate 0. *)
Definition two_states64 : list replicate64 :=
  [ mkrep64 [tenth64; 1] [three_tenths64; 0];
    mkrep64 [1; 5] [1; 1] ].

End Binary64Vocabulary.

(** * Properties *)

(** Rational arithmetic stays folded under [simpl]. *)
#[local] Arguments Qred : simpl never.
#[local] Arguments Qplus : simpl never.
#[local] Arguments Qminus : simpl never.
#[local] Arguments Qmult : simpl never.
#[local] Arguments Qdiv : simpl never.
#[local] Arguments Qabs : simpl never.
#[local] Arguments Qeq_bool : simpl never.
#[local] Arguments Qle_bool : simpl never.
#[local] Arguments inject_Z : simpl never.

(** ** Lists, loops and arrays *)

Lemma shape_eqb_eq (s t : list nat) : shape_eqb s t = true <-> s = t.
Proof.
  revert t. induction s as [|a s IH]; intros [|b t]; simpl; split; intro H;
    try reflexivity; try discriminate.
  - apply andb_true_iff in H. destruct H as [Hab Hst].
    apply Nat.eqb_eq in Hab. apply IH in Hst. congruence.
  - injection H as -> ->. rewrite Nat.eqb_refl. simpl. now apply IH.
Qed.

Lemma map2_length {A B C : Type} (f : A -> B -> C) (l : list A) (m : list B) :
  List.length (map2 f l m) = Nat.min (List.length l) (List.length m).
Proof.
  revert m. induction l as [|a l IH]; intros [|b m]; simpl; auto.
Qed.

Lemma nth_map2 {A B C : Type} (f : A -> B -> C) (l : list A) (m : list B)
    (k : nat) (dc : C) (da : A) (db : B) :
  (k < List.length l)%nat -> (k < List.length m)%nat ->
  nth k (map2 f l m) dc = f (nth k l da) (nth k m db).
Proof.
  revert m k. induction l as [|a l IH]; intros [|b m] [|k]; simpl; intros H1 H2;
    try lia; auto.
  apply IH; lia.
Qed.

Lemma set_nth_length {A : Type} (k : nat) (v : A) (l : list A) :
  List.length (set_nth k v l) = List.length l.
Proof.
  revert k. induction l as [|x l IH]; intros [|k]; simpl; auto.
Qed.

Lemma nth_set_nth_same {A : Type} (k : nat) (v d : A) (l : list A) :
  (k < List.length l)%nat -> nth k (set_nth k v l) d = v.
Proof.
  revert k. induction l as [|x l IH]; intros [|k]; simpl; intro H; try lia; auto.
  apply IH. lia.
Qed.

Lemma nth_set_nth_other {A : Type} (k k' : nat) (v d : A) (l : list A) :
  k <> k' -> nth k' (set_nth k v l) d = nth k' l d.
Proof.
  revert k k'. induction l as [|x l IH]; intros [|k] [|k']; simpl; intro H;
    try congruence; auto.
Qed.

Lemma list_eq_nth {A : Type} (d : A) (l m : list A) :
  List.length l = List.length m ->
  (forall k, (k < List.length l)%nat -> nth k l d = nth k m d) ->
  l = m.
Proof.
  revert m. induction l as [|x l IH]; intros [|y m]; simpl; intros HL H;
    try discriminate; auto.
  f_equal.
  - apply (H 0%nat). lia.
  - apply IH; [lia|]. intros k Hk. apply (H (S k)). lia.
Qed.

(** An invariant carried through a loop that ends normally. *)
Lemma forM_invariant {A S : Type} (P : S -> Prop) (xs : list A)
    (body : S -> A -> result S) (acc r : S) :
  P acc ->
  (forall s x s', In x xs -> P s -> body s x = Ok s' -> P s') ->
  forM xs body acc = Ok r -> P r.
Proof.
  revert acc. induction xs as [|x xs IH]; simpl; intros acc H0 Hstep Hrun.
  - now injection Hrun as <-.
  - destruct (body acc x) as [acc'|e] eqn:E; [|discriminate].
    apply (IH acc'); [| |exact Hrun].
    + apply (Hstep acc x acc'); auto.
    + intros s x0 s' Hin. apply Hstep. now right.
Qed.

Lemma forM_lockstep {A S T : Type} (R : S -> T -> Prop) (xs : list A)
    (body : S -> A -> result S) (body' : T -> A -> result T) (acc : S) (acc' : T) :
  R acc acc' ->
  (forall s t x, In x xs -> R s t -> same_outcome R (body s x) (body' t x)) ->
  same_outcome R (forM xs body acc) (forM xs body' acc').
Proof.
  revert acc acc'. induction xs as [|x xs IH]; simpl; intros acc acc' H0 Hstep; auto.
  specialize (Hstep acc acc' x (or_introl eq_refl) H0) as Hx.
  unfold same_outcome in Hx.
  destruct (body acc x) as [s|e], (body' acc' x) as [t|e']; simpl; try contradiction;
    [|exact Hx].
  apply IH; [exact Hx|].
  intros s0 t0 x0 Hin. apply Hstep. now right.
Qed.

Lemma mapM_Ok_map {A B : Type} (f : A -> result B) (h : A -> B) (l : list A) :
  (forall a, In a l -> forall b, f a = Ok b -> b = h a) ->
  forall bs, mapM f l = Ok bs -> bs = map h l.
Proof.
  induction l as [|a l IH]; simpl; intros Hf bs H.
  - now injection H as <-.
  - destruct (f a) as [b|e] eqn:E; [|discriminate].
    destruct (mapM f l) as [bs'|e] eqn:E'; [|discriminate].
    injection H as <-. f_equal; auto.
Qed.

Lemma mapM_Ok_each {A B : Type} (f : A -> result B) (l : list A) (bs : list B) :
  mapM f l = Ok bs -> forall a, In a l -> exists b, f a = Ok b.
Proof.
  revert bs. induction l as [|a l IH]; simpl; intros bs H x Hx; [contradiction|].
  destruct (f a) as [b|e] eqn:E; [|discriminate].
  destruct (mapM f l) as [bs'|e] eqn:E'; [|discriminate].
  destruct Hx as [<-|Hx]; eauto.
Qed.

Lemma mapM_total {A B : Type} (f : A -> result B) (l : list A) :
  (forall a, In a l -> exists b, f a = Ok b) -> exists bs, mapM f l = Ok bs.
Proof.
  induction l as [|a l IH]; simpl; intro H; eauto.
  destruct (H a (or_introl eq_refl)) as [b ->].
  destruct IH as [bs ->]; eauto.
Qed.

Lemma np_zeros_ok (dims : list nat) : row_ok dims (np_zeros dims).
Proof. split; simpl; auto. apply repeat_length. Qed.

Lemma column_length (k : nat) (rows : list ndarray) :
  List.length (column k rows) = List.length rows.
Proof. apply length_map. Qed.

Lemma nth_column (k i : nat) (rows : list ndarray) (d : ndarray) :
  (i < List.length rows)%nat ->
  nth i (column k rows) NaN = nth k (data (nth i rows d)) NaN.
Proof.
  intro H. unfold column.
  rewrite (nth_indep _ NaN (nth k (data d) NaN)) by now rewrite length_map.
  now rewrite (map_nth (fun r => nth k (data r) NaN)).
Qed.

Lemma set_column_length (k : nat) (vals : list float) (rows : list ndarray) :
  List.length vals = List.length rows ->
  List.length (set_column k vals rows) = List.length rows.
Proof. intro H. unfold set_column. rewrite map2_length. lia. Qed.

Lemma set_column_ok (dims : list nat) (k : nat) (vals : list float) (rows : list ndarray) :
  Forall (row_ok dims) rows -> Forall (row_ok dims) (set_column k vals rows).
Proof.
  unfold set_column. intro H. revert vals.
  induction H as [|r rows [Hs Hl] _ IH]; intros [|v vals]; simpl; constructor; auto.
  split; simpl; auto. now rewrite set_nth_length.
Qed.

Lemma column_set_column_same (dims : list nat) (k : nat) (vals : list float)
    (rows : list ndarray) :
  Forall (row_ok dims) rows -> (k < size dims)%nat ->
  List.length vals = List.length rows ->
  column k (set_column k vals rows) = vals.
Proof.
  unfold column, set_column. intros H Hk. revert vals.
  induction H as [|r rows [Hs Hl] _ IH]; intros [|v vals]; simpl; intro HL;
    try discriminate; auto.
  f_equal.
  - apply nth_set_nth_same. lia.
  - apply IH. lia.
Qed.

Lemma column_set_column_other (k k' : nat) (vals : list float) (rows : list ndarray) :
  k <> k' -> List.length vals = List.length rows ->
  column k' (set_column k vals rows) = column k' rows.
Proof.
  unfold column, set_column. intro Hk. revert vals.
  induction rows as [|r rows IH]; intros [|v vals]; simpl; intro HL;
    try discriminate; auto.
  f_equal.
  - now apply nth_set_nth_other.
  - apply IH. lia.
Qed.

(** ** numpy.sort *)

Lemma np_sort_length (l : list float) : List.length (np_sort l) = List.length l.
Proof.
  unfold np_sort. symmetry. apply Permutation_length. apply FloatSort.Permuted_sort.
Qed.

Lemma np_sort_finite (l : list float) :
  Forall is_finite l -> Forall is_finite (np_sort l).
Proof.
  intro H. eapply Permutation_Forall; [|exact H].
  apply FloatSort.Permuted_sort.
Qed.

Lemma sorted_finite_ascending (l : list float) :
  Sorted (fun x y => is_true (FloatOrder.leb x y)) l -> Forall is_finite l -> ascending l.
Proof.
  intros HS HF. induction HS as [|x l HS IH Hd]; intros i Hi; simpl in Hi; [lia|].
  inversion HF as [|? ? Hx HF']; subst.
  destruct i as [|i].
  - destruct l as [|y l]; simpl in *; [lia|].
    inversion Hd as [|? ? Hxy]; subst.
    inversion HF' as [|? ? Hy _]; subst.
    destruct x, y; simpl in *; try discriminate; auto.
  - simpl. apply IH; auto. lia.
Qed.

Lemma np_sort_ascending (l : list float) :
  Forall is_finite l -> ascending (np_sort l).
Proof.
  intro H. apply sorted_finite_ascending.
  - apply FloatSort.Sorted_sort.
  - now apply np_sort_finite.
Qed.

Lemma zeros_ascending (n : nat) : ascending (repeat (Fin 0) n).
Proof.
  intros i Hi. rewrite repeat_length in Hi.
  rewrite !nth_repeat_lt by lia. reflexivity.
Qed.

(** ** OrderReplicates *)

Lemma sort_column_length (yiarray : list ndarray) (k : nat) (t : list ndarray) :
  List.length t = List.length yiarray ->
  List.length (sort_column yiarray k t) = List.length yiarray.
Proof.
  intro H. unfold sort_column. rewrite set_column_length; auto.
  now rewrite np_sort_length, column_length.
Qed.

(** Every column the loops of lines 48-56 write lies inside the slice. *)
Lemma sort_by_dims_invariant (P : list ndarray -> Prop) (dims : list nat) (K : nat)
    (yiarray z s : list ndarray) :
  P z ->
  (forall k t, (k < size dims)%nat -> P t -> P (sort_column yiarray k t)) ->
  sort_by_dims dims K yiarray z = Ok s -> P s.
Proof.
  intros H0 Hstep. unfold sort_by_dims.
  destruct dims as [|d0 [|d1 [|d2 dims]]].
  - intro H. injection H as <-. apply Hstep; simpl; auto.
  - apply (forM_invariant P); auto.
    intros t i t' _ Ht. destruct (i <? d0)%nat eqn:E; [|discriminate].
    intro H. injection H as <-. apply Hstep; auto.
    apply Nat.ltb_lt in E. simpl. lia.
  - apply (forM_invariant P); auto.
    intros t i t' _ Ht. apply (forM_invariant P); auto.
    intros u j u' _ Hu.
    destruct ((i <? d0)%nat && (j <? d1)%nat) eqn:E; [|discriminate].
    intro H. injection H as <-. apply Hstep; auto.
    apply andb_true_iff in E. destruct E as [Ei Ej].
    apply Nat.ltb_lt in Ei. apply Nat.ltb_lt in Ej. simpl. nia.
  - intro H. injection H as <-. exact H0.
Qed.

Lemma sort_by_dims_lockstep (R : list ndarray -> list ndarray -> Prop)
    (dims : list nat) (K : nat) (yiarray yiarray' z z' : list ndarray) :
  R z z' ->
  (forall k t t', (k < size dims)%nat -> R t t' ->
                  R (sort_column yiarray k t) (sort_column yiarray' k t')) ->
  same_outcome R (sort_by_dims dims K yiarray z) (sort_by_dims dims K yiarray' z').
Proof.
  intros H0 Hstep. unfold sort_by_dims.
  destruct dims as [|d0 [|d1 [|d2 dims]]].
  - simpl. apply Hstep; simpl; auto.
  - apply forM_lockstep; auto.
    intros t t' i _ Ht. destruct (i <? d0)%nat eqn:E; simpl; auto.
    apply Hstep; auto. apply Nat.ltb_lt in E. simpl. lia.
  - apply forM_lockstep; auto.
    intros t t' i _ Ht. apply forM_lockstep; auto.
    intros u u' j _ Hu.
    destruct ((i <? d0)%nat && (j <? d1)%nat) eqn:E; simpl; auto.
    apply Hstep; auto.
    apply andb_true_iff in E. destruct E as [Ei Ej].
    apply Nat.ltb_lt in Ei. apply Nat.ltb_lt in Ej. simpl. nia.
  - simpl. exact H0.
Qed.

Lemma mapM_normalized (sigma : ndarray) (replicates : list replicate) (yi : list ndarray) :
  mapM (fun r => azip fdiv (error r) sigma) replicates = Ok yi ->
  yi = map (normalized sigma) replicates /\
  Forall (fun r => shape (error r) = shape sigma) replicates.
Proof.
  intro H. split.
  - revert H. apply mapM_Ok_map. intros r _ b. unfold azip, normalized.
    destruct (shape_eqb _ _); [|discriminate]. now intro E; injection E as <-.
  - apply Forall_forall. intros r Hr.
    destruct (mapM_Ok_each _ _ _ H r Hr) as [b Hb]. unfold azip in Hb.
    destruct (shape_eqb _ _) eqn:E; [|discriminate]. now apply shape_eqb_eq.
Qed.

Lemma mapM_write_sigma {B : Type} (f : ndarray -> result B) (dims : list nat)
    (s : ndarray) (replicates : list replicate) :
  mapM (fun r => f (error r)) (write_sigma dims s replicates)
  = mapM (fun r => f (error r)) replicates.
Proof. destruct dims, replicates; reflexivity. Qed.

(** What a normal return of [OrderReplicates] went through. *)
Lemma OrderReplicates_Ok (g : globals) (replicates : list replicate) (K : nat)
    (st : list replicate) (s : list ndarray) :
  OrderReplicates g replicates K = (st, Ok s) ->
  exists r0 rest,
    replicates = r0 :: rest /\
    use_module g "np" "numpy" = Ok tt /\
    Forall (fun r => shape (error r) = shape (destimated r0)) replicates /\
    sort_by_dims (shape (destimated r0)) K
      (map (normalized (corrected_sigma r0)) replicates)
      (map (fun _ => np_zeros (shape (destimated r0))) replicates) = Ok s /\
    st = write_sigma (shape (destimated r0))
           (sub_mask (corrected_sigma r0) (zerosigma_of (destimated r0)))
           (write_sigma (shape (destimated r0)) (corrected_sigma r0) replicates).
Proof.
  unfold OrderReplicates.
  destruct (use_module g "np" "numpy") as [[]|e] eqn:Eg; [|intro H; discriminate].
  destruct replicates as [|r0 rest]; [intro H; discriminate|].
  cbv zeta. fold (corrected_sigma r0).
  rewrite (mapM_write_sigma (fun e => azip fdiv e (corrected_sigma r0))).
  destruct (mapM _ (r0 :: rest)) as [yi|e] eqn:Ey; [|intro H; discriminate].
  apply mapM_normalized in Ey. destruct Ey as [-> Hshape].
  rewrite map_map.
  rewrite (map_ext_in (fun x => np_zeros (shape (normalized (corrected_sigma r0) x)))
                      (fun _ => np_zeros (shape (destimated r0)))).
  2:{ intros r Hr. rewrite Forall_forall in Hshape.
      change (shape (normalized (corrected_sigma r0) r)) with (shape (error r)).
      now rewrite (Hshape r Hr). }
  destruct (sort_by_dims _ _ _ _) as [s'|e] eqn:Es; [|intro H; discriminate].
  intro H. injection H as <- <-.
  exists r0, rest. repeat split; auto.
Qed.

(** The slices of the result have the element shape, one per replicate. *)
Lemma OrderReplicates_rows (g : globals) (replicates : list replicate) (K : nat)
    (st : list replicate) (s : list ndarray) :
  OrderReplicates g replicates K = (st, Ok s) ->
  exists r0 rest,
    replicates = r0 :: rest /\
    Forall (row_ok (shape (destimated r0))) s /\
    List.length s = List.length replicates.
Proof.
  intro H. apply OrderReplicates_Ok in H.
  destruct H as (r0 & rest & -> & _ & _ & Hs & _).
  exists r0, rest. split; auto.
  set (yi := map (normalized (corrected_sigma r0)) (r0 :: rest)) in *.
  assert (Hyi : List.length yi = List.length (r0 :: rest)) by apply length_map.
  rewrite <- Hyi.
  revert Hs.
  apply (sort_by_dims_invariant
           (fun t => Forall (row_ok (shape (destimated r0))) t /\
                     List.length t = List.length yi)).
  - split.
    + apply Forall_forall. intros x Hx. apply in_map_iff in Hx.
      destruct Hx as (r & <- & _). apply np_zeros_ok.
    + now rewrite length_map.
  - intros k t _ [Ht Hl]. split.
    + now apply set_column_ok.
    + now apply sort_column_length.
Qed.

(** *** The unbound name *)

Lemma np_unbound : use_module module_globals "np" "numpy" = Err (NameError "np").
Proof. reflexivity. Qed.

(** *** Sortedness of the result *)

Lemma corrected_entry_nonzero (b : Q) :
  exists c, fadd (Fin b) (of_bool (feq (Fin b) (Fin 0))) = Fin c /\ Qeq_bool c 0 = false.
Proof.
  simpl. destruct (Qeq_bool b 0) eqn:E; simpl; eexists; split; try reflexivity.
  - apply Qeq_bool_iff in E.
    destruct (Qeq_bool (Qred (b + 1)) 0) eqn:E'; auto.
    apply Qeq_bool_iff in E'. rewrite Qred_correct, E in E'. discriminate.
  - destruct (Qeq_bool (Qred (b + 0)) 0) eqn:E'; auto.
    apply Qeq_bool_iff in E'. rewrite Qred_correct, Qplus_0_r in E'.
    apply Qeq_bool_iff in E'. congruence.
Qed.

Lemma corrected_sigma_length (r0 : replicate) :
  List.length (data (corrected_sigma r0)) = List.length (data (destimated r0)).
Proof.
  unfold corrected_sigma, add_mask, zerosigma_of. simpl.
  rewrite map2_length, length_map. lia.
Qed.

Lemma corrected_sigma_entry (r0 : replicate) (k : nat) :
  (k < List.length (data (destimated r0)))%nat ->
  nth k (data (corrected_sigma r0)) NaN
  = let x := nth k (data (destimated r0)) NaN in fadd x (of_bool (feq x (Fin 0))).
Proof.
  intro Hk. unfold corrected_sigma, add_mask, zerosigma_of. simpl.
  rewrite (nth_map2 _ _ _ _ NaN NaN false); auto.
  - f_equal. f_equal.
    rewrite (nth_indep _ false (feq NaN (Fin 0))) by now rewrite length_map.
    now rewrite (map_nth (fun x => feq x (Fin 0))).
  - now rewrite length_map.
Qed.

Lemma column_zeros {A : Type} (dims : list nat) (k : nat) (l : list A) :
  (k < size dims)%nat ->
  column k (map (fun _ => np_zeros dims) l) = repeat (Fin 0) (List.length l).
Proof.
  intro Hk. unfold column. rewrite map_map. induction l as [|x l IH]; simpl; auto.
  f_equal; auto. now apply nth_repeat_lt.
Qed.

(** C4: whatever the replicate list and [K], [OrderReplicates] under the
    names the module binds raises NameError for [np] before it reads or writes
    the replicates, and so does [AndersonDarling], which calls it first:
    neither returns a result, and the replicate store is left as it was. *)
Theorem np_is_unbound_in_module (numerics : Numerics) (replicates : list replicate) (K : nat) :
  OrderReplicates module_globals replicates K = (replicates, Err (NameError "np")) /\
  AndersonDarling module_globals replicates K = (replicates, Err (NameError "np")).
Proof.
  assert (H : OrderReplicates module_globals replicates K
              = (replicates, Err (NameError "np"))).
  { unfold OrderReplicates. now rewrite np_unbound. }
  split; [exact H|].
  unfold AndersonDarling.
  change (use_function module_globals "OrderReplicates") with (@Ok unit tt).
  now rewrite H.
Qed.

(** C7, as stated, fails on a NaN: with [np] bound, the two normalised errors
    [NaN] and [1] of one state come back as [1, NaN] (numpy sorts a NaN last),
    and [1 <= NaN] does not hold. *)
Lemma sorted_fails_on_nan :
  exists st s,
    OrderReplicates np_globals nan_error 1 = (st, Ok s) /\
    ~ sorted_along_replicates s.
Proof.
  exists nan_error, [vec [Fin 1]; vec [NaN]]. split.
  - vm_compute. reflexivity.
  - intro H. specialize (H 0%nat 0%nat (scalar NaN)). simpl in H.
    assert (E : false = true) by (apply H; lia). discriminate E.
Qed.

(** C7, amended: when no quotient [error / sigma] of line 45 is a NaN,
    whatever [OrderReplicates] returns is ascending along the replicate axis
    at every coordinate: [normalized[i] <= normalized[i+1]].  The condition
    bears on the quotients, not on the inputs: in binary64 a quotient of two
    numbers can be a NaN ([infinities_make_a_nan64] below). *)
Theorem OrderReplicates_sorted (g : globals) (replicates : list replicate) (K : nat)
    (st : list replicate) (s : list ndarray) :
  normalized_without_nan replicates ->
  OrderReplicates g replicates K = (st, Ok s) ->
  sorted_along_replicates s.
Proof.
  intros Hnan Hrun.
  apply OrderReplicates_Ok in Hrun.
  destruct Hrun as (r0 & rest & -> & _ & Hshape & Hs & _).
  cbn [normalized_without_nan] in Hnan.
  set (dims := shape (destimated r0)) in *.
  set (yi := map (normalized (corrected_sigma r0)) (r0 :: rest)) in *.
  assert (Hyi : List.length yi = List.length (r0 :: rest)) by apply length_map.
  assert (Hcol : forall k, (k < size dims)%nat -> Forall is_finite (column k yi)).
  { intros k Hk. unfold column, yi. rewrite map_map. apply Forall_forall.
    intros x Hx. apply in_map_iff in Hx. destruct Hx as (r & <- & Hr).
    now apply Hnan. }
  assert (Hinv : Forall (row_ok dims) s /\ List.length s = List.length yi /\
                 forall k, (k < size dims)%nat -> ascending (column k s)).
  { revert Hs.
    apply (sort_by_dims_invariant
             (fun t => Forall (row_ok dims) t /\ List.length t = List.length yi /\
                       forall k, (k < size dims)%nat -> ascending (column k t))).
    - repeat split.
      + apply Forall_forall. intros x Hx. apply in_map_iff in Hx.
        destruct Hx as (r & <- & _). apply np_zeros_ok.
      + now rewrite length_map.
      + intros k Hk. rewrite column_zeros by exact Hk. apply zeros_ascending.
    - intros k t Hk (Ht & Hl & Hasc). repeat split.
      + now apply set_column_ok.
      + now apply sort_column_length.
      + intros k' Hk'. unfold sort_column.
        assert (HL : List.length (np_sort (column k yi)) = List.length t)
          by now rewrite np_sort_length, column_length.
        destruct (Nat.eq_dec k k') as [<-|Hne].
        * rewrite (column_set_column_same dims); auto.
          apply np_sort_ascending. now apply Hcol.
        * rewrite column_set_column_other; auto. }
  destruct Hinv as (Hrows & Hlen & Hasc).
  intros i k d Hi Hk.
  assert (Hrow : row_ok dims (nth i s d)).
  { rewrite Forall_forall in Hrows. apply Hrows. apply nth_In. lia. }
  destruct Hrow as [Hsh _]. rewrite Hsh in Hk.
  specialize (Hasc k Hk i). rewrite column_length in Hasc. specialize (Hasc Hi).
  rewrite !(nth_column k _ s d) in Hasc by lia.
  exact Hasc.
Qed.

Lemma OrderReplicates_sorted_witness :
  normalized_without_nan three_by_two /\
  sorted_along_replicates
    [ vec [Fin (-3); Fin (-1)]; vec [Fin 1; Fin (1 # 2)]; vec [Fin 2; Fin 2] ].
Proof.
  assert (C : normalized_without_nan three_by_two).
  { intros r k Hr Hk. cbn in Hk.
    destruct k as [|[|k]]; [| |lia];
      (destruct Hr as [<-|[<-|[<-|[]]]]; reflexivity). }
  split; [exact C|].
  apply (OrderReplicates_sorted np_globals three_by_two 2 three_by_two); [exact C|].
  vm_compute. reflexivity.
Defined.

(** ** The zero-sigma mask *)

Lemma restore_entry (x : float) :
  feq (fsub (fadd x (of_bool (feq x (Fin 0)))) (of_bool (feq x (Fin 0)))) (Fin 0)
  = feq x (Fin 0).
Proof.
  destruct x as [|q]; simpl; auto.
  destruct (Qeq_bool q 0) eqn:E; simpl.
  - apply Qeq_bool_iff. rewrite !Qred_correct. apply Qeq_bool_iff in E. rewrite E. reflexivity.
  - destruct (Qeq_bool (Qred (Qred (q + 0) - 0)) 0) eqn:E'; auto.
    apply Qeq_bool_iff in E'. rewrite !Qred_correct in E'.
    assert (Hq : q == 0) by (rewrite <- E'; ring).
    apply Qeq_bool_iff in Hq. congruence.
Qed.

Lemma restore_zerosigma (r0 : replicate) :
  zerosigma_of (sub_mask (corrected_sigma r0) (zerosigma_of (destimated r0)))
  = zerosigma_of (destimated r0).
Proof.
  unfold zerosigma_of, sub_mask, corrected_sigma, add_mask, zerosigma_of. simpl.
  induction (data (destimated r0)) as [|x l IH]; simpl; auto.
  f_equal; auto. apply restore_entry.
Qed.

Lemma nth_map2_congr {A B C : Type} (f : A -> B -> C) (l l' : list A) (m m' : list B)
    (k : nat) (da : A) (db : B) (dc : C) :
  List.length l' = List.length l -> List.length m' = List.length m ->
  nth k l' da = nth k l da -> nth k m' db = nth k m db ->
  nth k (map2 f l' m') dc = nth k (map2 f l m) dc.
Proof.
  intros Hl Hm El Em.
  destruct (Nat.lt_ge_cases k (Nat.min (List.length l) (List.length m))) as [H|H].
  - rewrite !(nth_map2 f _ _ k dc da db) by lia. congruence.
  - rewrite !nth_overflow by (rewrite map2_length; lia). reflexivity.
Qed.

Lemma nth_map_default {A B : Type} (f : A -> B) (l : list A) (k : nat) (da : A) (db : B) :
  (k < List.length l)%nat -> nth k (map f l) db = f (nth k l da).
Proof.
  intro H. rewrite (nth_indep _ db (f da)) by now rewrite length_map.
  apply map_nth.
Qed.

Lemma mask_assign_entry (a : ndarray) (m : list bool) (v : float) (k : nat) :
  (k < List.length (data a))%nat -> (k < List.length m)%nat ->
  nth k (data (mask_assign a m v)) NaN = if nth k m false then v else nth k (data a) NaN.
Proof.
  intros Ha Hm. unfold mask_assign. cbn [data].
  now rewrite (nth_map2 _ _ _ _ NaN NaN false).
Qed.

Lemma zerosigma_entry (a : ndarray) (k : nat) :
  (k < List.length (data a))%nat ->
  nth k (zerosigma_of a) false = feq (nth k (data a) NaN) (Fin 0).
Proof.
  intro H. unfold zerosigma_of.
  now apply (nth_map_default (fun x => feq x (Fin 0))).
Qed.

Section StatisticFacts.

Context {numerics : Numerics}.

Lemma OrderReplicates_result (g : globals) (replicates : list replicate) (K : nat) :
  snd (OrderReplicates g replicates K) =
  match use_module g "np" "numpy" with
  | Err e => Err e
  | Ok _ =>
      match replicates with
      | [] => Err IndexError
      | r0 :: _ =>
          match mapM (fun r => azip fdiv (error r) (corrected_sigma r0)) replicates with
          | Err e => Err e
          | Ok yi =>
              sort_by_dims (shape (destimated r0)) K yi
                (map (fun y => np_zeros (shape y)) yi)
          end
      end
  end.
Proof.
  unfold OrderReplicates.
  destruct (use_module g "np" "numpy") as [[]|e]; auto.
  destruct replicates as [|r0 rest]; auto.
  cbv zeta. fold (corrected_sigma r0).
  rewrite (mapM_write_sigma (fun e => azip fdiv e (corrected_sigma r0))).
  destruct (mapM _ (r0 :: rest)) as [yi|e]; auto.
  destruct (sort_by_dims _ _ _ _); auto.
Qed.

Lemma AndersonDarling_result (g : globals) (replicates : list replicate) (K : nat) :
  snd (AndersonDarling g replicates K) =
  match use_function g "OrderReplicates" with
  | Err e => Err e
  | Ok _ =>
      match snd (OrderReplicates g replicates K) with
      | Err e => Err e
      | Ok s =>
          match replicates with
          | [] => Err IndexError
          | r0 :: _ =>
              match use_module g "np" "numpy" with
              | Err e => Err e
              | Ok _ =>
                  ad_statistic g (List.length replicates) (shape (destimated r0))
                    (zerosigma_of (destimated r0)) s
              end
          end
      end
  end.
Proof.
  unfold AndersonDarling.
  destruct (use_function g "OrderReplicates") as [[]|e]; auto.
  destruct (OrderReplicates g replicates K) as [st [s|e]] eqn:E; auto.
  apply OrderReplicates_Ok in E.
  destruct E as (r0 & rest & -> & _ & _ & _ & ->).
  cbn [snd].
  destruct (shape (destimated r0)) as [|d0 dims] eqn:Hd; cbn [write_sigma set_destimated0].
  - destruct (use_module g "np" "numpy"); auto. now rewrite Hd.
  - cbn [destimated List.length]. rewrite restore_zerosigma.
    destruct (use_module g "np" "numpy"); auto.
    change (shape (sub_mask (corrected_sigma r0) (zerosigma_of (destimated r0))))
      with (shape (destimated r0)).
    now rewrite Hd.
Qed.

(** The accumulator of lines 96-98 keeps the element shape. *)
Lemma ad_statistic_Ok (g : globals) (N : nat) (dims : list nat) (mask : list bool)
    (s : list ndarray) (A2 : ndarray) :
  Forall (row_ok dims) s ->
  ad_statistic g N dims mask s = Ok A2 ->
  exists sum,
    row_ok dims sum /\
    A2 = mask_assign
           (amap (fun x => fsub (of_int (- Z.of_nat N)) (fdiv x (of_nat N))) sum)
           mask (Fin 0).
Proof.
  intros Hs. unfold ad_statistic, bind.
  destruct (forM _ _ _) as [sum|e] eqn:E; [|discriminate].
  intro H.
  assert (H' : A2 = mask_assign
                      (amap (fun x => fsub (of_int (- Z.of_nat N)) (fdiv x (of_nat N))) sum)
                      mask (Fin 0))
    by (destruct dims; [discriminate H|now injection H]).
  clear H. exists sum. split; auto.
  revert E. apply (forM_invariant (row_ok dims)).
  - apply np_zeros_ok.
  - intros acc i acc' _ [Hsh Hl].
    destruct (use_module g "scipy" "scipy"); [|discriminate].
    destruct (nth_error s i) as [row|] eqn:Er; [|discriminate].
    apply nth_error_In in Er. rewrite Forall_forall in Hs.
    destruct (Hs row Er) as [Rs Rl].
    unfold azip. cbn [shape amap].
    destruct (shape_eqb _ _); [|discriminate].
    intro H. injection H as <-. split; cbn [shape data]; auto.
    rewrite map2_length, length_map. lia.
Qed.

End StatisticFacts.

(** C10: whenever [AndersonDarling] returns, the statistic is exactly 0 at
    every coordinate [k] where replicate 0's [destimated] is 0, whatever the
    errors there. *)
Theorem zero_sigma_statistic_is_zero (numerics : Numerics) (g : globals)
    (r0 : replicate) (rest : list replicate) (K : nat)
    (st : list replicate) (A2 : ndarray) (k : nat) :
  AndersonDarling g (r0 :: rest) K = (st, Ok A2) ->
  (k < size (shape (destimated r0)))%nat ->
  feq (nth k (data (destimated r0)) NaN) (Fin 0) = true ->
  nth k (data A2) NaN = Fin 0.
Proof.
  intros Hrun Hk Hz.
  assert (Hres : snd (AndersonDarling g (r0 :: rest) K) = Ok A2) by now rewrite Hrun.
  rewrite AndersonDarling_result in Hres.
  destruct (use_function g "OrderReplicates"); [|discriminate].
  destruct (OrderReplicates g (r0 :: rest) K) as [st' [s|e]] eqn:E; [|discriminate].
  cbn [snd] in Hres.
  destruct (use_module g "np" "numpy"); [|discriminate].
  apply OrderReplicates_rows in E.
  destruct E as (r0' & rest' & Heq & Hrows & _). injection Heq as <- <-.
  apply ad_statistic_Ok in Hres; [|exact Hrows].
  destruct Hres as (sum & [_ Hl] & ->).
  assert (Hkd : (k < List.length (data (destimated r0)))%nat).
  { destruct (Nat.lt_ge_cases k (List.length (data (destimated r0)))) as [H|H]; auto.
    rewrite nth_overflow in Hz by exact H. discriminate. }
  rewrite mask_assign_entry.
  - rewrite zerosigma_entry by exact Hkd. now rewrite Hz.
  - cbn [data amap]. rewrite length_map. lia.
  - unfold zerosigma_of. now rewrite length_map.
Qed.

Lemma zero_sigma_statistic_is_zero_witness :
  AndersonDarling (numerics := rational_numerics) np_globals three_by_two 2
  = (three_by_two, Ok (vec [Fin 0; Fin (493 # 90)])) /\
  nth 0 (data (vec [Fin 0; Fin (493 # 90)])) NaN = Fin 0.
Proof.
  assert (H : AndersonDarling (numerics := rational_numerics) np_globals three_by_two 2
              = (three_by_two, Ok (vec [Fin 0; Fin (493 # 90)])))
    by (vm_compute; reflexivity).
  split; [exact H|].
  apply (zero_sigma_statistic_is_zero rational_numerics np_globals _ _ 2 _ _ 0 H).
  - simpl. lia.
  - reflexivity.
Defined.

(** ** Rescaling *)

Lemma row_rel_refl (mask : list bool) (r : ndarray) : row_rel mask r r.
Proof. repeat split. Qed.

Lemma rows_rel_length (mask : list bool) (s' s : list ndarray) :
  Forall2 (row_rel mask) s' s -> List.length s' = List.length s.
Proof. apply Forall2_length. Qed.

Lemma rows_rel_column (mask : list bool) (s' s : list ndarray) (k : nat) :
  Forall2 (row_rel mask) s' s -> nth k mask false = false -> column k s' = column k s.
Proof.
  intros H Hk. induction H as [|r' r s' s (_ & _ & Hr) _ IH]; simpl; auto.
  f_equal; auto.
Qed.

Lemma rows_rel_zeros (mask : list bool) (s' s : list ndarray) :
  Forall2 (row_rel mask) s' s ->
  map (fun y => np_zeros (shape y)) s' = map (fun y => np_zeros (shape y)) s.
Proof.
  intro H. induction H as [|r' r s' s (Hs & _) _ IH]; simpl; auto.
  now rewrite Hs, IH.
Qed.

Lemma rows_rel_nth_error (mask : list bool) (s' s : list ndarray) (i : nat) :
  Forall2 (row_rel mask) s' s ->
  match nth_error s' i, nth_error s i with
  | Some r', Some r => row_rel mask r' r
  | None, None => True
  | _, _ => False
  end.
Proof.
  intro H. revert i. induction H as [|r' r s' s Hr _ IH]; intros [|i]; simpl; auto.
  apply IH.
Qed.

Lemma set_column_rel (mask : list bool) (k : nat) (v' v : list float)
    (t' t : list ndarray) :
  Forall2 (row_rel mask) t' t ->
  List.length v' = List.length v ->
  (nth k mask false = false -> v' = v) ->
  Forall2 (row_rel mask) (set_column k v' t') (set_column k v t).
Proof.
  unfold set_column. intros H. revert v' v.
  induction H as [|r' r t' t (Hs & Hl & Hr) _ IH]; intros [|x' v'] [|x v] HL Hv;
    simpl in *; try discriminate; constructor.
  - repeat split; cbn [shape data]; auto.
    + now rewrite !set_nth_length.
    + intros k' Hk'. destruct (Nat.eq_dec k k') as [<-|Hne].
      * specialize (Hv Hk'). injection Hv as -> _.
        destruct (Nat.lt_ge_cases k (List.length (data r))) as [Hlt|Hge].
        -- rewrite !nth_set_nth_same by lia. reflexivity.
        -- rewrite !nth_overflow by (rewrite set_nth_length; lia). reflexivity.
      * rewrite !nth_set_nth_other by exact Hne. now apply Hr.
  - apply IH; [lia|]. intro Hk. specialize (Hv Hk). now injection Hv.
Qed.

Lemma sort_column_rel (mask : list bool) (k : nat) (yi' yi t' t : list ndarray) :
  Forall2 (row_rel mask) yi' yi ->
  Forall2 (row_rel mask) t' t ->
  Forall2 (row_rel mask) (sort_column yi' k t') (sort_column yi k t).
Proof.
  intros Hy Ht. unfold sort_column. apply set_column_rel; auto.
  - rewrite !np_sort_length, !column_length. now apply rows_rel_length in Hy.
  - intro Hk. now rewrite (rows_rel_column mask yi' yi k Hy Hk).
Qed.

Lemma rescaled_sigma_length (c : Q) (r0 : replicate) :
  List.length (data (corrected_sigma (rescale c r0)))
  = List.length (data (corrected_sigma r0)).
Proof.
  rewrite !corrected_sigma_length. cbn [rescale destimated amap data].
  apply length_map.
Qed.

(** Line 45 on the rescaled replicates: slices of the same shape. *)
Lemma normalized_rescale (c : Q) (r0 r : replicate) :
  (forall k, nth k (zerosigma_of (destimated r0)) false = false ->
     nth k (data (normalized (corrected_sigma (rescale c r0)) (rescale c r))) NaN
     = nth k (data (normalized (corrected_sigma r0) r)) NaN) ->
  row_rel (zerosigma_of (destimated r0))
    (normalized (corrected_sigma (rescale c r0)) (rescale c r))
    (normalized (corrected_sigma r0) r).
Proof.
  intro H. unfold row_rel. split; [reflexivity|]. split; [|exact H].
  unfold normalized. cbn [data].
  rewrite !map2_length, rescaled_sigma_length.
  cbn [rescale error amap data]. now rewrite length_map.
Qed.

Lemma mapM_rescale (c : Q) (r0 : replicate) (replicates : list replicate) :
  (forall r k, In r replicates ->
     nth k (zerosigma_of (destimated r0)) false = false ->
     nth k (data (normalized (corrected_sigma (rescale c r0)) (rescale c r))) NaN
     = nth k (data (normalized (corrected_sigma r0) r)) NaN) ->
  same_outcome (Forall2 (row_rel (zerosigma_of (destimated r0))))
    (mapM (fun r => azip fdiv (error r) (corrected_sigma (rescale c r0)))
          (map (rescale c) replicates))
    (mapM (fun r => azip fdiv (error r) (corrected_sigma r0)) replicates).
Proof.
  intro Hc. induction replicates as [|r rest IH]; [apply Forall2_nil|].
  cbn [map mapM].
  assert (E' : azip fdiv (error (rescale c r)) (corrected_sigma (rescale c r0))
               = if shape_eqb (shape (error r)) (shape (corrected_sigma r0))
                 then Ok (normalized (corrected_sigma (rescale c r0)) (rescale c r))
                 else Err ValueError) by reflexivity.
  assert (E : azip fdiv (error r) (corrected_sigma r0)
              = if shape_eqb (shape (error r)) (shape (corrected_sigma r0))
                then Ok (normalized (corrected_sigma r0) r)
                else Err ValueError) by reflexivity.
  rewrite E', E. clear E' E.
  destruct (shape_eqb (shape (error r)) (shape (corrected_sigma r0))); [|reflexivity].
  assert (IH' : same_outcome (Forall2 (row_rel (zerosigma_of (destimated r0))))
                  (mapM (fun r => azip fdiv (error r) (corrected_sigma (rescale c r0)))
                        (map (rescale c) rest))
                  (mapM (fun r => azip fdiv (error r) (corrected_sigma r0)) rest)).
  { apply IH. intros r' k Hr'. apply Hc. now right. }
  unfold same_outcome in IH' |- *.
  destruct (mapM _ (map (rescale c) rest)) as [yi'|e'],
           (mapM _ rest) as [yi|e]; try contradiction; auto.
  apply Forall2_cons; auto.
  apply normalized_rescale. intros k. apply Hc. now left.
Qed.

(** [OrderReplicates] on the rescaled replicates: the same exception, or the
    same columns wherever the mask is clear. *)
Lemma OrderReplicates_rescale (g : globals) (c : Q) (r0 : replicate)
    (rest : list replicate) (K : nat) :
  ratios_kept c (r0 :: rest) ->
  same_outcome (Forall2 (row_rel (zerosigma_of (destimated r0))))
    (snd (OrderReplicates g (map (rescale c) (r0 :: rest)) K))
    (snd (OrderReplicates g (r0 :: rest) K)).
Proof.
  intro Hc. rewrite !OrderReplicates_result.
  destruct (use_module g "np" "numpy") as [[]|e]; [|reflexivity].
  cbn [map].
  change (rescale c r0 :: map (rescale c) rest) with (map (rescale c) (r0 :: rest)).
  pose proof (mapM_rescale c r0 (r0 :: rest) Hc) as HM.
  unfold same_outcome in HM.
  destruct (mapM _ (map (rescale c) (r0 :: rest))) as [yi'|e'],
           (mapM _ (r0 :: rest)) as [yi|e]; try contradiction; [|exact HM].
  rewrite (rows_rel_zeros _ yi' yi HM).
  change (shape (destimated (rescale c r0))) with (shape (destimated r0)).
  apply sort_by_dims_lockstep.
  - clear. induction (map (fun y => np_zeros (shape y)) yi); constructor; auto.
    apply row_rel_refl.
  - intros k t' t _ Ht. now apply sort_column_rel.
Qed.

Section ScaleInvariance.

Context {numerics : Numerics}.

(** Lines 95-101 read a masked coordinate of the sample nowhere. *)
Lemma ad_statistic_rel (g : globals) (N : nat) (dims : list nat) (mask : list bool)
    (s' s : list ndarray) :
  Forall2 (row_rel mask) s' s ->
  ad_statistic g N dims mask s' = ad_statistic g N dims mask s.
Proof.
  intro Hs. unfold ad_statistic.
  match goal with
  | |- bind (forM ?xs ?b' ?z) ?k = bind (forM ?xs ?b ?z) ?k =>
      assert (HL : same_outcome (row_rel mask) (forM xs b' z) (forM xs b z))
  end.
  { apply forM_lockstep; [apply row_rel_refl|].
    intros acc' acc i _ (Hsh & Hl & Hv). unfold bind.
    destruct (use_module g "scipy" "scipy"); [|reflexivity].
    pose proof (rows_rel_nth_error mask s' s i Hs) as Hr.
    destruct (nth_error s' i) as [row'|], (nth_error s i) as [row|];
      try contradiction; [|reflexivity].
    destruct Hr as (Rs & Rl & Rv).
    unfold azip. cbn [shape amap data]. rewrite Hsh, Rs.
    destruct (shape_eqb (shape acc) (shape row)); [|reflexivity].
    simpl. repeat split; cbn [shape data]; auto.
    - rewrite !map2_length, !length_map. lia.
    - intros k Hk. apply (nth_map2_congr _ _ _ _ _ _ NaN NaN).
      + exact Hl.
      + now rewrite !length_map.
      + now apply Hv.
      + destruct (Nat.lt_ge_cases k (List.length (data row))) as [H|H].
        * rewrite !(nth_map_default (ad_term N i) _ k NaN NaN) by lia.
          f_equal. now apply Rv.
        * rewrite !nth_overflow by (rewrite length_map; lia). reflexivity. }
  unfold same_outcome in HL. unfold bind.
  destruct (forM _ _ _) as [sum'|e'], (forM _ _ _) as [sum|e];
    try contradiction; [|now rewrite HL].
  destruct HL as (Hsh & Hl & Hv).
  destruct dims as [|d0 dims]; [reflexivity|].
  f_equal. unfold mask_assign, amap. cbn [shape data]. rewrite Hsh. f_equal.
  apply (list_eq_nth NaN).
  - rewrite !map2_length, !length_map. lia.
  - intros k Hk. rewrite map2_length, length_map in Hk.
    rewrite !(nth_map2 _ _ _ k NaN NaN false) by (rewrite ?length_map; lia).
    destruct (nth k mask false) eqn:Em; auto.
    set (f := fun x : float => fsub (of_int (- Z.of_nat N)) (fdiv x (of_nat N))).
    rewrite !(nth_map_default f _ k NaN NaN) by lia.
    f_equal. now apply Hv.
Qed.

End ScaleInvariance.

(** C9, amended: [AndersonDarling] answers the same on the replicates
    rescaled by [c] ([error] and [destimated] both multiplied by [c]) as on
    the replicates themselves -- the same statistic at every coordinate, or
    the same exception -- whenever the rescaling keeps the zero mask of
    replicate 0 (line 39) and, where the mask is clear, the quotients
    [error / sigma] (line 45).  The two conditions bear on what the code
    computes: in binary64 a positive [c] can break either, as shown below
    on [AndersonDarling64]. *)
Theorem AndersonDarling_scale_invariant (numerics : Numerics) (g : globals) (c : Q)
    (replicates : list replicate) (K : nat) :
  mask_kept c replicates ->
  ratios_kept c replicates ->
  snd (AndersonDarling g (map (rescale c) replicates) K)
  = snd (AndersonDarling g replicates K).
Proof.
  intros Hmask Hratio.
  rewrite !AndersonDarling_result.
  destruct (use_function g "OrderReplicates"); [|reflexivity].
  destruct replicates as [|r0 rest].
  - reflexivity.
  - pose proof (OrderReplicates_rescale g c r0 rest K Hratio) as HO.
    unfold same_outcome in HO.
    destruct (snd (OrderReplicates g (map (rescale c) (r0 :: rest)) K)) as [s'|e'],
             (snd (OrderReplicates g (r0 :: rest) K)) as [s|e];
      try contradiction; [|now rewrite HO].
    cbn [map]. destruct (use_module g "np" "numpy"); [|reflexivity].
    cbn [mask_kept] in Hmask. rewrite Hmask.
    change (shape (destimated (rescale c r0))) with (shape (destimated r0)).
    change (List.length (rescale c r0 :: map (rescale c) rest))
      with (S (List.length (map (rescale c) rest))).
    rewrite length_map.
    now apply ad_statistic_rel.
Qed.

Lemma AndersonDarling_scale_invariant_witness :
  mask_kept 3 three_by_two /\
  ratios_kept 3 three_by_two /\
  snd (AndersonDarling (numerics := rational_numerics) np_globals
         (map (rescale 3) three_by_two) 2)
  = Ok (vec [Fin 0; Fin (493 # 90)]).
Proof.
  assert (M : mask_kept 3 three_by_two) by reflexivity.
  assert (R : ratios_kept 3 three_by_two).
  { intros r k Hr Hk.
    destruct Hr as [<-|[<-|[<-|[]]]];
      (destruct k as [|[|k]]; [discriminate Hk|reflexivity|destruct k; reflexivity]). }
  split; [exact M|]. split; [exact R|].
  rewrite (AndersonDarling_scale_invariant rational_numerics np_globals 3 three_by_two 2 M R).
  vm_compute. reflexivity.
Defined.

(** ** Rescaling on binary64 *)

Section Binary64Facts.

Import Floats.
Local Open Scope float_scope.

(** The quotient of line 45 is rounded: 0.1 / 0.3 and (3 * 0.1) / (3 * 0.3)
    differ in the last place. *)
Lemma rounding_changes_the_ratio64 :
  exists q q' : float64,
    OrderReplicates64 one_third64 1 = Ok ([three_tenths64], [[q]]) /\
    OrderReplicates64 (map (rescale64 3) one_third64) 1 = Ok ([3 * three_tenths64], [[q']]) /\
    (q <? q') = true.
Proof.
  exists (tenth64 / three_tenths64), ((3 * tenth64) / (3 * three_tenths64)).
  repeat split; vm_compute; reflexivity.
Qed.

(** The products [c * error] and [c * destimated] overflow: the quotient 1
    becomes inf / inf, a NaN. *)
Lemma overflow_changes_the_ratio64 :
  (0 <? huge64) = true /\
  OrderReplicates64 [mkrep64 [huge64] [huge64]] 1 = Ok ([huge64], [[1]]) /\
  OrderReplicates64 (map (rescale64 huge64) [mkrep64 [huge64] [huge64]]) 1
  = Ok ([infinity], [[nan]]).
Proof. repeat split; vm_compute; reflexivity. Qed.

(** Two inputs that are no NaN give a NaN quotient: inf / inf.  The column
    [NaN, 0] is sorted to [0, NaN], and [0 <= NaN] is false. *)
Lemma infinities_make_a_nan64 :
  is_nan infinity = false /\
  OrderReplicates64 infinite64 1 = Ok ([infinity], [[0]; [nan]]) /\
  (0 <=? nan) = false.
Proof. repeat split; vm_compute; reflexivity. Qed.

(** C9, as stated, fails on binary64.  With one replicate over one state,
    error 0 and [destimated = 2^-600], and the positive [c = 2^-600], the
    product [c * destimated] underflows to 0: the rescaled state is masked and
    its statistic is 0 whatever the library functions are, while the statistic
    of the replicate itself is [-1 - S] for the sum [S] of lines 96-98 at the
    normalised error 0, which is [2 log 2 - 1], about 0.386, for the normal
    distribution and the natural logarithm (and 1 for [coarse64]). *)
Lemma scaling_changes_the_statistic64 :
  (0 <? tiny64) = true /\
  (forall numerics64 : Numerics64,
     AndersonDarling64 (map (rescale64 tiny64) one_state64) 1 = Ok [0] /\
     AndersonDarling64 one_state64 1 = Ok [-1 - (0 + ad_term64 1 0 0) / 1]) /\
  AndersonDarling64 (numerics64 := coarse64) one_state64 1 = Ok [1] /\
  AndersonDarling64 (numerics64 := coarse64) (map (rescale64 tiny64) one_state64) 1
  <> AndersonDarling64 (numerics64 := coarse64) one_state64 1.
Proof.
  split; [reflexivity|]. split; [|split].
  - intro numerics64. split; vm_compute; reflexivity.
  - vm_compute. reflexivity.
  - intro H.
    apply (f_equal (fun r => match r with
                             | Ok [x] => x =? 0
                             | _ => false
                             end)) in H.
    vm_compute in H. discriminate H.
Qed.

End Binary64Facts.

(** ** The weights of the Anderson-Darling sum *)

Section Classical.

Context {numerics : Numerics}.

Lemma AndersonDarling_two_by_one :
  snd (AndersonDarling np_globals two_by_one 1)
  = Ok (vec [ fsub (of_int (-2))
                (fdiv (fadd (fadd (Fin 0) (ad_term 2 0 (Fin 1))) (ad_term 2 1 (Fin 2)))
                      (of_nat 2)) ]).
Proof. vm_compute. reflexivity. Qed.

End Classical.

(** C1: on the two normalised errors 1 and 2, [AndersonDarling] (with [np]
    bound) weighs [log cdf] by -1 and 1 and [log (1 - cdf)] by 5 and 3, the
    loop index counted from 0; the statistic of the specification weighs
    them by 1 and 3, and by 3 and 1.  The two differ as soon as
    [log (1 - cdf y) < log (cdf y)] at [y = 1] and [y = 2], which holds for
    the normal distribution. *)
Theorem AndersonDarling_rank_from_zero (numerics : Numerics) (l1 m1 l2 m2 : Q) :
  np_log (norm_cdf (Fin 1)) = Fin l1 ->
  np_log (fsub (Fin 1) (norm_cdf (Fin 1))) = Fin m1 ->
  np_log (norm_cdf (Fin 2)) = Fin l2 ->
  np_log (fsub (Fin 1) (norm_cdf (Fin 2))) = Fin m2 ->
  m1 < l1 -> m2 < l2 ->
  exists code classical : Q,
    snd (AndersonDarling np_globals two_by_one 1) = Ok (vec [Fin code]) /\
    classical_A2 [Fin 1; Fin 2] = Fin classical /\
    code == -(2) - ((-1) * l1 + 5 * m1 + 1 * l2 + 3 * m2) / 2 /\
    classical == -(2) - (1 * l1 + 3 * m1 + 3 * l2 + 1 * m2) / 2 /\
    classical < code.
Proof.
  intros L1 M1 L2 M2 H1 H2.
  rewrite AndersonDarling_two_by_one.
  unfold classical_A2, ad_term, classical_term. cbn [List.length enumerate seq combine fold_left fst snd].
  rewrite L1, M1, L2, M2.
  eexists. eexists. split; [reflexivity|]. split; [reflexivity|].
  change (weight_cdf 0) with (-1)%Z. change (weight_sf 2 0) with 5%Z.
  change (weight_cdf 1) with 1%Z. change (weight_sf 2 1) with 3%Z.
  unfold of_nat, of_int, inject_Z. simpl Z.of_nat. simpl Z.opp.
  simpl Z.mul. simpl Z.sub. simpl Z.add.
  rewrite !Qred_correct.
  split; [field|]. split; [field|].
  unfold Qdiv. change (/ 2) with (1 # 2). lra.
Qed.

Lemma AndersonDarling_rank_from_zero_witness :
  exists code classical : Q,
    snd (AndersonDarling (numerics := rational_numerics) np_globals two_by_one 1)
    = Ok (vec [Fin code]) /\
    classical_A2 (numerics := rational_numerics) [Fin 1; Fin 2] = Fin classical /\
    code == -(2) - ((-1) * (-1 # 3) + 5 * (-3) + 1 * (-1 # 5) + 3 * (-5)) / 2 /\
    classical == -(2) - (1 * (-1 # 3) + 3 * (-3) + 3 * (-1 # 5) + 1 * (-5)) / 2 /\
    classical < code.
Proof.
  apply (AndersonDarling_rank_from_zero rational_numerics (-1 # 3) (-3) (-1 # 5) (-5));
    reflexivity.
Defined.

(** ** The output monad *)

Lemma snd_iobind {A B : Type} (m : io A) (f : A -> io B) :
  snd (iobind m f) = match snd m with
                     | Ok a => snd (f a)
                     | Err e => Err e
                     end.
Proof. destruct m as [o [a|e]]; simpl; auto. now destruct (f a). Qed.

Lemma iobind_Ok {A B : Type} (m : io A) (f : A -> io B) (out : list event) (b : B) :
  iobind m f = (out, Ok b) ->
  exists o1 a o2, m = (o1, Ok a) /\ f a = (o2, Ok b) /\ out = o1 ++ o2.
Proof.
  destruct m as [o1 [a|e]]; simpl; [|discriminate].
  destruct (f a) as [o2 r] eqn:E. intro H. injection H as <- ->.
  exists o1, a, o2. auto.
Qed.

Lemma iobind_ret_l {A B : Type} (a : A) (f : A -> io B) : iobind (ret a) f = f a.
Proof. unfold ret, iobind. now destruct (f a). Qed.

Lemma iobind_assoc {A B C : Type} (m : io A) (f : A -> io B) (h : B -> io C) :
  iobind (iobind m f) h = iobind m (fun a => iobind (f a) h).
Proof.
  destruct m as [o1 [a|e]]; simpl; auto.
  destruct (f a) as [o2 [b|e]]; simpl; auto.
  destruct (h b) as [o3 r]. now rewrite app_assoc.
Qed.

Lemma iobind_ext {A B : Type} (m : io A) (f h : A -> io B) :
  (forall a, f a = h a) -> iobind m f = iobind m h.
Proof. intro H. destruct m as [o [a|e]]; simpl; auto. now rewrite H. Qed.

Lemma for_io_app {A S : Type} (xs ys : list A) (body : S -> A -> io S) (acc : S) :
  for_io (xs ++ ys) body acc = iobind (for_io xs body acc) (for_io ys body).
Proof.
  revert acc. induction xs as [|x xs IH]; intro acc.
  - symmetry. apply (iobind_ret_l acc (for_io ys body)).
  - cbn [app for_io]. rewrite iobind_assoc. apply iobind_ext. intro a. apply IH.
Qed.

Lemma for_io_map {A B S : Type} (h : A -> B) (xs : list A) (body : S -> B -> io S) (acc : S) :
  for_io (map h xs) body acc = for_io xs (fun s x => body s (h x)) acc.
Proof.
  revert acc. induction xs as [|x xs IH]; intro acc; cbn [map for_io]; auto.
  apply iobind_ext. intro a. apply IH.
Qed.

Lemma for_io_flat_map {A B S : Type} (h : A -> list B) (xs : list A)
    (body : S -> B -> io S) (acc : S) :
  for_io (flat_map h xs) body acc = for_io xs (fun s x => for_io (h x) body s) acc.
Proof.
  revert acc. induction xs as [|x xs IH]; intro acc; cbn [flat_map for_io]; auto.
  rewrite for_io_app. apply iobind_ext. intro a. apply IH.
Qed.

Lemma for_io_ext {A S : Type} (xs : list A) (body body' : S -> A -> io S) (acc : S) :
  (forall s x, In x xs -> body s x = body' s x) ->
  for_io xs body acc = for_io xs body' acc.
Proof.
  revert acc. induction xs as [|x xs IH]; intros acc H; cbn [for_io]; auto.
  rewrite H by now left. apply iobind_ext. intro a. apply IH.
  intros s y Hy. apply H. now right.
Qed.

Lemma print_all_run (es : list event) : print_all es = (es, Ok tt).
Proof.
  induction es as [|e es IH]; cbn [print_all]; auto.
  rewrite IH. reflexivity.
Qed.

Lemma for_io_both_ok {A S T : Type} (R : S -> T -> Prop) (xs : list A)
    (body : S -> A -> io S) (body' : T -> A -> io T) (acc : S) (acc' : T) :
  R acc acc' ->
  (forall s t x, In x xs -> R s t -> both_ok R (body s x) (body' t x)) ->
  both_ok R (for_io xs body acc) (for_io xs body' acc').
Proof.
  revert acc acc'. induction xs as [|x xs IH]; intros acc acc' H0 Hstep.
  - exact H0.
  - unfold both_ok. cbn [for_io]. rewrite !snd_iobind.
    specialize (Hstep acc acc' x (or_introl eq_refl) H0) as Hx.
    unfold both_ok in Hx.
    destruct (snd (body acc x)) as [s|e]; [|exact I].
    destruct (snd (body' acc' x)) as [t|e']; [|now destruct (snd (for_io xs body s))].
    apply IH; auto.
    intros s0 t0 x0 Hin. apply Hstep. now right.
Qed.

Lemma map_io_Ok {A B : Type} (f : A -> io B) (xs : list A) (out : list event)
    (bs : list B) :
  map_io f xs = (out, Ok bs) ->
  List.length bs = List.length xs /\
  forall i da db, (i < List.length xs)%nat ->
    snd (f (nth i xs da)) = Ok (nth i bs db).
Proof.
  revert out bs. induction xs as [|x xs IH]; cbn [map_io List.length]; intros out bs H.
  - injection H as <- <-. split; auto. intros i da db Hi. lia.
  - apply iobind_Ok in H. destruct H as (o1 & b & o2 & Hx & H & _).
    apply iobind_Ok in H. destruct H as (o3 & bs' & o4 & Hxs & H & _).
    injection H as _ <-.
    destruct (IH _ _ Hxs) as [HL Hn]. split; simpl; auto.
    intros [|i] da db Hi.
    + now rewrite Hx.
    + apply Hn. lia.
Qed.

(** ** The coverage sweep *)

Lemma item0_In (a : ndarray) (x : float) : item0 a = Ok x -> In x (data a).
Proof.
  unfold item0. destruct (shape a); [|discriminate].
  destruct (data a) as [|y [|z l]]; try discriminate.
  intro H. injection H as ->. now left.
Qed.

Lemma item1_In (a : ndarray) (i : nat) (x : float) : item1 a i = Ok x -> In x (data a).
Proof.
  unfold item1. destruct (shape a) as [|n [|m s]]; try discriminate.
  destruct (i <? n)%nat; [|discriminate].
  destruct (nth_error (data a) i) eqn:E; [|discriminate].
  intro H. injection H as ->. eapply nth_error_In; eauto.
Qed.

Lemma item2_In (a : ndarray) (i j : nat) (x : float) :
  item2 a i j = Ok x -> In x (data a).
Proof.
  unfold item2. destruct (shape a) as [|n [|m [|p s]]]; try discriminate.
  destruct ((i <? n)%nat && (j <? m)%nat); [|discriminate].
  destruct (nth_error (data a) (i * m + j)) eqn:E; [|discriminate].
  intro H. injection H as ->. eapply nth_error_In; eauto.
Qed.

Section Sweep.

Context {numerics : Numerics}.

Lemma tally_monotone (qa qa' : Q) (e d : float) (ab ab' : float * float) :
  qa <= qa' -> nonneg d -> counts_rel ab ab' ->
  counts_rel (tally (Fin qa) e d ab) (tally (Fin qa') e d ab').
Proof.
  intros Hq (qd & -> & Hd) (a & b & a' & b' & -> & -> & Ha & Hb & Ha' & Hb' & Hle & Hsum).
  unfold tally.
  assert (Hpass : fle (fabs e) (fmul (Fin qa) (Fin qd)) = true ->
                  fle (fabs e) (fmul (Fin qa') (Fin qd)) = true).
  { destruct e as [|qe]; simpl; [discriminate|].
    rewrite !Qle_bool_iff, !Qred_correct. intro H.
    apply (Qle_trans _ (qa * qd)); auto.
    now apply Qmult_le_compat_r. }
  destruct (fle (fabs e) (fmul (Fin qa) (Fin qd))) eqn:E.
  - rewrite (Hpass eq_refl). simpl.
    exists (Qred (a + 1)), b, (Qred (a' + 1)), b'.
    repeat split; rewrite ?Qred_correct; auto; try lra.
  - destruct (fle (fabs e) (fmul (Fin qa') (Fin qd))); simpl.
    + exists a, (Qred (b + 1)), (Qred (a' + 1)), b'.
      repeat split; rewrite ?Qred_correct; auto; try lra.
    + exists a, (Qred (b + 1)), a', (Qred (b' + 1)).
      repeat split; rewrite ?Qred_correct; auto; try lra.
Qed.

Lemma test_entry_monotone (error_label destimated_label : string) (replicate_index : nat)
    (replicate : replicate) (qa qa' : Q) (e d : result float) (ab ab' : float * float) :
  qa <= qa' ->
  (forall dv, d = Ok dv -> nonneg dv) ->
  counts_rel ab ab' ->
  both_ok counts_rel
    (test_entry error_label destimated_label replicate_index replicate (Fin qa) e d ab)
    (test_entry error_label destimated_label replicate_index replicate (Fin qa') e d ab').
Proof.
  intros Hq Hd Hab. unfold both_ok, test_entry.
  destruct e as [ev|err]; [|exact I].
  cbn [lift]. rewrite !iobind_ret_l || idtac.
  change (lift (Ok ev)) with (ret ev). rewrite !iobind_ret_l.
  destruct (isnan ev); [exact I|].
  destruct d as [dv|err]; [|exact I].
  change (lift (Ok dv)) with (ret dv). rewrite !iobind_ret_l.
  destruct (isnan dv); [exact I|].
  cbn [ret snd]. apply tally_monotone; auto.
Qed.

Lemma sweep_replicate_monotone (dim K : nat) (qa qa' : Q) (ab ab' : float * float)
    (ir : nat * replicate) :
  qa <= qa' ->
  Forall nonneg (data (destimated (snd ir))) ->
  counts_rel ab ab' ->
  both_ok counts_rel
    (sweep_replicate dim K (Fin qa) ab ir) (sweep_replicate dim K (Fin qa') ab' ir).
Proof.
  intros Hq Hd Hab. destruct ir as [idx r]. cbn [snd] in Hd.
  rewrite Forall_forall in Hd.
  unfold sweep_replicate.
  destruct dim as [|[|[|dim]]].
  - apply test_entry_monotone; auto.
    intros dv Hdv. apply Hd. now apply item0_In.
  - apply for_io_both_ok; auto. intros s t i _ Hst.
    apply test_entry_monotone; auto.
    intros dv Hdv. apply Hd. eapply item1_In; eauto.
  - apply for_io_both_ok; auto. intros s t i _ Hst.
    apply for_io_both_ok; auto. intros u v j _ Huv.
    apply test_entry_monotone; auto.
    intros dv Hdv. apply Hd. eapply item2_In; eauto.
  - exact Hab.
Qed.

Lemma count_alpha_monotone (dim K : nat) (replicates : list replicate) (qa qa' : Q) :
  qa <= qa' ->
  destimated_nonneg replicates ->
  both_ok counts_rel
    (count_alpha dim K replicates (Fin qa)) (count_alpha dim K replicates (Fin qa')).
Proof.
  intros Hq Hd. unfold count_alpha. apply for_io_both_ok.
  - exists 1, 1, 1, 1. repeat split; try reflexivity. apply Qle_refl.
  - intros s t ir Hin Hst. apply sweep_replicate_monotone; auto.
    unfold destimated_nonneg in Hd. rewrite Forall_forall in Hd. apply Hd.
    destruct ir as [idx r]. unfold enumerate in Hin.
    apply in_combine_r in Hin. exact Hin.
Qed.

(** [Pobs] is monotone in the counts. *)
Lemma Pobs_monotone (ab ab' : float * float) :
  counts_rel ab ab' ->
  fle (fdiv (fst ab) (fadd (fst ab) (snd ab)))
      (fdiv (fst ab') (fadd (fst ab') (snd ab'))) = true.
Proof.
  intros (a & b & a' & b' & -> & -> & Ha & Hb & Ha' & Hb' & Hle & Hsum).
  cbn [fst snd fadd lift2 fdiv].
  assert (E : Qeq_bool (Qred (a + b)) 0 = false).
  { destruct (Qeq_bool (Qred (a + b)) 0) eqn:E; auto.
    apply Qeq_bool_iff in E. rewrite Qred_correct in E. lra. }
  assert (E' : Qeq_bool (Qred (a' + b')) 0 = false).
  { destruct (Qeq_bool (Qred (a' + b')) 0) eqn:E'; auto.
    apply Qeq_bool_iff in E'. rewrite Qred_correct in E'. lra. }
  rewrite E, E'. cbn [fle]. apply Qle_bool_iff. rewrite !Qred_correct.
  rewrite <- Hsum. unfold Qdiv. apply Qmult_le_compat_r; auto.
  apply Qlt_le_weak. apply Qinv_lt_0_compat. lra.
Qed.

Lemma sweep_alpha_Pobs (g : globals) (dim K : nat) (replicates : list replicate)
    (alpha : float) (row : sweep_row) :
  snd (sweep_alpha g dim K replicates alpha) = Ok row ->
  exists ab, snd (count_alpha dim K replicates alpha) = Ok ab /\
             row_Pobs row = fdiv (fst ab) (fadd (fst ab) (snd ab)).
Proof.
  unfold sweep_alpha. rewrite snd_iobind.
  destruct (snd (count_alpha dim K replicates alpha)) as [[a b]|e]; [|discriminate].
  rewrite snd_iobind. cbn [lift snd].
  destruct (use_module g "scipy" "scipy"); [|discriminate].
  rewrite snd_iobind. cbn [lift snd].
  destruct (use_module g "numpy" "numpy"); [|discriminate].
  cbn [ret snd]. intro H. injection H as <-.
  exists (a, b). split; reflexivity.
Qed.

End Sweep.

(** ** The alpha grid *)

Lemma alpha_values_closed :
  alpha_values
  = map (fun i => Fin (Qred ((1 # 10) + Qred (inject_Z (Z.of_nat i) * (1 # 10)))))
        (seq 0 40).
Proof. vm_compute. reflexivity. Qed.

Lemma alpha_values_length : List.length alpha_values = 40%nat.
Proof. reflexivity. Qed.

Lemma alpha_ascending (m m' : nat) :
  (m <= m')%nat -> (m' < 40)%nat ->
  exists q q', nth m alpha_values NaN = Fin q /\ nth m' alpha_values NaN = Fin q' /\ q <= q'.
Proof.
  intros Hm Hm'. rewrite alpha_values_closed.
  set (f := fun i => Fin (Qred ((1 # 10) + Qred (inject_Z (Z.of_nat i) * (1 # 10))))).
  rewrite !(nth_map_default f _ _ 0%nat NaN) by (rewrite length_seq; lia).
  rewrite !seq_nth by lia. cbn [Nat.add]. unfold f.
  eexists. eexists. split; [reflexivity|]. split; [reflexivity|].
  rewrite !Qred_correct.
  assert (H : inject_Z (Z.of_nat m) <= inject_Z (Z.of_nat m')).
  { rewrite <- Zle_Qle. lia. }
  lra.
Qed.

(** ** generateConfidenceIntervals *)

Section CoverageFacts.

Context {numerics : Numerics}.

(** What a normal return of [generateConfidenceIntervals] went through. *)
Lemma generateConfidenceIntervals_Ok (g : globals) (replicates : list replicate) (K : nat)
    (out : list event) (returned : list ndarray) :
  generateConfidenceIntervals g replicates K = (out, Ok returned) ->
  exists r0 rest o rows s o_table o_summary,
    replicates = r0 :: rest /\
    map_io (sweep_alpha g (List.length (shape (estimated r0))) K replicates) alpha_values
    = (o, Ok rows) /\
    summary_statistics (List.length (shape (estimated r0))) K replicates = Ok s /\
    report_summary (List.length (shape (estimated r0))) K s = (o_summary, Ok tt) /\
    out = preamble ++ o ++ o_table ++ o_summary /\
    returned = returned_tuple rows.
Proof.
  unfold generateConfidenceIntervals. intro H.
  apply iobind_Ok in H. destruct H as (o1 & [] & o1' & H1 & H & ->).
  rewrite print_all_run in H1. injection H1 as <-.
  apply iobind_Ok in H. destruct H as (o2 & [] & o2' & H2 & H & ->).
  unfold lift in H2. injection H2 as <- _.
  apply iobind_Ok in H. destruct H as (o3 & dim & o3' & H3 & H & ->).
  destruct replicates as [|r0 rest]; [discriminate|].
  unfold ret in H3. injection H3 as <- <-.
  apply iobind_Ok in H. destruct H as (o4 & rows & o4' & H4 & H & ->).
  apply iobind_Ok in H. destruct H as (o5 & [] & o5' & H5 & H & ->).
  apply iobind_Ok in H. destruct H as (o6 & [] & o6' & H6 & H & ->).
  apply iobind_Ok in H. destruct H as (o7 & [] & o7' & H7 & H & ->).
  unfold lift in H7. injection H7 as <- _.
  apply iobind_Ok in H. destruct H as (o8 & [] & o8' & H8 & H & ->).
  apply iobind_Ok in H. destruct H as (o9 & s & o9' & H9 & H & ->).
  unfold lift in H9. injection H9 as <- H9.
  apply iobind_Ok in H. destruct H as (o10 & [] & o10' & H10 & H & ->).
  unfold ret in H. injection H as <- <-.
  exists r0, rest, o4, rows, s, (o5 ++ o6 ++ o8), o10.
  repeat split; auto.
  cbn [app]. rewrite app_nil_r. now rewrite <- !app_assoc.
Qed.

End CoverageFacts.

(** C8: when every [destimated] entry is a number [>= 0], the observed
    coverage that [generateConfidenceIntervals] returns (the second array of
    the tuple) does not decrease along the alpha grid. *)
Theorem Pobs_nondecreasing (numerics : Numerics) (g : globals)
    (replicates : list replicate) (K : nat) (out : list event) (ret : list ndarray) :
  destimated_nonneg replicates ->
  generateConfidenceIntervals g replicates K = (out, Ok ret) ->
  exists Pobs,
    nth_error ret 1 = Some Pobs /\
    List.length (data Pobs) = nalpha /\
    forall m m', (m < m')%nat -> (m' < nalpha)%nat ->
      fle (nth m (data Pobs) NaN) (nth m' (data Pobs) NaN) = true.
Proof.
  intros Hd Hrun.
  apply generateConfidenceIntervals_Ok in Hrun.
  destruct Hrun as (r0 & rest & o & rows & s & ot & os & -> & Hrows & _ & _ & _ & ->).
  set (dim := List.length (shape (estimated r0))) in *.
  apply map_io_Ok in Hrows. destruct Hrows as [HL Hrow].
  rewrite alpha_values_length in HL, Hrow.
  exists (vector (map row_Pobs rows)). split; [reflexivity|].
  split; [cbn [vector data]; now rewrite length_map|].
  unfold nalpha. intros m m' Hm Hm'. cbn [vector data].
  set (d := mkrow NaN NaN NaN NaN).
  rewrite !(nth_map_default row_Pobs _ _ d NaN) by lia.
  destruct (alpha_ascending m m') as (q & q' & Eq & Eq' & Hq); try lia.
  pose proof (Hrow m NaN d ltac:(lia)) as Rm.
  pose proof (Hrow m' NaN d Hm') as Rm'.
  rewrite Eq in Rm. rewrite Eq' in Rm'.
  apply sweep_alpha_Pobs in Rm. destruct Rm as (ab & Cm & ->).
  apply sweep_alpha_Pobs in Rm'. destruct Rm' as (ab' & Cm' & ->).
  apply Pobs_monotone.
  pose proof (count_alpha_monotone dim K (r0 :: rest) q q' Hq Hd) as HC.
  unfold both_ok in HC. now rewrite Cm, Cm' in HC.
Qed.

Lemma Pobs_nondecreasing_witness :
  destimated_nonneg scalar_three /\
  exists out ret Pobs,
    generateConfidenceIntervals (numerics := rational_numerics) module_globals scalar_three 0
    = (out, Ok ret) /\
    nth_error ret 1 = Some Pobs /\
    nth 19 (data Pobs) NaN = Fin (4 # 5) /\
    forall m m', (m < m')%nat -> (m' < nalpha)%nat ->
      fle (nth m (data Pobs) NaN) (nth m' (data Pobs) NaN) = true.
Proof.
  assert (Hd : destimated_nonneg scalar_three).
  { repeat constructor; exists 1; split; try reflexivity; discriminate. }
  split; [exact Hd|].
  destruct (generateConfidenceIntervals (numerics := rational_numerics)
              module_globals scalar_three 0) as [out [ret|e]] eqn:E.
  - destruct (Pobs_nondecreasing rational_numerics module_globals scalar_three 0 out ret Hd E)
      as (Pobs & H1 & _ & H3).
    exists out, ret, Pobs. repeat split; auto.
    vm_compute in E. injection E as _ <-. simpl in H1. injection H1 as <-. reflexivity.
  - exfalso. vm_compute in E. discriminate E.
Defined.

(** ** The summary arrays of a matrix quantity *)

(** C6: the loops of lines 304-308 run over the pairs [j < i] but each pass
    assigns the whole matrix, so with [K = 2] the summary arrays carry the
    replicate's values on the diagonal and above it as well, where the
    arrays of lines 288-290 had zeros. *)
Theorem summary_fills_whole_matrix (numerics : Numerics) :
  exists s,
    summary_statistics 2 2 one_pair_matrix = Ok s /\
    aveval s = mat [[Fin 1; Fin 2]; [Fin 3; Fin 4]] /\
    bias s = mat [[Fin 10; Fin 20]; [Fin 30; Fin 40]].
Proof.
  eexists. split; [vm_compute; reflexivity|].
  split; vm_compute; reflexivity.
Qed.

(** ** Dimensionality above 2 *)

Section HighDimension.

Context {numerics : Numerics}.

Lemma for_io_skip {A S : Type} (xs : list A) (body : S -> A -> io S) (acc : S) :
  (forall s x, body s x = ret s) -> for_io xs body acc = ret acc.
Proof.
  intro H. induction xs as [|x xs IH]; cbn [for_io]; auto.
  rewrite H, iobind_ret_l. exact IH.
Qed.

Lemma map_io_const {A B : Type} (f : A -> io B) (b : B) (xs : list A) :
  (forall x, f x = ret b) -> map_io f xs = ret (map (fun _ => b) xs).
Proof.
  intro H. induction xs as [|x xs IH]; cbn [map_io map]; auto.
  rewrite H, iobind_ret_l, IH, iobind_ret_l. reflexivity.
Qed.

Lemma forM_skip {A S : Type} (xs : list A) (body : S -> A -> result S) (acc : S) :
  (forall s x, body s x = Ok s) -> forM xs body acc = Ok acc.
Proof.
  intro H. revert acc. induction xs as [|x xs IH]; intro acc; cbn [forM]; auto.
  rewrite H. apply IH.
Qed.

Lemma sweep_alpha_untested (dim K : nat) (replicates : list replicate) (alpha : float) :
  (3 <= dim)%nat ->
  sweep_alpha module_globals dim K replicates alpha = ret untested_row.
Proof.
  intro Hdim. unfold sweep_alpha, count_alpha.
  rewrite for_io_skip.
  - reflexivity.
  - intros s [idx r]. unfold sweep_replicate.
    destruct dim as [|[|[|dim]]]; try lia. reflexivity.
Qed.

Lemma summary_statistics_unbound (dim K : nat) (replicates : list replicate) :
  (3 <= dim)%nat ->
  summary_statistics dim K replicates = Err (UnboundLocalError "vals").
Proof.
  intro Hdim. unfold summary_statistics.
  destruct dim as [|[|[|dim]]]; try lia. cbn [vals_shape].
  rewrite forM_skip; [reflexivity|].
  intros s [idx r]. reflexivity.
Qed.

Lemma iobind_run {A B : Type} (o : list event) (a : A) (f : A -> io B) :
  iobind (o, Ok a) f = (o ++ fst (f a), snd (f a)).
Proof. cbn [iobind]. now destruct (f a). Qed.

End HighDimension.

Lemma generateConfidenceIntervals_high_dimension (numerics : Numerics)
    (r0 : replicate) (rest : list replicate) (K : nat) :
  (3 <= List.length (shape (estimated r0)))%nat ->
  generateConfidenceIntervals module_globals (r0 :: rest) K
  = (untested_report, Err (UnboundLocalError "vals")).
Proof.
  intro Hdim. unfold generateConfidenceIntervals.
  rewrite print_all_run, iobind_run.
  change (lift (use_module module_globals "numpy" "numpy")) with (ret tt).
  change (lift (use_module module_globals "scipy" "scipy")) with (ret tt).
  rewrite !iobind_ret_l.
  rewrite (map_io_const _ untested_row)
    by (intro alpha; now apply sweep_alpha_untested).
  rewrite iobind_ret_l.
  rewrite print_all_run.
  rewrite summary_statistics_unbound by exact Hdim.
  cbn [print lift iobind fst snd app]. rewrite app_nil_r.
  reflexivity.
Qed.

(** C5, as stated, fails: on a 1 x 1 x 1 quantity the normalizer and the
    Anderson-Darling test, once [np] resolves, return a value; under the
    module's own names they stop on the unbound [np] as on any input; and
    the coverage analysis stops on the unbound local [vals], after the
    table was printed. *)
Lemma high_dimension_is_not_rejected :
  OrderReplicates np_globals one_cube 1 = (one_cube, Ok [np_zeros [1; 1; 1]%nat]) /\
  (exists A2, AndersonDarling (numerics := rational_numerics) np_globals one_cube 1
              = (one_cube, Ok A2)) /\
  OrderReplicates module_globals one_cube 1 = (one_cube, Err (NameError "np")) /\
  snd (generateConfidenceIntervals (numerics := rational_numerics)
         module_globals one_cube 1) = Err (UnboundLocalError "vals") /\
  In (PrintStr "Error vs. alpha")
     (fst (generateConfidenceIntervals (numerics := rational_numerics)
             module_globals one_cube 1)).
Proof.
  split; [vm_compute; reflexivity|].
  split; [eexists; vm_compute; reflexivity|].
  split; [vm_compute; reflexivity|].
  unfold one_cube.
  rewrite (generateConfidenceIntervals_high_dimension rational_numerics) by (simpl; lia).
  split; [reflexivity|].
  cbn [fst]. unfold untested_report. apply in_or_app. right. now left.
Qed.

(** C5, amended: on a replicate list whose quantity has more than two
    dimensions, [generateConfidenceIntervals] prints the preamble and the
    table of the sweep (no entry tested) and then stops on the unbound local
    [vals], returning nothing; [OrderReplicates] makes no check of the
    dimensionality: whenever it returns, it returns the array of zeros of
    line 47, no column sorted into it. *)
Theorem dimensionality_is_not_checked (numerics : Numerics)
    (r0 : replicate) (rest : list replicate) (K : nat) :
  (3 <= List.length (shape (estimated r0)))%nat ->
  (3 <= List.length (shape (destimated r0)))%nat ->
  generateConfidenceIntervals module_globals (r0 :: rest) K
  = (untested_report, Err (UnboundLocalError "vals")) /\
  forall g st s,
    OrderReplicates g (r0 :: rest) K = (st, Ok s) ->
    s = map (fun _ => np_zeros (shape (destimated r0))) (r0 :: rest).
Proof.
  intros He Hd. split.
  - now apply generateConfidenceIntervals_high_dimension.
  - intros g st s Hrun. apply OrderReplicates_Ok in Hrun.
    destruct Hrun as (r0' & rest' & Heq & _ & _ & Hs & _).
    injection Heq as <- <-.
    unfold sort_by_dims in Hs.
    destruct (shape (destimated r0)) as [|d0 [|d1 [|d2 dims]]]; simpl in Hd; try lia.
    now injection Hs as <-.
Qed.

Lemma dimensionality_is_not_checked_witness :
  generateConfidenceIntervals (numerics := rational_numerics) module_globals one_cube 1
  = (untested_report (numerics := rational_numerics), Err (UnboundLocalError "vals")) /\
  OrderReplicates np_globals one_cube 1 = (one_cube, Ok [np_zeros [1; 1; 1]%nat]).
Proof.
  destruct (dimensionality_is_not_checked rational_numerics
              (mkrep (cube (Fin 1)) (cube (Fin (1 # 2))) (cube (Fin 1))) [] 1)
    as [H1 H2]; [simpl; lia | simpl; lia |].
  fold one_cube in H1, H2.
  split; [exact H1|].
  assert (E : exists st s, OrderReplicates np_globals one_cube 1 = (st, Ok s) /\
                           st = one_cube)
    by (eexists; eexists; split; vm_compute; reflexivity).
  destruct E as (st & s & E & ->).
  rewrite E. now rewrite (H2 np_globals one_cube s E).
Defined.

(** ** The returned tuple *)

(** C2, as stated, fails: on the three scalar replicates the tuple returned
    has six components, none of which is a summary array. *)
Lemma summary_is_not_returned :
  exists out returned s,
    generateConfidenceIntervals (numerics := rational_numerics) module_globals scalar_three 0
    = (out, Ok returned) /\
    summary_statistics (numerics := rational_numerics) 0 0 scalar_three = Ok s /\
    List.length returned = 6%nat /\
    ~ In (aveval s) returned /\ ~ In (bias s) returned /\ ~ In (rms_error s) returned /\
    ~ In (standarddev s) returned /\ ~ In (ave_std s) returned /\
    ~ returns_summary returned s.
Proof.
  eexists. eexists. eexists.
  split; [vm_compute; reflexivity|].
  split; [vm_compute; reflexivity|].
  split; [reflexivity|].
  repeat split;
    try (intro Hin; vm_compute in Hin;
         repeat (destruct Hin as [Hin|Hin]; [discriminate Hin|]); exact Hin).
  intros [Hin _]. vm_compute in Hin.
  repeat (destruct Hin as [Hin|Hin]; [discriminate Hin|]). exact Hin.
Qed.

(** C2, amended: whenever [generateConfidenceIntervals] returns, it returns
    exactly six arrays of length 40: the alpha grid, the observed coverage,
    its lower and upper bound, its standard error and the normal-theory
    coverage.  The summary statistics are computed, and what is shown of
    them ends the printed output; they are not part of the value returned. *)
Theorem returns_six_arrays (numerics : Numerics) (g : globals)
    (replicates : list replicate) (K : nat) (out : list event) (returned : list ndarray) :
  generateConfidenceIntervals g replicates K = (out, Ok returned) ->
  exists r0 rest rows s front,
    replicates = r0 :: rest /\
    List.length rows = nalpha /\
    returned = returned_tuple rows /\
    Forall (fun a => shape a = [nalpha]) returned /\
    summary_statistics (List.length (shape (estimated r0))) K replicates = Ok s /\
    out = front ++ fst (report_summary (List.length (shape (estimated r0))) K s).
Proof.
  intro Hrun. apply generateConfidenceIntervals_Ok in Hrun.
  destruct Hrun as (r0 & rest & o & rows & s & ot & os & -> & Hrows & Hs & Hrep & -> & ->).
  apply map_io_Ok in Hrows. destruct Hrows as [HL _].
  rewrite alpha_values_length in HL.
  exists r0, rest, rows, s, (preamble ++ o ++ ot).
  repeat split; auto.
  - unfold returned_tuple, vector, Pnorm_values.
    repeat constructor; cbn [shape]; rewrite ?length_map, ?HL; reflexivity.
  - rewrite Hrep. cbn [fst]. now rewrite <- !app_assoc.
Qed.

Lemma returns_six_arrays_witness :
  exists out returned rows,
    generateConfidenceIntervals (numerics := rational_numerics) module_globals scalar_three 0
    = (out, Ok returned) /\
    returned = returned_tuple (numerics := rational_numerics) rows /\
    List.length returned = 6%nat.
Proof.
  destruct (generateConfidenceIntervals (numerics := rational_numerics)
              module_globals scalar_three 0) as [out [returned|e]] eqn:E.
  - destruct (returns_six_arrays rational_numerics module_globals scalar_three 0
                out returned E)
      as (r0 & rest & rows & s & front & _ & _ & Hret & _).
    exists out, returned, rows. repeat split; auto. now rewrite Hret.
  - exfalso. vm_compute in E. discriminate E.
Defined.

(** ** A NaN in the sweep *)

Section NaNFacts.

Context {numerics : Numerics}.

Lemma iobind_stop {A B : Type} (o : list event) (e : exn) (f : A -> io B) :
  iobind (o, Err e) f = (o, Err e).
Proof. reflexivity. Qed.

Lemma iobind_ret_r {A : Type} (m : io A) : iobind m ret = m.
Proof. destruct m as [o [a|e]]; cbn [iobind ret]; auto. now rewrite app_nil_r. Qed.

(** The nested loops of the sweep visit [visits] in order. *)
Lemma count_alpha_visits (dim K : nat) (replicates : list replicate) (alpha : float) :
  (dim <= 2)%nat ->
  count_alpha dim K replicates alpha
  = for_io (visits dim K replicates) (visit_body dim alpha) (Fin 1, Fin 1).
Proof.
  intro Hdim. unfold count_alpha, visits. rewrite for_io_flat_map.
  apply for_io_ext. intros s [idx r] _.
  rewrite for_io_map. cbn [fst snd]. unfold sweep_replicate, coordinates.
  destruct dim as [|[|[|dim]]]; try lia.
  - cbn [for_io]. rewrite iobind_ret_r. reflexivity.
  - rewrite for_io_map. reflexivity.
  - rewrite for_io_flat_map. apply for_io_ext. intros t i _.
    rewrite for_io_map. reflexivity.
Qed.

Lemma report_nan_run {A : Type} (dim replicate_index : nat) (replicate : replicate) :
  @report_nan A (error_label dim) (destimated_label dim) replicate_index replicate
  = (nan_report dim replicate_index replicate, Err (StrRaise "isnan")).
Proof. reflexivity. Qed.

Lemma visit_body_clean (dim : nat) (alpha : float) (ab : float * float) (v : visit) :
  classify v = Clean -> exists ab', visit_body dim alpha ab v = ret ab'.
Proof.
  destruct v as [[idx r] c]. unfold classify, visit_body, test_entry.
  destruct (entry (error r) c) as [e|err]; [|discriminate].
  destruct (isnan e) eqn:Ee; [discriminate|].
  destruct (entry (destimated r) c) as [d|err]; [|discriminate].
  destruct (isnan d) eqn:Ed; [discriminate|]. intros _.
  exists (tally alpha e d ab).
  change (lift (Ok e)) with (ret e). rewrite iobind_ret_l, Ee.
  change (lift (Ok d)) with (ret d). now rewrite iobind_ret_l, Ed.
Qed.

Lemma visit_body_offending (dim : nat) (alpha : float) (ab : float * float)
    (replicate_index : nat) (replicate : replicate) (c : list nat) :
  classify (replicate_index, replicate, c) = Offending ->
  visit_body dim alpha ab (replicate_index, replicate, c)
  = (nan_report dim replicate_index replicate, Err (StrRaise "isnan")).
Proof.
  unfold classify, visit_body, test_entry.
  destruct (entry (error replicate) c) as [e|err]; [|discriminate].
  change (lift (Ok e)) with (ret e). rewrite iobind_ret_l.
  destruct (isnan e); [intros _; apply report_nan_run|].
  destruct (entry (destimated replicate) c) as [d|err]; [|discriminate].
  change (lift (Ok d)) with (ret d). rewrite iobind_ret_l.
  destruct (isnan d); [intros _; apply report_nan_run|discriminate].
Qed.

Lemma for_io_first_offender (dim : nat) (alpha : float) (vs : list visit)
    (ab : float * float) (replicate_index : nat) (replicate : replicate) (c : list nat) :
  first_offender vs = Some (replicate_index, replicate, c) ->
  for_io vs (visit_body dim alpha) ab
  = (nan_report dim replicate_index replicate, Err (StrRaise "isnan")).
Proof.
  revert ab. induction vs as [|v vs IH]; intro ab; cbn [first_offender for_io];
    [discriminate|].
  destruct (classify v) eqn:E; [| |discriminate].
  - intro H. destruct (visit_body_clean dim alpha ab v E) as [ab' ->].
    rewrite iobind_ret_l. now apply IH.
  - intro H. injection H as ->.
    now rewrite (visit_body_offending dim alpha ab _ _ _ E).
Qed.

Lemma first_offender_dim (dim K : nat) (replicates : list replicate) (v : visit) :
  first_offender (visits dim K replicates) = Some v -> (dim <= 2)%nat.
Proof.
  intro H. destruct dim as [|[|[|dim]]]; try lia.
  assert (E : visits (S (S (S dim))) K replicates = []).
  { unfold visits, coordinates.
    induction (enumerate replicates) as [|ir l IH]; cbn [flat_map map app]; auto. }
  rewrite E in H. discriminate H.
Qed.

End NaNFacts.

(** C3, as stated, fails: a NaN error in state 0 of replicate 0 and a NaN
    error in state 1 of replicate 1 end [generateConfidenceIntervals] with
    one and the same exception, the bare string of the [raise]: it names
    neither the replicate nor the coordinate.  What is printed before it
    gives the replicate's index and its two arrays, not the coordinate. *)
Lemma isnan_names_no_coordinate :
  first_offender (visits 1 1 nan_error)
  = Some (0%nat, rep [Fin 1] [NaN] [Fin 1], [0%nat]) /\
  first_offender (visits 1 2 nan_second)
  = Some (1%nat, rep [Fin 1; Fin 1] [Fin 1; NaN] [Fin 1; Fin 1], [1%nat]) /\
  snd (generateConfidenceIntervals (numerics := rational_numerics)
         module_globals nan_error 1) = Err (StrRaise "isnan") /\
  snd (generateConfidenceIntervals (numerics := rational_numerics)
         module_globals nan_second 2) = Err (StrRaise "isnan") /\
  fst (generateConfidenceIntervals (numerics := rational_numerics)
         module_globals nan_second 2)
  = preamble ++
    [ PrintReplicate 1;
      PrintStr "error"; PrintArray (vec [Fin 1; NaN]);
      PrintStr "destimated"; PrintArray (vec [Fin 1; Fin 1]) ].
Proof. repeat split; vm_compute; reflexivity. Qed.

(** C3, amended: when the sweep meets a NaN among the entries it tests,
    [generateConfidenceIntervals] stops at the first one, in the first pass
    over the replicates: after the preamble it prints the index of the
    replicate and the whole [error] and [destimated] arrays of that replicate,
    raises the string "isnan" and returns no coverage result.  The
    coordinate is in neither the printed lines nor the exception. *)
Theorem nan_stops_the_sweep (numerics : Numerics) (r0 : replicate)
    (rest : list replicate) (K : nat)
    (replicate_index : nat) (replicate : replicate) (c : list nat) :
  first_offender (visits (List.length (shape (estimated r0))) K (r0 :: rest))
  = Some (replicate_index, replicate, c) ->
  generateConfidenceIntervals module_globals (r0 :: rest) K
  = (preamble ++ nan_report (List.length (shape (estimated r0))) replicate_index replicate,
     Err (StrRaise "isnan")).
Proof.
  intro H. pose proof (first_offender_dim _ _ _ _ H) as Hdim.
  set (dim := List.length (shape (estimated r0))) in *.
  assert (Hmap : map_io (sweep_alpha module_globals dim K (r0 :: rest)) alpha_values
                 = (nan_report dim replicate_index replicate, Err (StrRaise "isnan"))).
  { rewrite alpha_values_closed. cbn [seq map map_io].
    unfold sweep_alpha at 1.
    rewrite (count_alpha_visits dim K (r0 :: rest) _ Hdim).
    rewrite (for_io_first_offender dim _ _ _ _ _ _ H).
    rewrite !iobind_stop. reflexivity. }
  unfold generateConfidenceIntervals.
  rewrite print_all_run, iobind_run.
  change (lift (use_module module_globals "numpy" "numpy")) with (ret tt).
  rewrite !iobind_ret_l. fold dim.
  rewrite Hmap, !iobind_stop. reflexivity.
Qed.

Lemma nan_stops_the_sweep_witness :
  generateConfidenceIntervals (numerics := rational_numerics) module_globals nan_second 2
  = (preamble ++ nan_report 1 1 (rep [Fin 1; Fin 1] [Fin 1; NaN] [Fin 1; Fin 1]),
     Err (StrRaise "isnan")).
Proof.
  apply (nan_stops_the_sweep rational_numerics
           (rep [Fin 1; Fin 1] [Fin 1; Fin 1] [Fin 1; Fin 1])
           [rep [Fin 1; Fin 1] [Fin 1; NaN] [Fin 1; Fin 1]] 2 1 _ [1%nat]).
  vm_compute. reflexivity.
Defined.

(** ** Normal returns

    The properties above hold of whatever the functions return.  On the
    replicate sets of the data model they do return, once the names they use
    resolve. *)

Lemma forM_total {A S : Type} (P : S -> Prop) (xs : list A)
    (body : S -> A -> result S) (acc : S) :
  P acc ->
  (forall s x, In x xs -> P s -> exists s', body s x = Ok s' /\ P s') ->
  exists r, forM xs body acc = Ok r /\ P r.
Proof.
  revert acc. induction xs as [|x xs IH]; intros acc H0 Hstep; cbn [forM].
  - eauto.
  - destruct (Hstep acc x (or_introl eq_refl) H0) as (s' & -> & Hs').
    apply IH; auto. intros s y Hy. apply Hstep. now right.
Qed.

Lemma sort_by_dims_total (K : nat) (s : list nat) (yiarray z : list ndarray) :
  model_shape K s -> exists r, sort_by_dims s K yiarray z = Ok r.
Proof.
  intros [->|[->| ->]]; unfold sort_by_dims.
  - eauto.
  - destruct (forM_total (fun _ => True) (seq 0 K)
                (fun t i => if (i <? K)%nat then Ok (sort_column yiarray i t)
                            else Err IndexError) z I) as (r & Hr & _); eauto.
    intros t i Hi _. apply in_seq in Hi.
    destruct (Nat.ltb_spec i K); [eauto|lia].
  - destruct (forM_total (fun _ => True) (seq 0 K)
                (fun t i =>
                   forM (seq 0 K)
                     (fun u j => if ((i <? K)%nat && (j <? K)%nat)%bool
                                 then Ok (sort_column yiarray (i * K + j) u)
                                 else Err IndexError) t) z I) as (r & Hr & _); eauto.
    intros t i Hi _. apply in_seq in Hi.
    destruct (forM_total (fun _ => True) (seq 0 K)
                (fun u j => if ((i <? K)%nat && (j <? K)%nat)%bool
                            then Ok (sort_column yiarray (i * K + j) u)
                            else Err IndexError) t I) as (r & Hr & _); eauto.
    intros u j Hj _. apply in_seq in Hj.
    destruct (Nat.ltb_spec i K); [|lia].
    destruct (Nat.ltb_spec j K); [|lia]. simpl. eauto.
Qed.

(** With [np] bound to numpy, [OrderReplicates] returns on every replicate
    set of the data model. *)
Lemma OrderReplicates_returns (g : globals) (K : nat) (s : list nat)
    (replicates : list replicate) :
  use_module g "np" "numpy" = Ok tt ->
  valid_replicates K s replicates ->
  exists st sortedyi, OrderReplicates g replicates K = (st, Ok sortedyi).
Proof.
  intros Hnp (Hne & Hs & Hok).
  assert (E : exists sortedyi, snd (OrderReplicates g replicates K) = Ok sortedyi).
  { rewrite OrderReplicates_result, Hnp.
    destruct replicates as [|r0 rest]; [congruence|].
    assert (H0 : shape (destimated r0) = s).
    { inversion Hok as [|? ? (_ & _ & (H & _)) _]; exact H. }
    destruct (mapM_total (fun r => azip fdiv (error r) (corrected_sigma r0)) (r0 :: rest))
      as [yi ->].
    - intros r Hr. rewrite Forall_forall in Hok.
      destruct (Hok r Hr) as (_ & (He & _) & _).
      unfold azip.
      change (shape (corrected_sigma r0)) with (shape (destimated r0)).
      rewrite He, H0. replace (shape_eqb s s) with true; eauto.
      symmetry. now apply shape_eqb_eq.
    - rewrite H0. now apply sort_by_dims_total. }
  destruct E as [sortedyi E].
  destruct (OrderReplicates g replicates K) as [st r]. cbn [snd] in E. subst r. eauto.
Qed.

(** X7: with [np], [scipy] and [OrderReplicates] bound as intended, on a
    replicate set of the data model [AndersonDarling] returns when the
    quantity is a vector or a matrix; on a scalar quantity it runs through
    the loop of lines 96-98 and raises TypeError at line 100, the item
    assignment on the numpy.float64 of line 99. *)
Lemma AndersonDarling_returns (numerics : Numerics) (g : globals) (K : nat)
    (s : list nat) (replicates : list replicate) :
  use_module g "np" "numpy" = Ok tt ->
  use_module g "scipy" "scipy" = Ok tt ->
  use_function g "OrderReplicates" = Ok tt ->
  valid_replicates K s replicates ->
  (s <> [] -> exists st A2, AndersonDarling g replicates K = (st, Ok A2)) /\
  (s = [] -> snd (AndersonDarling g replicates K) = Err TypeError).
Proof.
  intros Hnp Hsp Hfn Hv.
  destruct (OrderReplicates_returns g K s replicates Hnp Hv) as (st & sortedyi & Hrun).
  assert (E : exists A2, snd (AndersonDarling g replicates K)
                         = match s with [] => Err TypeError | _ :: _ => Ok A2 end).
  { rewrite AndersonDarling_result, Hfn, Hrun. cbn [snd].
    destruct (OrderReplicates_rows _ _ _ _ _ Hrun) as (r0 & rest & -> & Hrows & HL).
    assert (H0 : shape (destimated r0) = s).
    { destruct Hv as (_ & _ & Hok).
      inversion Hok as [|? ? (_ & _ & (H & _)) _]; exact H. }
    rewrite Hnp. unfold ad_statistic.
    set (dims := shape (destimated r0)) in *.
    match goal with
    | |- context [forM ?xs ?body ?acc] =>
        destruct (forM_total (fun a => shape a = dims) xs body acc) as (sum & -> & _)
    end.
    - reflexivity.
    - intros acc i Hi Hacc. apply in_seq in Hi. rewrite Hsp.
      destruct (nth_error sortedyi i) as [row|] eqn:Er.
      + apply nth_error_In in Er. rewrite Forall_forall in Hrows.
        destruct (Hrows row Er) as [Rs _].
        cbn [bind]. unfold azip. cbn [shape amap]. rewrite Hacc, Rs.
        replace (shape_eqb dims dims) with true by (symmetry; now apply shape_eqb_eq).
        eauto.
      + apply nth_error_None in Er. lia.
    - cbn [bind]. rewrite H0. eexists. destruct s; reflexivity. }
  destruct E as [A2 E]. split.
  - intro Hne. destruct s as [|d s']; [congruence|].
    destruct (AndersonDarling g replicates K) as [st' r]. cbn [snd] in E. subst r. eauto.
  - intros ->. exact E.
Qed.

Section Returns.

Context {numerics : Numerics}.

Lemma succeeds_bind {A B : Type} (m : io A) (f : A -> io B) (o : list event) (a : A) :
  m = (o, Ok a) -> succeeds (f a) -> succeeds (iobind m f).
Proof.
  intros -> (o' & b & E). unfold succeeds. cbn [iobind]. rewrite E. eauto.
Qed.

Lemma succeeds_ret {A : Type} (a : A) : succeeds (ret a).
Proof. unfold succeeds, ret. eauto. Qed.

Lemma map_io_total {A B : Type} (f : A -> io B) (xs : list A) :
  (forall x, exists b, f x = ret b) -> exists bs, map_io f xs = ret bs.
Proof.
  intro H. induction xs as [|x xs [bs IH]]; cbn [map_io]; eauto.
  destruct (H x) as [b ->]. rewrite iobind_ret_l, IH, iobind_ret_l. eauto.
Qed.

(** On an array of the data model every coordinate of the sweep is read. *)
Lemma entry_reads (K : nat) (s : list nat) (a : ndarray) (c : list nat) :
  model_shape K s -> shape a = s -> well_formed a ->
  In c (coordinates (List.length s) K) ->
  exists x, entry a c = Ok x /\ In x (data a).
Proof.
  unfold well_formed. intros [->|[->| ->]] Hs Hw Hc; rewrite Hs in Hw;
    cbn [List.length coordinates size fold_right] in *.
  - destruct Hc as [<-|[]]. cbn [entry]. unfold item0. rewrite Hs.
    destruct (data a) as [|x [|y l]]; try discriminate. exists x. split; auto. now left.
  - apply in_map_iff in Hc. destruct Hc as (i & <- & Hi). apply in_seq in Hi.
    cbn [entry]. unfold item1. rewrite Hs.
    destruct (Nat.ltb_spec i K); [|lia].
    destruct (nth_error (data a) i) as [x|] eqn:E.
    + exists x. split; auto. eapply nth_error_In; eauto.
    + apply nth_error_None in E. lia.
  - apply in_flat_map in Hc. destruct Hc as (i & Hi & Hc).
    apply in_map_iff in Hc. destruct Hc as (j & <- & Hj).
    apply in_seq in Hi. apply in_seq in Hj.
    cbn [entry]. unfold item2. rewrite Hs.
    destruct (Nat.ltb_spec i K); [|lia].
    destruct (Nat.ltb_spec j K); [|lia]. cbn [andb].
    destruct (nth_error (data a) (i * K + j)) as [x|] eqn:E.
    + exists x. split; auto. eapply nth_error_In; eauto.
    + apply nth_error_None in E. nia.
Qed.

Lemma visits_clean (K : nat) (s : list nat) (replicates : list replicate) :
  model_shape K s -> Forall (replicate_ok s) replicates -> nan_free_all replicates ->
  Forall (fun v => classify v = Clean) (visits (List.length s) K replicates).
Proof.
  intros Hs Hok Hnan. apply Forall_forall. intros v Hv.
  unfold visits in Hv. apply in_flat_map in Hv. destruct Hv as ([idx r] & Hir & Hv).
  apply in_map_iff in Hv. destruct Hv as (c & <- & Hc). cbn [fst snd].
  unfold enumerate in Hir. apply in_combine_r in Hir.
  unfold nan_free_all in Hnan. rewrite Forall_forall in Hok, Hnan.
  destruct (Hok r Hir) as (_ & (He & We) & (Hd & Wd)).
  destruct (Hnan r Hir) as [Fe Fd]. unfold nan_free in Fe, Fd.
  rewrite Forall_forall in Fe, Fd.
  destruct (entry_reads K s (error r) c Hs He We Hc) as (e & Ee & Ie).
  destruct (entry_reads K s (destimated r) c Hs Hd Wd Hc) as (d & Ed & Id).
  unfold classify. rewrite Ee, Ed.
  rewrite (Fe e Ie), (Fd d Id). reflexivity.
Qed.

Lemma for_io_all_clean (dim : nat) (alpha : float) (vs : list visit) (ab : float * float) :
  Forall (fun v => classify v = Clean) vs ->
  exists ab', for_io vs (visit_body dim alpha) ab = ret ab'.
Proof.
  intro H. revert ab. induction H as [|v vs Hv _ IH]; intro ab; cbn [for_io]; eauto.
  destruct (visit_body_clean dim alpha ab v Hv) as [ab' ->].
  rewrite iobind_ret_l. apply IH.
Qed.

Lemma model_shape_dim (K : nat) (s : list nat) : model_shape K s -> (List.length s <= 2)%nat.
Proof. intros [->|[->| ->]]; simpl; lia. Qed.

Lemma sweep_alpha_returns (g : globals) (K : nat) (s : list nat)
    (replicates : list replicate) (alpha : float) :
  use_module g "numpy" "numpy" = Ok tt -> use_module g "scipy" "scipy" = Ok tt ->
  model_shape K s -> Forall (replicate_ok s) replicates -> nan_free_all replicates ->
  exists row, sweep_alpha g (List.length s) K replicates alpha = ret row.
Proof.
  intros Hnp Hsp Hs Hok Hnan. unfold sweep_alpha.
  rewrite count_alpha_visits by exact (model_shape_dim K s Hs).
  destruct (for_io_all_clean (List.length s) alpha _ (Fin 1, Fin 1)
              (visits_clean K s replicates Hs Hok Hnan)) as [[a b] ->].
  rewrite iobind_ret_l, Hsp, Hnp.
  change (lift (Ok tt)) with (ret tt). rewrite !iobind_ret_l. eauto.
Qed.

Lemma assign_replicate_total (s : list nat) (rindex : nat) (r : replicate) (v : triple) :
  replicate_ok s r -> exists v', assign_replicate s rindex r v = Ok v'.
Proof.
  intros ((H1 & _) & (H2 & _) & (H3 & _)). destruct v as [[vals vals_error] vals_std].
  unfold assign_replicate, assign_slice. rewrite H1, H2, H3.
  replace (shape_eqb s s) with true by (symmetry; now apply shape_eqb_eq).
  cbn [bind]. eauto.
Qed.

Lemma mean0_ok (s : list nat) (rows : list ndarray) : row_ok s (mean0 s rows).
Proof. split; cbn [mean0 shape data]; auto. now rewrite length_map, length_seq. Qed.

(** Line 311 and the like: the average of slices that hold an element. *)
Lemma average0_Ok (s : list nat) (rows : list ndarray) :
  size s <> 0%nat -> average0 s rows = Ok (mean0 s rows).
Proof. intro H. unfold average0. now destruct (Nat.eqb_spec (size s) 0). Qed.

(** The average of slices that hold no element. *)
Lemma average0_empty (s : list nat) (rows : list ndarray) :
  size s = 0%nat -> average0 s rows = Err ZeroDivisionError.
Proof. intro H. unfold average0. now rewrite H. Qed.

Lemma summarize_Ok (s : list nat) (v : triple) :
  size s <> 0%nat -> summarize s v = Ok (summary_of s v).
Proof.
  intro H. destruct v as [[vals vals_error] vals_std]. unfold summarize.
  rewrite !average0_Ok by exact H. reflexivity.
Qed.

(** Line 311 raises when a slice holds no element. *)
Lemma summarize_empty (s : list nat) (v : triple) :
  size s = 0%nat -> summarize s v = Err ZeroDivisionError.
Proof.
  intro H. destruct v as [[vals vals_error] vals_std]. unfold summarize.
  now rewrite average0_empty by exact H.
Qed.

(** In the data model a slice holds no element only for a vector or a matrix
    over no state. *)
Lemma model_size (K : nat) (s : list nat) :
  model_shape K s -> s = [] \/ (1 <= K)%nat -> size s <> 0%nat.
Proof. intros [->|[->| ->]] [H|H]; try discriminate H; cbn; nia. Qed.

Lemma amap_ok (s : list nat) (f : float -> float) (a : ndarray) :
  row_ok s a -> row_ok s (amap f a).
Proof. intros [H1 H2]. split; cbn [amap shape data]; auto. now rewrite length_map. Qed.

Lemma summary_statistics_returns (K : nat) (s : list nat) (replicates : list replicate) :
  model_shape K s -> size s <> 0%nat -> Forall (replicate_ok s) replicates ->
  exists sm, summary_statistics (List.length s) K replicates = Ok sm /\ summary_ok s sm.
Proof.
  intros Hs Hsize Hok. unfold summary_statistics.
  assert (Hv : vals_shape (List.length s) K = Some s)
    by (destruct Hs as [->|[->| ->]]; reflexivity).
  rewrite Hv.
  match goal with
  | |- context [forM ?xs ?body ?acc] =>
      destruct (forM_total (fun _ => True) xs body acc I) as ([[vals ve] vs] & -> & _)
  end.
  - intros v [rindex r] Hin _. unfold enumerate in Hin. apply in_combine_r in Hin.
    rewrite Forall_forall in Hok. specialize (Hok r Hin).
    unfold populate_replicate.
    destruct Hs as [->|[->| ->]]; cbn [List.length].
    + destruct (assign_replicate_total [] rindex r v Hok) as [v' ->]. eauto.
    + destruct (forM_total (fun _ => True) (seq 0 K)
                  (fun v0 _ => assign_replicate [K] rindex r v0) v I) as (v' & -> & _); eauto.
      intros v0 i _ _. destruct (assign_replicate_total [K] rindex r v0 Hok) as [v' ->]. eauto.
    + destruct (forM_total (fun _ => True) (seq 0 K)
                  (fun v0 i => forM (seq 0 i)
                     (fun v1 _ => assign_replicate [K; K] rindex r v1) v0) v I)
        as (v' & -> & _); eauto.
      intros v0 i _ _.
      destruct (forM_total (fun _ => True) (seq 0 i)
                  (fun v1 _ => assign_replicate [K; K] rindex r v1) v0 I)
        as (v' & -> & _); eauto.
      intros v1 j _ _.
      destruct (assign_replicate_total [K; K] rindex r v1 Hok) as [v' ->]. eauto.
  - cbn [bind]. rewrite summarize_Ok by exact Hsize.
    eexists. split; [reflexivity|].
    unfold summary_ok. cbn [summary_of aveval bias rms_error standarddev ave_std].
    repeat split; try apply mean0_ok;
      try (apply amap_ok; apply mean0_ok);
      cbn [std0 shape data]; auto; now rewrite length_map, length_seq.
Qed.

Lemma pick_total (s : list nat) (f : ndarray -> result float) (sm : summary) :
  (forall a, row_ok s a -> exists x, f a = Ok x) -> summary_ok s sm ->
  exists p, pick f sm = Ok p.
Proof.
  intros Hf (H1 & H2 & H3 & H4 & H5). unfold pick.
  destruct (Hf _ H1) as [x1 ->]. destruct (Hf _ H2) as [x2 ->].
  destruct (Hf _ H3) as [x3 ->]. destruct (Hf _ H4) as [x4 ->].
  destruct (Hf _ H5) as [x5 ->]. cbn [bind]. eauto.
Qed.

Lemma for_io_last {A P : Type} (xs : list A) (body : option P -> A -> io (option P))
    (acc : option P) :
  (forall st x, In x xs -> exists o p, body st x = (o, Ok (Some p))) ->
  xs <> [] \/ (exists p, acc = Some p) ->
  exists o p, for_io xs body acc = (o, Ok (Some p)).
Proof.
  revert acc. induction xs as [|x xs IH]; intros acc Hb Hne; cbn [for_io].
  - destruct Hne as [Hne|[p ->]]; [congruence|]. unfold ret. eauto.
  - destruct (Hb acc x (or_introl eq_refl)) as (o & p & ->).
    destruct (IH (Some p)) as (o' & p' & E).
    + intros st y Hy. apply Hb. now right.
    + right. eauto.
    + cbn [iobind]. rewrite E. eauto.
Qed.

Lemma report_summary_returns (K : nat) (s : list nat) (sm : summary) :
  model_shape K s -> (s = [] \/ (1 <= K)%nat) -> summary_ok s sm ->
  succeeds (report_summary (List.length s) K sm).
Proof.
  intros Hs HK Hsm. unfold report_summary.
  eapply succeeds_bind; [reflexivity|].
  eapply succeeds_bind; [reflexivity|].
  eapply succeeds_bind; [reflexivity|].
  assert (Hlast : exists o p,
    match List.length s with
    | 0%nat => (p <- lift (pick item0 sm) ;; ret (Some p))%io
    | 1%nat =>
        for_io (seq 0 K)
          (fun _ i => (p <- lift (pick (fun a => item1 a i) sm) ;;
                       print_summary i p ;; ret (Some p))%io) None
    | 2%nat =>
        for_io (seq 0 K)
          (fun _ i => (p <- lift (pick (fun a => item2 a 0 i) sm) ;;
                       print_summary i p ;; ret (Some p))%io) None
    | _ => ret None
    end = (o, Ok (Some p))).
  { destruct Hs as [->|[->| ->]]; cbn [List.length].
    - destruct (pick_total [] item0 sm) as [p Hp]; auto.
      + intros a [Ha Hl]. unfold item0. rewrite Ha. cbn [size fold_right] in Hl.
        destruct (data a) as [|x [|y l]]; try discriminate. eauto.
      + rewrite Hp. cbn [lift iobind ret]. eauto.
    - destruct HK as [HK|HK]; [discriminate|].
      apply for_io_last.
      + intros st i Hi. apply in_seq in Hi.
        destruct (pick_total [K] (fun a => item1 a i) sm) as [p Hp]; auto.
        * intros a [Ha Hl]. unfold item1. rewrite Ha. cbn [size fold_right] in Hl.
          destruct (Nat.ltb_spec i K); [|lia].
          destruct (nth_error (data a) i) eqn:E; eauto.
          apply nth_error_None in E. lia.
        * rewrite Hp. destruct p as [[[[p1 p2] p3] p4] p5].
          cbn [lift iobind ret print_summary print app]. eauto.
      + left. destruct K; [lia|discriminate].
    - destruct HK as [HK|HK]; [discriminate|].
      apply for_io_last.
      + intros st i Hi. apply in_seq in Hi.
        destruct (pick_total [K; K] (fun a => item2 a 0 i) sm) as [p Hp]; auto.
        * intros a [Ha Hl]. unfold item2. rewrite Ha. cbn [size fold_right] in Hl.
          destruct (Nat.ltb_spec 0 K); [|lia].
          destruct (Nat.ltb_spec i K); [|lia]. cbn [andb].
          destruct (nth_error (data a) (0 * K + i)) eqn:E; eauto.
          apply nth_error_None in E. nia.
        * rewrite Hp. destruct p as [[[[p1 p2] p3] p4] p5].
          cbn [lift iobind ret print_summary print app]. eauto.
      + left. destruct K; [lia|discriminate]. }
  destruct Hlast as (o & p & Hlast).
  eapply succeeds_bind; [exact Hlast|].
  destruct p as [[[[p1 p2] p3] p4] p5]. unfold succeeds, print. eauto.
Qed.

End Returns.

(** With [numpy] and [scipy] bound, [generateConfidenceIntervals] returns on
    every replicate set of the data model that holds no NaN, a vector or a
    matrix quantity having at least one state. *)
Lemma generateConfidenceIntervals_returns (numerics : Numerics) (g : globals) (K : nat)
    (s : list nat) (replicates : list replicate) :
  use_module g "numpy" "numpy" = Ok tt ->
  use_module g "scipy" "scipy" = Ok tt ->
  valid_replicates K s replicates ->
  nan_free_all replicates ->
  s = [] \/ (1 <= K)%nat ->
  exists out returned, generateConfidenceIntervals g replicates K = (out, Ok returned).
Proof.
  intros Hnp Hsp (Hne & Hs & Hok) Hnan HK.
  destruct replicates as [|r0 rest]; [congruence|].
  assert (Hdim : List.length (shape (estimated r0)) = List.length s).
  { inversion Hok as [|? ? ((H & _) & _) _]. now rewrite H. }
  change (succeeds (generateConfidenceIntervals g (r0 :: rest) K)).
  unfold generateConfidenceIntervals.
  eapply succeeds_bind; [apply print_all_run|].
  rewrite Hnp, Hsp. rewrite Hdim.
  eapply succeeds_bind; [reflexivity|].
  eapply succeeds_bind; [reflexivity|].
  destruct (map_io_total (sweep_alpha g (List.length s) K (r0 :: rest)) alpha_values)
    as [rows Hrows].
  { intro alpha. now apply (sweep_alpha_returns g K s). }
  eapply succeeds_bind; [exact Hrows|].
  eapply succeeds_bind; [reflexivity|].
  eapply succeeds_bind; [reflexivity|].
  eapply succeeds_bind; [reflexivity|].
  eapply succeeds_bind; [apply print_all_run|].
  destruct (summary_statistics_returns K s (r0 :: rest) Hs (model_size K s Hs HK) Hok) as (sm & Hsm & Hshape).
  rewrite Hsm.
  eapply succeeds_bind; [reflexivity|].
  destruct (report_summary_returns K s sm Hs HK Hshape) as (o & [] & Hrep).
  eapply succeeds_bind; [exact Hrep|].
  apply succeeds_ret.
Qed.

(** * Further properties *)

(** ** Loops as folds *)

Lemma forM_app {A S : Type} (xs ys : list A) (body : S -> A -> result S) (acc : S) :
  forM (xs ++ ys) body acc = bind (forM xs body acc) (forM ys body).
Proof.
  revert acc. induction xs as [|x xs IH]; intro acc; cbn [forM app bind]; [reflexivity|].
  destruct (body acc x); [apply IH|reflexivity].
Qed.

Lemma forM_fold {A S : Type} (f : S -> A -> S) (xs : list A)
    (body : S -> A -> result S) (acc : S) :
  (forall s x, In x xs -> body s x = Ok (f s x)) ->
  forM xs body acc = Ok (fold_left f xs acc).
Proof.
  revert acc. induction xs as [|x xs IH]; intros acc H; cbn [forM fold_left]; [reflexivity|].
  rewrite (H acc x (or_introl eq_refl)). apply IH. intros s y Hy. apply H. now right.
Qed.

Lemma forM_Ok_fold {A S : Type} (f : S -> A -> S) (xs : list A)
    (body : S -> A -> result S) (acc r : S) :
  (forall s x s', In x xs -> body s x = Ok s' -> s' = f s x) ->
  forM xs body acc = Ok r -> r = fold_left f xs acc.
Proof.
  revert acc. induction xs as [|x xs IH]; intros acc H; cbn [forM fold_left].
  - congruence.
  - destruct (body acc x) as [s'|] eqn:E; [|discriminate].
    rewrite <- (H acc x s' (or_introl eq_refl) E). apply IH.
    intros s y s2 Hy. apply H. now right.
Qed.

Lemma forM_Ok_each {A S : Type} (xs : list A) (body : S -> A -> result S) (acc r : S) :
  forM xs body acc = Ok r ->
  forall x, In x xs -> exists s s', body s x = Ok s'.
Proof.
  revert acc. induction xs as [|x xs IH]; intros acc H y Hy; [destruct Hy|].
  cbn [forM] in H. destruct (body acc x) as [s'|] eqn:E; [|discriminate].
  destruct Hy as [<-|Hy]; [eauto|]. exact (IH s' H y Hy).
Qed.

Lemma fold_left_flat_map {A B S : Type} (f : S -> B -> S) (h : A -> list B)
    (xs : list A) (acc : S) :
  fold_left (fun s x => fold_left f (h x) s) xs acc = fold_left f (flat_map h xs) acc.
Proof.
  revert acc. induction xs as [|x xs IH]; intro acc; cbn [fold_left flat_map]; [reflexivity|].
  rewrite fold_left_app. apply IH.
Qed.

Lemma fold_left_map {A B S : Type} (f : S -> B -> S) (h : A -> B) (xs : list A) (acc : S) :
  fold_left (fun s x => f s (h x)) xs acc = fold_left f (map h xs) acc.
Proof.
  revert acc. induction xs as [|x xs IH]; intro acc; cbn [fold_left map]; [reflexivity|].
  apply IH.
Qed.

Lemma fold_left_ext_in {A S : Type} (f f' : S -> A -> S) (xs : list A) (acc : S) :
  (forall s x, In x xs -> f s x = f' s x) -> fold_left f xs acc = fold_left f' xs acc.
Proof.
  revert acc. induction xs as [|x xs IH]; intros acc H; cbn [fold_left]; [reflexivity|].
  rewrite (H acc x (or_introl eq_refl)). apply IH. intros s y Hy. apply H. now right.
Qed.

(** ** OrderReplicates: what each column of the result holds *)

(** A run of lines 48-56 that ends normally wrote the offsets of
    [written_offsets], in that order, and every one of them is inside a
    slice. *)
Lemma sort_by_dims_fold (dims : list nat) (K : nat) (yiarray z s : list ndarray) :
  sort_by_dims dims K yiarray z = Ok s ->
  s = fold_left (fun t k => sort_column yiarray k t) (written_offsets dims K) z /\
  Forall (fun k => (k < size dims)%nat) (written_offsets dims K).
Proof.
  unfold sort_by_dims, written_offsets.
  destruct dims as [|d0 [|d1 [|d2 dims]]]; intro H.
  - inversion H. split; [reflexivity|]. repeat constructor.
  - split.
    + apply (forM_Ok_fold (fun t k => sort_column yiarray k t)) in H; [exact H|].
      intros t i t' _. destruct (i <? d0)%nat; congruence.
    + apply Forall_forall. intros i Hi.
      destruct (forM_Ok_each _ _ _ _ H i Hi) as (t & t' & E).
      destruct (Nat.ltb_spec i d0); [|discriminate]. cbn [size fold_right]. lia.
  - split.
    + apply (forM_Ok_fold
               (fun t i => fold_left (fun u j => sort_column yiarray (i * d1 + j) u)
                             (seq 0 K) t)) in H.
      * rewrite H.
        rewrite <- (fold_left_flat_map (fun t k => sort_column yiarray k t)
                      (fun i => map (fun j => (i * d1 + j)%nat) (seq 0 K))).
        apply fold_left_ext_in. intros t i _.
        apply (fold_left_map (fun t k => sort_column yiarray k t)
                 (fun j => (i * d1 + j)%nat)).
      * intros t i t' _ E.
        apply (forM_Ok_fold (fun u j => sort_column yiarray (i * d1 + j) u)) in E;
          [exact E|].
        intros u j u' _. destruct ((i <? d0)%nat && (j <? d1)%nat)%bool; congruence.
    + apply Forall_forall. intros k Hk.
      apply in_flat_map in Hk. destruct Hk as (i & Hi & Hk).
      apply in_map_iff in Hk. destruct Hk as (j & <- & Hj).
      destruct (forM_Ok_each _ _ _ _ H i Hi) as (t & t' & E).
      destruct (forM_Ok_each _ _ _ _ E j Hj) as (u & u' & E').
      destruct (Nat.ltb_spec i d0); [|discriminate].
      destruct (Nat.ltb_spec j d1); [|discriminate].
      cbn [size fold_right]. nia.
  - inversion H. split; [reflexivity|constructor].
Qed.

Lemma column_fold_sort (dims : list nat) (yiarray : list ndarray) (l : list nat)
    (t : list ndarray) (k : nat) :
  Forall (row_ok dims) t -> List.length t = List.length yiarray ->
  Forall (fun k => (k < size dims)%nat) l ->
  column k (fold_left (fun t k => sort_column yiarray k t) l t)
  = if existsb (Nat.eqb k) l then np_sort (column k yiarray) else column k t.
Proof.
  revert t. induction l as [|a l IH]; intros t Ht HL Hl; cbn [fold_left existsb].
  - reflexivity.
  - inversion Hl as [|? ? Ha Hl']; subst.
    assert (Hlen : List.length (np_sort (column a yiarray)) = List.length t).
    { now rewrite np_sort_length, column_length. }
    rewrite IH; auto.
    + destruct (existsb (Nat.eqb k) l); [now rewrite orb_true_r|].
      rewrite orb_false_r. unfold sort_column.
      destruct (Nat.eqb_spec k a) as [->|Hne].
      * now apply (column_set_column_same dims).
      * apply column_set_column_other; auto.
    + now apply set_column_ok.
    + now apply sort_column_length.
Qed.

(** X1: what [OrderReplicates] returns, column by column.  At a coordinate the
    loops of lines 48-56 reach, the column over the replicates is the sorted
    column of the normalised errors; at any other coordinate of a slice (a
    state of index [K] or more) it is the zeros of line 47. *)
Theorem OrderReplicates_columns (g : globals) (r0 : replicate) (rest : list replicate)
    (K : nat) (st : list replicate) (sortedyi : list ndarray) (k : nat) :
  OrderReplicates g (r0 :: rest) K = (st, Ok sortedyi) ->
  (k < size (shape (destimated r0)))%nat ->
  column k sortedyi
  = if written (shape (destimated r0)) K k
    then np_sort (normalized_column (r0 :: rest) k)
    else repeat (Fin 0) (List.length (r0 :: rest)).
Proof.
  intros Hrun Hk.
  destruct (OrderReplicates_Ok _ _ _ _ _ Hrun) as (r0' & rest' & E & _ & _ & Hs & _).
  injection E as <- <-.
  apply sort_by_dims_fold in Hs. destruct Hs as [-> Hin].
  unfold written, normalized_column.
  rewrite (column_fold_sort (shape (destimated r0))); auto.
  - destruct (existsb _ _); [reflexivity|].
    now apply (column_zeros (shape (destimated r0)) k (r0 :: rest)).
  - apply Forall_forall. intros r Hr. apply in_map_iff in Hr.
    destruct Hr as (? & <- & _). apply np_zeros_ok.
  - now rewrite !length_map.
Qed.

Lemma OrderReplicates_columns_witness :
  column 1 [ vec [Fin (-3); Fin (-1)]; vec [Fin 1; Fin (1 # 2)]; vec [Fin 2; Fin 2] ]
  = np_sort (normalized_column three_by_two 1) /\
  column 1 [ vec [Fin (-3); Fin 0]; vec [Fin 1; Fin 0]; vec [Fin 2; Fin 0] ]
  = repeat (Fin 0) 3.
Proof.
  split.
  - apply (OrderReplicates_columns np_globals
             (rep [Fin 1; Fin 2] [Fin 1; Fin 2] [Fin 0; Fin 1])
             [ rep [Fin 1; Fin 2] [Fin (-3); Fin (1 # 2)] [Fin 5; Fin 1];
               rep [Fin 1; Fin 2] [Fin 2; Fin (-1)] [Fin 1; Fin 1] ]
             2 three_by_two _ 1).
    + vm_compute. reflexivity.
    + vm_compute. lia.
  - apply (OrderReplicates_columns np_globals
             (rep [Fin 1; Fin 2] [Fin 1; Fin 2] [Fin 0; Fin 1])
             [ rep [Fin 1; Fin 2] [Fin (-3); Fin (1 # 2)] [Fin 5; Fin 1];
               rep [Fin 1; Fin 2] [Fin 2; Fin (-1)] [Fin 1; Fin 1] ]
             1 three_by_two _ 1).
    + vm_compute. reflexivity.
    + vm_compute. lia.
Defined.

Lemma written_model_shape (K : nat) (s : list nat) (k : nat) :
  model_shape K s -> (k < size s)%nat -> written s K k = true.
Proof.
  unfold written, written_offsets.
  intros [->|[->| ->]] Hk; cbn [size fold_right] in Hk; apply existsb_exists.
  - exists 0%nat. split; [now left|]. apply Nat.eqb_eq. lia.
  - exists k. split; [|apply Nat.eqb_refl]. apply in_seq. lia.
  - exists k. split; [|apply Nat.eqb_refl].
    assert (HK : K <> 0%nat) by lia.
    apply in_flat_map. exists (k / K)%nat. split.
    + apply in_seq. split; [lia|]. cbn [Nat.add].
      apply Nat.Div0.div_lt_upper_bound. lia.
    + apply in_map_iff. exists (k mod K)%nat. split.
      * rewrite (Nat.div_mod_eq k K) at 3. lia.
      * apply in_seq. split; [lia|]. cbn [Nat.add]. now apply Nat.mod_upper_bound.
Qed.

(** X2: on a replicate set of the data model, every column of the result of
    [OrderReplicates] is the sorted column of the normalised errors: the
    same numbers as many times, rearranged. *)
Theorem OrderReplicates_permutes (g : globals) (K : nat) (s : list nat)
    (replicates st : list replicate) (sortedyi : list ndarray) (k : nat) :
  valid_replicates K s replicates ->
  OrderReplicates g replicates K = (st, Ok sortedyi) ->
  (k < size s)%nat ->
  column k sortedyi = np_sort (normalized_column replicates k) /\
  Permutation (normalized_column replicates k) (column k sortedyi).
Proof.
  intros (Hne & Hs & Hok) Hrun Hk.
  destruct replicates as [|r0 rest]; [congruence|].
  assert (H0 : shape (destimated r0) = s).
  { inversion Hok as [|? ? (_ & _ & (H & _)) _]; exact H. }
  assert (E : column k sortedyi = np_sort (normalized_column (r0 :: rest) k)).
  { rewrite (OrderReplicates_columns g r0 rest K st sortedyi k Hrun); rewrite H0; auto.
    now rewrite written_model_shape. }
  split; [exact E|]. rewrite E. apply FloatSort.Permuted_sort.
Qed.

Lemma OrderReplicates_permutes_witness :
  column 0 [ vec [Fin (-3); Fin (-1)]; vec [Fin 1; Fin (1 # 2)]; vec [Fin 2; Fin 2] ]
  = np_sort (normalized_column three_by_two 0) /\
  Permutation (normalized_column three_by_two 0)
    (column 0 [ vec [Fin (-3); Fin (-1)]; vec [Fin 1; Fin (1 # 2)]; vec [Fin 2; Fin 2] ]).
Proof.
  apply (OrderReplicates_permutes np_globals 2 [2%nat] three_by_two three_by_two).
  - split; [discriminate|]. split; [right; left; reflexivity|].
    repeat constructor.
  - vm_compute. reflexivity.
  - vm_compute. lia.
Defined.

(** ** OrderReplicates: the store *)

Lemma same_number_refl (x : float) : same_number x x.
Proof. destruct x; simpl; [exact I|reflexivity]. Qed.

Lemma restored_number (x : float) (b : bool) :
  same_number (fsub (fadd x (of_bool b)) (of_bool b)) x.
Proof.
  destruct x as [|q]; [exact I|].
  destruct b; cbn [of_bool fadd fsub lift2 same_number];
    rewrite !Qred_correct; ring.
Qed.

Lemma restored_data (l : list float) (m : list bool) :
  List.length m = List.length l ->
  Forall2 same_number
    (map2 (fun x b => fsub x (of_bool b)) (map2 (fun x b => fadd x (of_bool b)) l m) m) l.
Proof.
  revert m. induction l as [|x l IH]; intros [|b m] H; try discriminate; cbn [map2].
  - constructor.
  - constructor; [apply restored_number|]. apply IH. now injection H.
Qed.

(** X3: a call of [OrderReplicates] that returns leaves the replicates as
    they were: [estimated] and [error] untouched, and the correction of
    line 41 taken back from [replicates[0]['destimated']], whose entries are
    numerically those of before the call. *)
Theorem OrderReplicates_restores_sigma (g : globals) (r0 : replicate)
    (rest : list replicate) (K : nat) (st : list replicate) (sortedyi : list ndarray) :
  OrderReplicates g (r0 :: rest) K = (st, Ok sortedyi) ->
  exists sigma,
    st = mkrep (estimated r0) (error r0) sigma :: rest /\
    same_array sigma (destimated r0).
Proof.
  intro Hrun.
  destruct (OrderReplicates_Ok _ _ _ _ _ Hrun) as (r0' & rest' & E & _ & _ & _ & ->).
  injection E as <- <-.
  destruct (shape (destimated r0)) as [|d0 dims] eqn:Hd; cbn [write_sigma set_destimated0].
  - exists (destimated r0). split; [now destruct r0|].
    split; [reflexivity|]. clear. induction (data (destimated r0)); constructor; auto.
    apply same_number_refl.
  - eexists. split; [reflexivity|]. split; [reflexivity|].
    apply restored_data. unfold zerosigma_of. now rewrite length_map.
Qed.

Lemma OrderReplicates_restores_sigma_witness :
  exists sigma,
    three_by_two
    = mkrep (vec [Fin 1; Fin 2]) (vec [Fin 1; Fin 2]) sigma :: tl three_by_two /\
    same_array sigma (vec [Fin 0; Fin 1]).
Proof.
  apply (OrderReplicates_restores_sigma np_globals
           (rep [Fin 1; Fin 2] [Fin 1; Fin 2] [Fin 0; Fin 1]) (tl three_by_two) 2
           three_by_two
           [ vec [Fin (-3); Fin (-1)]; vec [Fin 1; Fin (1 # 2)]; vec [Fin 2; Fin 2] ]).
  vm_compute. reflexivity.
Defined.

Lemma forM_guard_fails {T : Type} (f : T -> nat -> T) (d K : nat) (acc : T) :
  (d < K)%nat ->
  forM (seq 0 K) (fun s i => if (i <? d)%nat then Ok (f s i) else Err IndexError) acc
  = Err IndexError.
Proof.
  intro H. replace K with (d + S (K - S d))%nat by lia.
  rewrite seq_app, forM_app.
  rewrite (forM_fold f).
  - cbn [bind Nat.add seq forM]. now rewrite Nat.ltb_irrefl.
  - intros s i Hi. apply in_seq in Hi.
    destruct (Nat.ltb_spec i d); [reflexivity|lia].
Qed.

Lemma mapM_azip (f : float -> float -> float) (sigma : ndarray)
    (replicates : list replicate) :
  Forall (fun r => shape (error r) = shape sigma) replicates ->
  exists yi, mapM (fun r => azip f (error r) sigma) replicates = Ok yi.
Proof.
  intro H. apply mapM_total. intros r Hr. rewrite Forall_forall in H.
  unfold azip. rewrite (H r Hr).
  replace (shape_eqb (shape sigma) (shape sigma)) with true; eauto.
  symmetry. now apply shape_eqb_eq.
Qed.

(** X4: [K] above the number of states of a per-state quantity.  With [np]
    bound, line 52 raises [IndexError] at the first state that does not
    exist, after line 41 and before line 59: the caller's
    [replicates[0]['destimated']] is left with the correction in, a 1 in the
    place of every zero. *)
Theorem OrderReplicates_index_error_keeps_correction (g : globals) (r0 : replicate)
    (rest : list replicate) (K d0 : nat) :
  use_module g "np" "numpy" = Ok tt ->
  shape (destimated r0) = [d0] ->
  Forall (fun r => shape (error r) = [d0]) (r0 :: rest) ->
  (d0 < K)%nat ->
  OrderReplicates g (r0 :: rest) K
  = (mkrep (estimated r0) (error r0) (corrected_sigma r0) :: rest, Err IndexError) /\
  forall k, (k < List.length (data (destimated r0)))%nat ->
    feq (nth k (data (destimated r0)) NaN) (Fin 0) = true ->
    feq (nth k (data (corrected_sigma r0)) NaN) (Fin 1) = true.
Proof.
  intros Hnp Hd Herr HK. split.
  - unfold OrderReplicates. rewrite Hnp, Hd. cbn [write_sigma set_destimated0].
    fold (corrected_sigma r0).
    destruct (mapM_azip fdiv (corrected_sigma r0)
                (mkrep (estimated r0) (error r0) (corrected_sigma r0) :: rest))
      as [yi ->].
    { change (shape (corrected_sigma r0)) with (shape (destimated r0)). rewrite Hd.
      inversion Herr; subst. constructor; auto. }
    unfold sort_by_dims. now rewrite forM_guard_fails.
  - intros k Hk Hz. rewrite corrected_sigma_entry by exact Hk. cbn zeta.
    rewrite Hz. destruct (nth k (data (destimated r0)) NaN) as [|q]; [discriminate|].
    cbn [feq] in Hz. apply Qeq_bool_iff in Hz.
    cbn [of_bool fadd lift2 feq]. apply Qeq_bool_iff. rewrite Qred_correct, Hz. reflexivity.
Qed.

Lemma OrderReplicates_index_error_keeps_correction_witness :
  OrderReplicates np_globals three_by_two 3
  = (rep [Fin 1; Fin 2] [Fin 1; Fin 2] [Fin 1; Fin 1] :: tl three_by_two, Err IndexError).
Proof.
  refine (proj1 (OrderReplicates_index_error_keeps_correction np_globals
                   (rep [Fin 1; Fin 2] [Fin 1; Fin 2] [Fin 0; Fin 1]) (tl three_by_two)
                   3 2 _ _ _ _)).
  - reflexivity.
  - reflexivity.
  - repeat constructor.
  - lia.
Defined.

(** ** OrderReplicates and AndersonDarling: what the result depends on *)

Lemma mapM_map {A B C : Type} (h : A -> B) (f : B -> result C) (l : list A) :
  mapM (fun a => f (h a)) l = mapM f (map h l).
Proof.
  induction l as [|a l IH]; cbn [mapM map]; [reflexivity|]. now rewrite IH.
Qed.

(** X5: the scale is that of replicate 0 alone (lines 36-41, 87-88 and 91).
    Two replicate sets with the same errors, replicate by replicate, and
    the same [destimated] in replicate 0 give the same result in
    [OrderReplicates] and in [AndersonDarling], value or exception: the
    estimates and the [destimated] arrays of the other replicates are not
    read. *)
Theorem results_use_the_first_sigma (numerics : Numerics) (g : globals)
    (r0 r0' : replicate) (rest rest' : list replicate) (K : nat) :
  map error (r0 :: rest) = map error (r0' :: rest') ->
  destimated r0 = destimated r0' ->
  snd (OrderReplicates g (r0 :: rest) K) = snd (OrderReplicates g (r0' :: rest') K) /\
  snd (AndersonDarling g (r0 :: rest) K) = snd (AndersonDarling g (r0' :: rest') K).
Proof.
  intros He Hd.
  assert (HOR : snd (OrderReplicates g (r0 :: rest) K)
                = snd (OrderReplicates g (r0' :: rest') K)).
  { rewrite !OrderReplicates_result. destruct (use_module g "np" "numpy"); [|reflexivity].
    unfold corrected_sigma. rewrite <- Hd.
    rewrite (mapM_map error (fun e => azip fdiv e _) (r0 :: rest)).
    rewrite (mapM_map error (fun e => azip fdiv e _) (r0' :: rest')).
    now rewrite He. }
  split; [exact HOR|].
  rewrite !AndersonDarling_result, HOR, <- Hd.
  replace (List.length (r0' :: rest')) with (List.length (r0 :: rest)); [reflexivity|].
  rewrite <- (length_map error (r0 :: rest)), He. apply length_map.
Qed.

Lemma results_use_the_first_sigma_witness :
  snd (OrderReplicates np_globals three_by_two 2)
  = snd (OrderReplicates np_globals
           [ rep [Fin 7; Fin 7] [Fin 1; Fin 2] [Fin 0; Fin 1];
             rep [Fin 8; Fin 8] [Fin (-3); Fin (1 # 2)] [Fin 9; NaN];
             rep [Fin 9; Fin 9] [Fin 2; Fin (-1)] [Fin 0; Fin 0] ] 2) /\
  snd (AndersonDarling (numerics := rational_numerics) np_globals three_by_two 2)
  = snd (AndersonDarling (numerics := rational_numerics) np_globals
           [ rep [Fin 7; Fin 7] [Fin 1; Fin 2] [Fin 0; Fin 1];
             rep [Fin 8; Fin 8] [Fin (-3); Fin (1 # 2)] [Fin 9; NaN];
             rep [Fin 9; Fin 9] [Fin 2; Fin (-1)] [Fin 0; Fin 0] ] 2).
Proof.
  apply (results_use_the_first_sigma rational_numerics np_globals
           (rep [Fin 1; Fin 2] [Fin 1; Fin 2] [Fin 0; Fin 1])
           (rep [Fin 7; Fin 7] [Fin 1; Fin 2] [Fin 0; Fin 1])
           (tl three_by_two)
           [ rep [Fin 8; Fin 8] [Fin (-3); Fin (1 # 2)] [Fin 9; NaN];
             rep [Fin 9; Fin 9] [Fin 2; Fin (-1)] [Fin 0; Fin 0] ] 2);
    reflexivity.
Defined.

(** ** AndersonDarling: the statistic of one coordinate *)

Section StatisticByCoordinate.

Context {numerics : Numerics}.

Lemma ad_loop_entry (g : globals) (N : nat) (dims : list nat) (l pre : list ndarray)
    (acc sum : ndarray) :
  Forall (row_ok dims) l -> row_ok dims acc ->
  forM (seq (List.length pre) (List.length l))
    (fun sum i =>
       _ <- use_module g "scipy" "scipy" ;;
       row <- match nth_error (pre ++ l) i with
              | Some row => Ok row
              | None => Err IndexError
              end ;;
       azip fadd sum (amap (ad_term N i) row))%result acc = Ok sum ->
  row_ok dims sum /\
  forall k, (k < size dims)%nat ->
    nth k (data sum) NaN
    = fold_left (fun x iy => fadd x (ad_term N (fst iy) (snd iy)))
        (combine (seq (List.length pre) (List.length l)) (column k l))
        (nth k (data acc) NaN).
Proof.
  revert pre acc. induction l as [|row l IH]; intros pre acc Hl Hacc H.
  - cbn [List.length seq forM] in H. injection H as <-. split; [exact Hacc|].
    intros k _. reflexivity.
  - apply Forall_cons_iff in Hl. destruct Hl as [[Rs Rl] Hl'].
    destruct Hacc as [As Al].
    cbn [List.length seq forM] in H.
    assert (Hsp : use_module g "scipy" "scipy" = Ok tt).
    { destruct (use_module g "scipy" "scipy") as [[]|e]; [reflexivity|discriminate H]. }
    rewrite Hsp in H at 1. cbn [bind] in H.
    rewrite nth_error_app2, Nat.sub_diag in H by lia. cbn [nth_error bind] in H.
    unfold azip in H at 1. cbn [shape amap data] in H.
    rewrite As, Rs in H.
    replace (shape_eqb dims dims) with true in H
      by (symmetry; now apply shape_eqb_eq).
    change (pre ++ row :: l) with (pre ++ [row] ++ l) in H. rewrite app_assoc in H.
    replace (S (List.length pre)) with (List.length (pre ++ [row])) in H
      by (rewrite length_app; cbn [List.length]; lia).
    apply IH in H; auto.
    + destruct H as [Hok Hk]. split; [exact Hok|].
      intros k Hlt. rewrite (Hk k Hlt). cbn [data].
      rewrite length_app. cbn [List.length].
      replace (List.length pre + 1)%nat with (S (List.length pre)) by lia.
      cbn [column map combine fold_left fst snd].
      rewrite (nth_map2 fadd _ _ k NaN NaN NaN) by (rewrite ?length_map; lia).
      rewrite (nth_map_default _ _ k NaN NaN) by lia. reflexivity.
    + split; cbn [shape data]; auto. rewrite map2_length, length_map. lia.
Qed.

Lemma ad_statistic_entry (g : globals) (N : nat) (dims : list nat) (mask : list bool)
    (s : list ndarray) (A2 : ndarray) :
  Forall (row_ok dims) s -> List.length s = N -> List.length mask = size dims ->
  ad_statistic g N dims mask s = Ok A2 ->
  row_ok dims A2 /\
  forall k, (k < size dims)%nat ->
    nth k (data A2) NaN
    = if nth k mask false then Fin 0 else ad_value N (column k s).
Proof.
  intros Hs HN Hm. unfold ad_statistic, bind.
  destruct (forM _ _ _) as [sum|e] eqn:E; [|discriminate].
  intro H.
  assert (H' : A2 = mask_assign
                      (amap (fun x => fsub (of_int (- Z.of_nat N)) (fdiv x (of_nat N))) sum)
                      mask (Fin 0))
    by (destruct dims; [discriminate H|now injection H]).
  clear H. subst A2 N.
  apply (ad_loop_entry g (List.length s) dims s [] (np_zeros dims) sum Hs
           (np_zeros_ok dims)) in E.
  destruct E as [[Ss Sl] Hk]. split.
  - split; cbn [shape data mask_assign amap]; auto.
    rewrite map2_length, length_map. lia.
  - intros k Hlt. rewrite mask_assign_entry.
    + destruct (nth k mask false); [reflexivity|].
      cbn [data amap].
      rewrite (nth_map_default _ _ k NaN NaN) by lia.
      unfold ad_value, ad_sum, enumerate. rewrite (Hk k Hlt).
      cbn [List.length]. rewrite column_length.
      cbn [np_zeros data]. rewrite nth_repeat_lt by exact Hlt. reflexivity.
    + cbn [data amap]. rewrite length_map. lia.
    + lia.
Qed.

End StatisticByCoordinate.

(** X6: what [AndersonDarling] returns, coordinate by coordinate.  The result
    has the shape of replicate 0's [destimated]; at a coordinate with a zero
    [destimated] it is 0, at any other it is [-N - S/N], [S] being the sum of
    lines 96-98 over the column of that coordinate in the result of
    [OrderReplicates], iteration [i = 0 .. N-1] taking entry [i] of the
    column with the weights [2i - 1] and [2(N - i) + 1]. *)
Theorem AndersonDarling_per_coordinate (numerics : Numerics) (g : globals)
    (r0 : replicate) (rest : list replicate) (K : nat)
    (st : list replicate) (A2 : ndarray) :
  well_formed (destimated r0) ->
  AndersonDarling g (r0 :: rest) K = (st, Ok A2) ->
  exists sortedyi,
    OrderReplicates g (r0 :: rest) K = (st, Ok sortedyi) /\
    row_ok (shape (destimated r0)) A2 /\
    forall k, (k < size (shape (destimated r0)))%nat ->
      nth k (data A2) NaN
      = if feq (nth k (data (destimated r0)) NaN) (Fin 0)
        then Fin 0
        else ad_value (List.length (r0 :: rest)) (column k sortedyi).
Proof.
  intros Hwf Hrun.
  assert (Hres : snd (AndersonDarling g (r0 :: rest) K) = Ok A2) by now rewrite Hrun.
  assert (Hst : fst (AndersonDarling g (r0 :: rest) K) = st) by now rewrite Hrun.
  rewrite AndersonDarling_result in Hres.
  unfold AndersonDarling in Hst.
  destruct (use_function g "OrderReplicates"); [|discriminate].
  destruct (OrderReplicates g (r0 :: rest) K) as [st' [s|e]] eqn:E; [|discriminate].
  cbn [snd] in Hres.
  assert (st' = st).
  { destruct st' as [|r0' rest']; [exact Hst|].
    destruct (use_module g "np" "numpy"); exact Hst. }
  subst st'. clear Hst.
  destruct (use_module g "np" "numpy"); [|discriminate].
  exists s. split; [reflexivity|].
  destruct (OrderReplicates_rows _ _ _ _ _ E) as (r0' & rest' & Heq & Hrows & HL).
  injection Heq as <- <-.
  apply ad_statistic_entry in Hres; auto.
  - destruct Hres as [Hok Hk]. split; [exact Hok|].
    intros k Hlt. rewrite (Hk k Hlt). rewrite zerosigma_entry; [reflexivity|].
    unfold well_formed in Hwf. lia.
  - unfold zerosigma_of. rewrite length_map. exact Hwf.
Qed.

Lemma AndersonDarling_per_coordinate_witness :
  exists sortedyi,
    OrderReplicates np_globals three_by_two 2 = (three_by_two, Ok sortedyi) /\
    row_ok [2%nat] (vec [Fin 0; Fin (493 # 90)]) /\
    forall k, (k < 2)%nat ->
      nth k (data (vec [Fin 0; Fin (493 # 90)])) NaN
      = if feq (nth k [Fin 0; Fin 1] NaN) (Fin 0)
        then Fin 0
        else ad_value (numerics := rational_numerics) 3 (column k sortedyi).
Proof.
  apply (AndersonDarling_per_coordinate rational_numerics np_globals
           (rep [Fin 1; Fin 2] [Fin 1; Fin 2] [Fin 0; Fin 1]) (tl three_by_two) 2).
  - reflexivity.
  - vm_compute. reflexivity.
Defined.

(** ** generateConfidenceIntervals: what the observed coverage counts *)

Lemma test_entry_Ok (error_label destimated_label : string) (replicate_index : nat)
    (replicate : replicate) (alpha : float) (e d : result float)
    (ab ab' : float * float) :
  snd (test_entry error_label destimated_label replicate_index replicate alpha e d ab)
  = Ok ab' ->
  exists ev dv, ab' = tally alpha ev dv ab.
Proof.
  unfold test_entry. destruct e as [ev|]; [|discriminate].
  change (lift (Ok ev)) with (ret ev). rewrite iobind_ret_l.
  destruct (isnan ev); [discriminate|].
  destruct d as [dv|]; [|discriminate].
  change (lift (Ok dv)) with (ret dv). rewrite iobind_ret_l.
  destruct (isnan dv); [discriminate|].
  cbn [ret snd]. intro H. injection H as <-. eauto.
Qed.

Lemma tally_counts (alpha e d : float) (a b : Q) :
  exists a' b',
    tally alpha e d (Fin a, Fin b) = (Fin a', Fin b') /\
    a <= a' /\ b <= b' /\ a' + b' == a + b + 1.
Proof.
  unfold tally. destruct (fle (fabs e) (fmul alpha d)); cbn [fadd lift2].
  - exists (Qred (a + 1)), b. split; [reflexivity|].
    pose proof (Qred_correct (a + 1)). repeat split; lra.
  - exists a, (Qred (b + 1)). split; [reflexivity|].
    pose proof (Qred_correct (b + 1)). repeat split; lra.
Qed.

Lemma for_io_counts (dim : nat) (alpha : float) (vs : list visit) (a b : Q)
    (ab' : float * float) :
  snd (for_io vs (visit_body dim alpha) (Fin a, Fin b)) = Ok ab' ->
  exists a' b',
    ab' = (Fin a', Fin b') /\ a <= a' /\ b <= b' /\
    a' + b' == a + b + inject_Z (Z.of_nat (List.length vs)).
Proof.
  revert a b. induction vs as [|v vs IH]; intros a b; cbn [for_io List.length].
  - cbn [ret snd]. intro H. injection H as <-. exists a, b.
    repeat split; try lra. change (inject_Z (Z.of_nat 0)) with 0. lra.
  - rewrite snd_iobind.
    destruct (snd (visit_body dim alpha (Fin a, Fin b) v)) as [ab1|] eqn:E; [|discriminate].
    destruct v as [[idx r] c]. unfold visit_body in E.
    apply test_entry_Ok in E. destruct E as (ev & dv & ->).
    destruct (tally_counts alpha ev dv a b) as (a1 & b1 & -> & Ha & Hb & Hs).
    intro H. apply IH in H. destruct H as (a' & b' & -> & Ha' & Hb' & Hs').
    exists a', b'. repeat split; try lra.
    rewrite Nat2Z.inj_succ, <- Z.add_1_r, inject_Z_plus.
    change (inject_Z 1) with 1. lra.
Qed.

Lemma length_flat_map_const {A B : Type} (h : A -> list B) (n : nat) (xs : list A) :
  (forall x, In x xs -> List.length (h x) = n) ->
  List.length (flat_map h xs) = (List.length xs * n)%nat.
Proof.
  induction xs as [|x xs IH]; intro H; cbn [flat_map List.length]; [reflexivity|].
  rewrite length_app, (H x (or_introl eq_refl)), IH; [lia|].
  intros y Hy. apply H. now right.
Qed.

Lemma length_pairs_below (K : nat) :
  (2 * List.length (flat_map (fun i => map (fun j => [i; j]) (seq 0 i)) (seq 0 K))
   = K * (K - 1))%nat.
Proof.
  induction K as [|K IH]; [reflexivity|].
  rewrite seq_S, flat_map_app, length_app. cbn [Nat.add flat_map].
  rewrite app_nil_r, length_map, length_seq. nia.
Qed.

Lemma length_coordinates (dim K : nat) :
  List.length (coordinates dim K) = tests_per_replicate dim K.
Proof.
  unfold coordinates, tests_per_replicate.
  destruct dim as [|[|[|dim]]]; try reflexivity.
  - now rewrite length_map, length_seq.
  - rewrite <- length_pairs_below.
    now rewrite Nat.mul_comm, Nat.div_mul.
Qed.

Lemma length_visits (dim K : nat) (replicates : list replicate) :
  List.length (visits dim K replicates)
  = (List.length replicates * tests_per_replicate dim K)%nat.
Proof.
  unfold visits. rewrite (length_flat_map_const _ (tests_per_replicate dim K)).
  - unfold enumerate. rewrite length_combine, length_seq. lia.
  - intros ir _. now rewrite length_map, length_coordinates.
Qed.

(** X8: the observed coverage is a smoothed fraction.  At every alpha of the
    grid, [Pobs = (1 + passes) / (2 + T)], where [T] is the number of tests
    of one sweep: the number of replicates times 1 for a scalar quantity,
    [K] for a per-state quantity and [K (K - 1) / 2] for a state-pair
    quantity (the pairs [j < i] only), and [passes] counts the tests that
    met the tolerance; so [Pobs] lies strictly between 0 and 1. *)
Theorem Pobs_counts_the_tests (numerics : Numerics) (g : globals)
    (r0 : replicate) (rest : list replicate) (K : nat)
    (out : list event) (returned : list ndarray) :
  generateConfidenceIntervals g (r0 :: rest) K = (out, Ok returned) ->
  exists Pobs,
    nth_error returned 1 = Some Pobs /\
    forall m, (m < nalpha)%nat ->
      exists p passes : Q,
        nth m (data Pobs) NaN = Fin p /\
        0 <= passes /\
        passes <= inject_Z (Z.of_nat (List.length (r0 :: rest)
                      * tests_per_replicate (List.length (shape (estimated r0))) K)) /\
        p == (1 + passes)
             / (2 + inject_Z (Z.of_nat (List.length (r0 :: rest)
                      * tests_per_replicate (List.length (shape (estimated r0))) K))) /\
        0 < p /\ p < 1.
Proof.
  intro Hrun.
  apply generateConfidenceIntervals_Ok in Hrun.
  destruct Hrun as (r0' & rest' & o & rows & s & ot & os & E & Hrows & Hsum & _ & _ & ->).
  injection E as <- <-.
  set (dim := List.length (shape (estimated r0))) in *.
  assert (Hdim : (dim <= 2)%nat).
  { destruct (Nat.le_gt_cases dim 2) as [H|H]; [exact H|].
    rewrite summary_statistics_unbound in Hsum by lia. discriminate. }
  apply map_io_Ok in Hrows. destruct Hrows as [HL Hrow].
  rewrite alpha_values_length in HL, Hrow.
  exists (vector (map row_Pobs rows)). split; [reflexivity|].
  unfold nalpha. intros m Hm. cbn [vector data].
  set (d := mkrow NaN NaN NaN NaN).
  rewrite (nth_map_default row_Pobs _ _ d NaN) by lia.
  pose proof (Hrow m NaN d Hm) as Rm.
  apply sweep_alpha_Pobs in Rm. destruct Rm as (ab & Cm & ->).
  rewrite count_alpha_visits in Cm by exact Hdim.
  apply for_io_counts in Cm. destruct Cm as (a & b & -> & Ha & Hb & Hs).
  rewrite length_visits in Hs.
  set (T := inject_Z (Z.of_nat (List.length (r0 :: rest) * tests_per_replicate dim K))) in *.
  assert (HT : 0 <= T).
  { unfold T. change 0 with (inject_Z 0). rewrite <- Zle_Qle. lia. }
  cbn [fst snd fadd lift2 fdiv].
  assert (En : Qeq_bool (Qred (a + b)) 0 = false).
  { destruct (Qeq_bool (Qred (a + b)) 0) eqn:En; auto.
    apply Qeq_bool_iff in En. rewrite Qred_correct in En. lra. }
  rewrite En.
  exists (Qred (a / Qred (a + b))), (a - 1).
  split; [reflexivity|]. split; [lra|]. split; [lra|].
  rewrite !Qred_correct.
  assert (Hpos : 0 < a + b) by lra.
  split; [|split].
  - rewrite Hs. apply Qdiv_comp; [ring|ring].
  - apply Qlt_shift_div_l; [exact Hpos|]. lra.
  - apply Qlt_shift_div_r; [exact Hpos|]. lra.
Qed.

Lemma Pobs_counts_the_tests_witness :
  exists out returned Pobs,
    generateConfidenceIntervals (numerics := rational_numerics) module_globals scalar_three 0
    = (out, Ok returned) /\
    nth_error returned 1 = Some Pobs /\
    exists p passes : Q,
      nth 19 (data Pobs) NaN = Fin p /\ 0 <= passes /\ passes <= 3 /\
      p == (1 + passes) / (2 + 3) /\ 0 < p /\ p < 1.
Proof.
  destruct (generateConfidenceIntervals (numerics := rational_numerics)
              module_globals scalar_three 0) as [out [returned|e]] eqn:E.
  - destruct (Pobs_counts_the_tests rational_numerics module_globals
                (mkrep (scalar (Fin 1)) (scalar (Fin (1 # 2))) (scalar (Fin 1)))
                (tl scalar_three) 0 out returned E) as (Pobs & H1 & H2).
    exists out, returned, Pobs. split; [reflexivity|]. split; [exact H1|].
    exact (H2 19%nat ltac:(unfold nalpha; lia)).
  - exfalso. vm_compute in E. discriminate E.
Defined.

(** ** generateConfidenceIntervals: what the returned tuple depends on *)

Lemma for_io_Forall2 {A B S : Type} (R : A -> B -> Prop) (xs : list A) (ys : list B)
    (body : S -> A -> io S) (body' : S -> B -> io S) (acc : S) :
  Forall2 R xs ys ->
  (forall s x y, R x y -> body s x = body' s y) ->
  for_io xs body acc = for_io ys body' acc.
Proof.
  intros H Hb. revert acc. induction H as [|x y xs ys Hxy _ IH]; intro acc; cbn [for_io].
  - reflexivity.
  - rewrite (Hb acc x y Hxy). apply iobind_ext. exact IH.
Qed.

Lemma Forall2_enumerate {A B : Type} (R : A -> B -> Prop) (l : list A) (l' : list B)
    (a : nat) :
  Forall2 R l l' ->
  Forall2 (fun p p' => fst p = fst p' /\ R (snd p) (snd p'))
    (combine (seq a (List.length l)) l) (combine (seq a (List.length l')) l').
Proof.
  intro H. revert a. induction H as [|x y l l' Hxy _ IH]; intro a;
    cbn [List.length seq combine]; constructor; auto.
Qed.

Lemma map_io_ext {A B : Type} (f f' : A -> io B) (xs : list A) :
  (forall x, f x = f' x) -> map_io f xs = map_io f' xs.
Proof.
  intro H. induction xs as [|x xs IH]; cbn [map_io]; [reflexivity|].
  now rewrite H, IH.
Qed.

Section SameTests.

Context {numerics : Numerics}.

Lemma sweep_alpha_same_tests (g : globals) (dim K : nat)
    (replicates replicates' : list replicate) (alpha : float) :
  Forall2 same_tests replicates replicates' ->
  sweep_alpha g dim K replicates alpha = sweep_alpha g dim K replicates' alpha.
Proof.
  intro H. unfold sweep_alpha, count_alpha, enumerate. f_equal.
  apply (for_io_Forall2 (fun p p' => fst p = fst p' /\ same_tests (snd p) (snd p'))).
  - now apply Forall2_enumerate.
  - intros ab [i r] [i' r'] [Hi [He Hd]]. cbn [fst snd] in Hi, He, Hd. subst i'.
    unfold sweep_replicate, test_entry, report_nan. now rewrite He, Hd.
Qed.

End SameTests.

(** X9: the tuple [generateConfidenceIntervals] returns does not depend on
    the estimates.  Two replicate sets with the same [error] and
    [destimated] arrays, whose [estimated] arrays have the same number of
    dimensions, give the same six arrays whenever both calls return. *)
Theorem coverage_ignores_estimates (numerics : Numerics) (g : globals)
    (r0 r0' : replicate) (rest rest' : list replicate) (K : nat)
    (out out' : list event) (returned returned' : list ndarray) :
  Forall2 same_tests (r0 :: rest) (r0' :: rest') ->
  List.length (shape (estimated r0)) = List.length (shape (estimated r0')) ->
  generateConfidenceIntervals g (r0 :: rest) K = (out, Ok returned) ->
  generateConfidenceIntervals g (r0' :: rest') K = (out', Ok returned') ->
  returned = returned'.
Proof.
  intros Hsame Hdim Hrun Hrun'.
  apply generateConfidenceIntervals_Ok in Hrun.
  destruct Hrun as (x & xs & o & rows & s & ot & os & E & Hrows & _ & _ & _ & ->).
  injection E as <- <-.
  apply generateConfidenceIntervals_Ok in Hrun'.
  destruct Hrun' as (x & xs & o' & rows' & s' & ot' & os' & E & Hrows' & _ & _ & _ & ->).
  injection E as <- <-.
  rewrite <- Hdim in Hrows'.
  rewrite (map_io_ext _ (sweep_alpha g (List.length (shape (estimated r0))) K (r0' :: rest')))
    in Hrows.
  - rewrite Hrows in Hrows'. injection Hrows' as _ <-. reflexivity.
  - intro alpha. now apply sweep_alpha_same_tests.
Qed.

Lemma coverage_ignores_estimates_witness :
  exists out out' returned,
    generateConfidenceIntervals (numerics := rational_numerics) module_globals
      scalar_three 0 = (out, Ok returned) /\
    generateConfidenceIntervals (numerics := rational_numerics) module_globals
      (map (fun r => mkrep (scalar (Fin 7)) (error r) (destimated r)) scalar_three) 0
    = (out', Ok returned).
Proof.
  destruct (generateConfidenceIntervals (numerics := rational_numerics) module_globals
              scalar_three 0) as [out [returned|e]] eqn:E;
    [|exfalso; vm_compute in E; discriminate E].
  destruct (generateConfidenceIntervals (numerics := rational_numerics) module_globals
              (map (fun r => mkrep (scalar (Fin 7)) (error r) (destimated r)) scalar_three) 0)
    as [out' [returned'|e]] eqn:E';
    [|exfalso; vm_compute in E'; discriminate E'].
  exists out, out', returned. split; [reflexivity|].
  f_equal. f_equal. symmetry.
  apply (coverage_ignores_estimates rational_numerics module_globals
           (mkrep (scalar (Fin 1)) (scalar (Fin (1 # 2))) (scalar (Fin 1)))
           (mkrep (scalar (Fin 7)) (scalar (Fin (1 # 2))) (scalar (Fin 1)))
           (tl scalar_three)
           (map (fun r => mkrep (scalar (Fin 7)) (error r) (destimated r)) (tl scalar_three))
           0 out out' returned returned').
  - repeat constructor.
  - reflexivity.
  - exact E.
  - exact E'.
Defined.

(** ** generateConfidenceIntervals: the summary statistics *)

Lemma assign_replicate_eq (s : list nat) (rindex : nat) (r : replicate) (v : triple) :
  replicate_ok s r -> assign_replicate s rindex r v = Ok (assigned rindex r v).
Proof.
  intros ((H1 & _) & (H2 & _) & (H3 & _)). destruct v as [[vals vals_error] vals_std].
  unfold assign_replicate, assign_slice. rewrite H1, H2, H3.
  replace (shape_eqb s s) with true by (symmetry; now apply shape_eqb_eq).
  reflexivity.
Qed.

Lemma set_nth_idem {A : Type} (k : nat) (v : A) (l : list A) :
  set_nth k v (set_nth k v l) = set_nth k v l.
Proof.
  revert k. induction l as [|x l IH]; intros [|k]; cbn [set_nth]; auto.
  now rewrite IH.
Qed.

Lemma assigned_idem (rindex : nat) (r : replicate) (v : triple) :
  assigned rindex r (assigned rindex r v) = assigned rindex r v.
Proof. destruct v as [[a b] c]. cbn [assigned]. now rewrite !set_nth_idem. Qed.

Lemma fold_left_idem {A T : Type} (f : T -> T) (l : list A) (v : T) :
  (forall v, f (f v) = f v) ->
  fold_left (fun v _ => f v) l v = match l with [] => v | _ => f v end.
Proof.
  intro H. destruct l as [|x l]; [reflexivity|]. cbn [fold_left].
  induction l as [|y l IH]; cbn [fold_left]; [reflexivity|]. now rewrite H.
Qed.

Lemma populate_replicate_eq (K : nat) (s : list nat) (v : triple) (rindex : nat)
    (r : replicate) :
  model_shape K s -> replicate_ok s r ->
  populate_replicate (List.length s) K s v (rindex, r)
  = Ok (if populated (List.length s) K then assigned rindex r v else v).
Proof.
  intros Hs Hr. unfold populate_replicate, populated.
  destruct Hs as [->|[->| ->]]; cbn [List.length].
  - now apply assign_replicate_eq.
  - rewrite (forM_fold (fun v _ => assigned rindex r v))
      by (intros; now apply assign_replicate_eq).
    rewrite fold_left_idem by apply assigned_idem.
    destruct K; reflexivity.
  - rewrite (forM_fold (fun v i => fold_left (fun v _ => assigned rindex r v) (seq 0 i) v)).
    + rewrite (fold_left_flat_map (fun v (_ : nat) => assigned rindex r v)
                 (fun i => seq 0 i)).
      rewrite fold_left_idem by apply assigned_idem.
      destruct K as [|[|K]]; reflexivity.
    + intros v0 i _. apply forM_fold. intros; now apply assign_replicate_eq.
Qed.

Lemma set_nth_middle {A : Type} (x y : A) (pre post : list A) :
  set_nth (List.length pre) x (pre ++ y :: post) = pre ++ x :: post.
Proof. induction pre as [|p pre IH]; cbn [List.length app set_nth]; auto. now rewrite IH. Qed.

Lemma fold_assigned (z : ndarray) (l : list replicate) (p1 p2 p3 : list ndarray) :
  List.length p2 = List.length p1 -> List.length p3 = List.length p1 ->
  fold_left (fun v ir => assigned (fst ir) (snd ir) v)
    (combine (seq (List.length p1) (List.length l)) l)
    (p1 ++ repeat z (List.length l), p2 ++ repeat z (List.length l),
     p3 ++ repeat z (List.length l))
  = (p1 ++ map estimated l, p2 ++ map error l, p3 ++ map destimated l).
Proof.
  revert p1 p2 p3. induction l as [|r l IH]; intros p1 p2 p3 H2 H3;
    cbn [List.length seq combine fold_left repeat map]; [reflexivity|].
  cbn [assigned fst snd].
  assert (E2 : forall x : ndarray,
             set_nth (List.length p1) x (p2 ++ z :: repeat z (List.length l))
             = p2 ++ x :: repeat z (List.length l))
    by (intro x; rewrite <- H2; apply set_nth_middle).
  assert (E3 : forall x : ndarray,
             set_nth (List.length p1) x (p3 ++ z :: repeat z (List.length l))
             = p3 ++ x :: repeat z (List.length l))
    by (intro x; rewrite <- H3; apply set_nth_middle).
  rewrite set_nth_middle, E2, E3. clear E2 E3.
  change (?p ++ ?x :: ?q) with (p ++ [x] ++ q). rewrite !app_assoc.
  replace (S (List.length p1)) with (List.length (p1 ++ [estimated r]))
    by (rewrite length_app; cbn [List.length]; lia).
  apply IH; rewrite !length_app; cbn [List.length]; lia.
Qed.

Section SummaryLoop.

Context {numerics : Numerics}.

(** Lines 278-309 leave in [vals], [vals_error] and [vals_std] the arrays of
    the replicates, or the zeros of the allocation. *)
Lemma summary_statistics_loop (K : nat) (s : list nat) (replicates : list replicate) :
  model_shape K s -> Forall (replicate_ok s) replicates ->
  summary_statistics (List.length s) K replicates
  = summarize s (collected s (List.length s) K replicates).
Proof.
  intros Hs Hok. unfold summary_statistics.
  assert (Hv : vals_shape (List.length s) K = Some s)
    by (destruct Hs as [->|[->| ->]]; reflexivity).
  rewrite Hv.
  assert (Hbody : forall v ir, In ir (enumerate replicates) ->
            populate_replicate (List.length s) K s v ir
            = Ok (if populated (List.length s) K
                  then assigned (fst ir) (snd ir) v else v)).
  { intros v [rindex r] Hin. unfold enumerate in Hin. apply in_combine_r in Hin.
    rewrite Forall_forall in Hok. cbn [fst snd].
    apply populate_replicate_eq; auto. }
  unfold collected. destruct (populated (List.length s) K).
  - rewrite (forM_fold (fun v ir => assigned (fst ir) (snd ir) v)) by exact Hbody.
    unfold enumerate.
    pose proof (fold_assigned (np_zeros s) replicates [] [] [] eq_refl eq_refl) as E.
    cbn [app List.length] in E. rewrite E. reflexivity.
  - rewrite (forM_fold (fun v _ => v)) by exact Hbody.
    replace (fold_left _ _ _) with
      (repeat (np_zeros s) (List.length replicates),
       repeat (np_zeros s) (List.length replicates),
       repeat (np_zeros s) (List.length replicates)); [reflexivity|].
    generalize (repeat (np_zeros s) (List.length replicates)) as z.
    generalize (enumerate replicates) as l.
    induction l as [|x l IH]; intro z; cbn [fold_left]; auto.
Qed.

End SummaryLoop.

(** X10: the summary statistics of lines 278-318 on a replicate set of the
    data model.  When a slice of [vals] holds no element (a vector or a
    matrix over [K = 0] states), line 311 raises ZeroDivisionError.
    Otherwise the five arrays are, where the loops around the assignments
    run (always for a scalar, with one state or more for a vector, with two
    states or more for a matrix), the statistics, over the replicates, of
    the complete [estimated], [error] and [destimated] arrays, entry by
    entry, and else (a matrix over one state) the statistics of the zeros
    allocated in lines 279-290. *)
Theorem summary_statistics_collects (numerics : Numerics) (K : nat) (s : list nat)
    (replicates : list replicate) :
  model_shape K s -> Forall (replicate_ok s) replicates ->
  summary_statistics (List.length s) K replicates
  = if (size s =? 0)%nat
    then Err ZeroDivisionError
    else Ok (summary_of s (collected s (List.length s) K replicates)).
Proof.
  intros Hs Hok. rewrite (summary_statistics_loop K s replicates Hs Hok).
  destruct (Nat.eqb_spec (size s) 0) as [H|H].
  - now apply summarize_empty.
  - now apply summarize_Ok.
Qed.

Lemma summary_statistics_collects_witness :
  summary_statistics (numerics := rational_numerics) 2 2 one_pair_matrix
  = Ok (summary_of (numerics := rational_numerics) [2; 2]%nat
          (map estimated one_pair_matrix, map error one_pair_matrix,
           map destimated one_pair_matrix)) /\
  summary_statistics (numerics := rational_numerics) 1 0 [rep [] [] []]
  = Err ZeroDivisionError.
Proof.
  split.
  - apply (summary_statistics_collects rational_numerics 2 [2; 2]%nat one_pair_matrix).
    + right. right. reflexivity.
    + repeat constructor.
  - apply (summary_statistics_collects rational_numerics 0 [0]%nat [rep [] [] []]).
    + right. left. reflexivity.
    + repeat constructor.
Defined.

(** ** generateConfidenceIntervals: normal returns and what they print *)

Section CleanTests.

Context {numerics : Numerics}.

Lemma sweep_alpha_returns_clean (g : globals) (dim K : nat)
    (replicates : list replicate) (alpha : float) :
  use_module g "numpy" "numpy" = Ok tt -> use_module g "scipy" "scipy" = Ok tt ->
  (dim <= 2)%nat ->
  Forall (fun v => classify v = Clean) (visits dim K replicates) ->
  exists row, sweep_alpha g dim K replicates alpha = ret row.
Proof.
  intros Hnp Hsp Hdim Hclean. unfold sweep_alpha.
  rewrite count_alpha_visits by exact Hdim.
  destruct (for_io_all_clean dim alpha _ (Fin 1, Fin 1) Hclean) as [[a b] ->].
  rewrite iobind_ret_l, Hsp, Hnp.
  change (lift (Ok tt)) with (ret tt). rewrite !iobind_ret_l. eauto.
Qed.

End CleanTests.

(** X11: the NaN screen of the sweep covers the tested entries only.  With
    [numpy] and [scipy] bound, on a replicate set of the data model (a
    vector or a matrix quantity having at least one state),
    [generateConfidenceIntervals] returns as soon as the entries the sweep
    tests hold no NaN; a NaN in the estimates, or on or above the diagonal
    of a matrix of errors or standard errors, is not noticed. *)
Theorem returns_when_the_tests_are_clean (numerics : Numerics) (g : globals) (K : nat)
    (s : list nat) (replicates : list replicate) :
  use_module g "numpy" "numpy" = Ok tt ->
  use_module g "scipy" "scipy" = Ok tt ->
  valid_replicates K s replicates ->
  Forall (fun v => classify v = Clean) (visits (List.length s) K replicates) ->
  s = [] \/ (1 <= K)%nat ->
  exists out returned, generateConfidenceIntervals g replicates K = (out, Ok returned).
Proof.
  intros Hnp Hsp (Hne & Hs & Hok) Hclean HK.
  destruct replicates as [|r0 rest]; [congruence|].
  assert (Hdim : List.length (shape (estimated r0)) = List.length s).
  { inversion Hok as [|? ? ((H & _) & _) _]. now rewrite H. }
  change (succeeds (generateConfidenceIntervals g (r0 :: rest) K)).
  unfold generateConfidenceIntervals.
  eapply succeeds_bind; [apply print_all_run|].
  rewrite Hnp, Hsp. rewrite Hdim.
  eapply succeeds_bind; [reflexivity|].
  eapply succeeds_bind; [reflexivity|].
  destruct (map_io_total (sweep_alpha g (List.length s) K (r0 :: rest)) alpha_values)
    as [rows Hrows].
  { intro alpha. apply sweep_alpha_returns_clean; auto. now apply (model_shape_dim K). }
  eapply succeeds_bind; [exact Hrows|].
  eapply succeeds_bind; [reflexivity|].
  eapply succeeds_bind; [reflexivity|].
  eapply succeeds_bind; [reflexivity|].
  eapply succeeds_bind; [apply print_all_run|].
  destruct (summary_statistics_returns K s (r0 :: rest) Hs (model_size K s Hs HK) Hok) as (sm & Hsm & Hshape).
  rewrite Hsm.
  eapply succeeds_bind; [reflexivity|].
  destruct (report_summary_returns K s sm Hs HK Hshape) as (o & [] & Hrep).
  eapply succeeds_bind; [exact Hrep|].
  apply succeeds_ret.
Qed.

Lemma returns_when_the_tests_are_clean_witness :
  exists out returned,
    generateConfidenceIntervals (numerics := rational_numerics) module_globals
      nan_off_the_tests 2 = (out, Ok returned).
Proof.
  apply (returns_when_the_tests_are_clean rational_numerics module_globals 2
           [2; 2]%nat nan_off_the_tests).
  - reflexivity.
  - reflexivity.
  - split; [discriminate|]. split; [right; right; reflexivity|].
    repeat constructor.
  - repeat constructor.
  - right. lia.
Defined.

Section Output.

Context {numerics : Numerics}.

Lemma test_entry_silent (error_label destimated_label : string) (replicate_index : nat)
    (replicate : replicate) (alpha : float) (e d : result float)
    (ab ab' : float * float) (o : list event) :
  test_entry error_label destimated_label replicate_index replicate alpha e d ab
  = (o, Ok ab') -> o = [].
Proof.
  unfold test_entry. destruct e as [ev|]; [|discriminate].
  change (lift (Ok ev)) with (ret ev). rewrite iobind_ret_l.
  destruct (isnan ev); [discriminate|].
  destruct d as [dv|]; [|discriminate].
  change (lift (Ok dv)) with (ret dv). rewrite iobind_ret_l.
  destruct (isnan dv); [discriminate|].
  unfold ret. intro H. now injection H.
Qed.

Lemma for_io_silent {A S : Type} (xs : list A) (body : S -> A -> io S) (acc r : S)
    (o : list event) :
  (forall s x o' s', body s x = (o', Ok s') -> o' = []) ->
  for_io xs body acc = (o, Ok r) -> o = [].
Proof.
  intro Hb. revert acc o. induction xs as [|x xs IH]; intros acc o H; cbn [for_io] in H.
  - unfold ret in H. now injection H.
  - apply iobind_Ok in H. destruct H as (o1 & a & o2 & H1 & H2 & ->).
    apply Hb in H1. apply IH in H2. now subst.
Qed.

Lemma map_io_silent {A B : Type} (f : A -> io B) (xs : list A) (bs : list B)
    (o : list event) :
  (forall x o' b, f x = (o', Ok b) -> o' = []) ->
  map_io f xs = (o, Ok bs) -> o = [].
Proof.
  intro Hf. revert bs o. induction xs as [|x xs IH]; intros bs o H; cbn [map_io] in H.
  - unfold ret in H. now injection H.
  - apply iobind_Ok in H. destruct H as (o1 & b & o2 & H1 & H2 & ->).
    apply iobind_Ok in H2. destruct H2 as (o3 & bs' & o4 & H3 & H4 & ->).
    apply Hf in H1. apply IH in H3. unfold ret in H4. injection H4 as <- _.
    now subst.
Qed.

(** A sweep that ends normally printed nothing. *)
Lemma sweep_alpha_silent (g : globals) (dim K : nat) (replicates : list replicate)
    (alpha : float) (o : list event) (row : sweep_row) :
  sweep_alpha g dim K replicates alpha = (o, Ok row) -> o = [].
Proof.
  unfold sweep_alpha. intro H.
  apply iobind_Ok in H. destruct H as (o1 & [a b] & o2 & H1 & H2 & ->).
  apply iobind_Ok in H2. destruct H2 as (o3 & [] & o4 & H3 & H4 & ->).
  apply iobind_Ok in H4. destruct H4 as (o5 & [] & o6 & H5 & H6 & ->).
  unfold lift in H3, H5. injection H3 as <- _. injection H5 as <- _.
  unfold ret in H6. injection H6 as <- _.
  cbn [app]. rewrite app_nil_r.
  unfold count_alpha in H1. revert H1. apply for_io_silent.
  intros ab [idx r] o' ab'. unfold sweep_replicate.
  destruct dim as [|[|[|dim]]].
  - apply test_entry_silent.
  - apply for_io_silent. intros ? ? ? ?. apply test_entry_silent.
  - apply for_io_silent. intros ? ? ? ?. apply for_io_silent.
    intros ? ? ? ?. apply test_entry_silent.
  - unfold ret. intro H. now injection H.
Qed.

(** The summary arrays have the element shape of the allocation. *)
Lemma summary_statistics_shape (dim K : nat) (replicates : list replicate) (sm : summary) :
  summary_statistics dim K replicates = Ok sm ->
  exists s, vals_shape dim K = Some s /\ summary_ok s sm.
Proof.
  unfold summary_statistics.
  destruct (forM _ _ _) as [[[vals ve] vs]|]; [|discriminate]. cbn [bind].
  destruct (vals_shape dim K) as [s|]; [|discriminate].
  intro H. exists s. split; [reflexivity|].
  destruct (Nat.eq_dec (size s) 0) as [Hz|Hz].
  - rewrite summarize_empty in H by exact Hz. discriminate H.
  - rewrite summarize_Ok in H by exact Hz. injection H as <-.
    unfold summary_ok. cbn [summary_of aveval bias rms_error standarddev ave_std].
    repeat split; try apply mean0_ok;
      try (apply amap_ok; apply mean0_ok);
      cbn [std0 shape data]; auto; now rewrite length_map, length_seq.
Qed.

Lemma pick_values (f : ndarray -> result float) (sm : summary) (i : nat) :
  f (aveval sm) = Ok (nth i (data (aveval sm)) NaN) ->
  f (bias sm) = Ok (nth i (data (bias sm)) NaN) ->
  f (rms_error sm) = Ok (nth i (data (rms_error sm)) NaN) ->
  f (standarddev sm) = Ok (nth i (data (standarddev sm)) NaN) ->
  f (ave_std sm) = Ok (nth i (data (ave_std sm)) NaN) ->
  pick f sm = Ok (summary_values sm i).
Proof. intros H1 H2 H3 H4 H5. unfold pick. now rewrite H1, H2, H3, H4, H5. Qed.

Lemma item0_value (a : ndarray) : row_ok [] a -> item0 a = Ok (nth 0 (data a) NaN).
Proof.
  intros [Hs Hl]. unfold item0. rewrite Hs. cbn [size fold_right] in Hl.
  now destruct (data a) as [|x [|y l]].
Qed.

Lemma item1_value (K i : nat) (a : ndarray) :
  row_ok [K] a -> (i < K)%nat -> item1 a i = Ok (nth i (data a) NaN).
Proof.
  intros [Hs Hl] Hi. unfold item1. rewrite Hs. cbn [size fold_right] in Hl.
  destruct (Nat.ltb_spec i K); [|lia].
  destruct (nth_error (data a) i) eqn:E.
  - now rewrite (nth_error_nth _ _ _ E).
  - apply nth_error_None in E. lia.
Qed.

Lemma item2_value (K i : nat) (a : ndarray) :
  row_ok [K; K] a -> (i < K)%nat -> item2 a 0 i = Ok (nth i (data a) NaN).
Proof.
  intros [Hs Hl] Hi. unfold item2. rewrite Hs. cbn [size fold_right] in Hl.
  destruct (Nat.ltb_spec 0 K); [|lia].
  destruct (Nat.ltb_spec i K); [|lia]. cbn [andb Nat.mul Nat.add].
  destruct (nth_error (data a) i) eqn:E.
  - now rewrite (nth_error_nth _ _ _ E).
  - apply nth_error_None in E. nia.
Qed.

Lemma last_default {A : Type} (x : A) (l : list A) (d d' : A) :
  last (x :: l) d = last (x :: l) d'.
Proof.
  revert x. induction l as [|y l IH]; intro x; [reflexivity|].
  change (last (y :: l) d = last (y :: l) d'). apply IH.
Qed.

(** The loop of lines 331-337 (339-345): one line per state, the last
    values read being kept. *)
Lemma summary_rows (f : nat -> ndarray -> result float) (sm : summary) (xs : list nat)
    (acc : option five) :
  (forall i, In i xs -> pick (f i) sm = Ok (summary_values sm i)) ->
  for_io xs
    (fun _ i => (p <- lift (pick (f i) sm) ;; print_summary i p ;; ret (Some p))%io) acc
  = (map (summary_line sm) xs,
     Ok (last (map (fun i => Some (summary_values sm i)) xs) acc)).
Proof.
  revert acc. induction xs as [|i xs IH]; intros acc H; cbn [for_io map].
  - reflexivity.
  - rewrite (H i (or_introl eq_refl)).
    change (lift (Ok (summary_values sm i))) with (ret (summary_values sm i)).
    rewrite iobind_ret_l, iobind_assoc.
    assert (E : print_summary i (summary_values sm i) = ([summary_line sm i], Ok tt)).
    { unfold print_summary, summary_line.
      now destruct (summary_values sm i) as [[[[p1 p2] p3] p4] p5]. }
    rewrite E, iobind_run, iobind_ret_l.
    rewrite IH by (intros j Hj; apply H; now right).
    cbn [fst snd app]. f_equal. f_equal.
    destruct xs as [|j xs]; [reflexivity|].
    cbn [map]. symmetry.
    change (last (Some (summary_values sm j)
                  :: map (fun i0 => Some (summary_values sm i0)) xs) acc
            = last (Some (summary_values sm j)
                    :: map (fun i0 => Some (summary_values sm i0)) xs)
                (Some (summary_values sm i))).
    apply last_default.
Qed.

Lemma report_summary_output (dim K : nat) (s : list nat) (sm : summary) (o : list event) :
  vals_shape dim K = Some s -> summary_ok s sm ->
  report_summary dim K sm = (o, Ok tt) ->
  o = summary_heading ++ map (summary_line sm) (printed_states dim K)
      ++ [totals_line sm (totals_state dim K)].
Proof.
  intros Hs (H1 & H2 & H3 & H4 & H5) Hrun. unfold report_summary in Hrun.
  unfold print in Hrun at 1 2 3. rewrite !iobind_run in Hrun. cbn [fst snd] in Hrun.
  destruct dim as [|[|[|dim]]]; cbn [vals_shape] in Hs; try discriminate;
    injection Hs as <-; cbn [printed_states totals_state].
  - rewrite (pick_values item0 sm 0) in Hrun by (now apply item0_value).
    change (lift (Ok (summary_values sm 0))) with (ret (summary_values sm 0)) in Hrun.
    rewrite !iobind_ret_l in Hrun. unfold totals_line.
    destruct (summary_values sm 0) as [[[[p1 p2] p3] p4] p5].
    cbn [print fst snd app] in Hrun. injection Hrun as <-. reflexivity.
  - rewrite (summary_rows (fun i a => item1 a i)) in Hrun.
    + rewrite iobind_run in Hrun. cbn [fst snd] in Hrun.
      destruct K as [|K].
      * cbn [seq map last] in Hrun. discriminate.
      * replace (last (map (fun i => Some (summary_values sm i)) (seq 0 (S K))) None)
          with (Some (summary_values sm K)) in Hrun.
        -- unfold totals_line. replace (S K - 1)%nat with K by lia.
           destruct (summary_values sm K) as [[[[p1 p2] p3] p4] p5].
           cbn [print fst snd app] in Hrun. injection Hrun as <-.
           cbn [summary_heading app]. reflexivity.
        -- rewrite seq_S, map_app. cbn [map]. rewrite last_last. reflexivity.
    + intros i Hi. apply in_seq in Hi.
      apply pick_values; apply (item1_value K); auto; lia.
  - rewrite (summary_rows (fun i a => item2 a 0 i)) in Hrun.
    + rewrite iobind_run in Hrun. cbn [fst snd] in Hrun.
      destruct K as [|K].
      * cbn [seq map last] in Hrun. discriminate.
      * replace (last (map (fun i => Some (summary_values sm i)) (seq 0 (S K))) None)
          with (Some (summary_values sm K)) in Hrun.
        -- unfold totals_line. replace (S K - 1)%nat with K by lia.
           destruct (summary_values sm K) as [[[[p1 p2] p3] p4] p5].
           cbn [print fst snd app] in Hrun. injection Hrun as <-.
           cbn [summary_heading app]. reflexivity.
        -- rewrite seq_S, map_app. cbn [map]. rewrite last_last. reflexivity.
    + intros i Hi. apply in_seq in Hi.
      apply pick_values; apply (item2_value K); auto; lia.
Qed.

End Output.

(** X12: everything a call of [generateConfidenceIntervals] that returns has
    printed, in order: the fifteen lines of the preamble; nothing during
    the sweep; the two headings and the forty lines of the table; the three
    lines heading the summary; for a vector or a matrix quantity one line
    per state [i < K], read at [i] in the five summary arrays (at [0, i] for
    a matrix: the first row only); and the "Totals" line, which repeats
    the values of the last of these lines (for a scalar, the five
    scalars). *)
Theorem output_of_a_normal_run (numerics : Numerics) (g : globals)
    (r0 : replicate) (rest : list replicate) (K : nat)
    (out : list event) (returned : list ndarray) :
  generateConfidenceIntervals g (r0 :: rest) K = (out, Ok returned) ->
  exists rows sm,
    summary_statistics (List.length (shape (estimated r0))) K (r0 :: rest) = Ok sm /\
    returned = returned_tuple rows /\
    List.length (coverage_lines alpha_values rows Pnorm_values) = nalpha /\
    out = preamble ++ table_heading
          ++ coverage_lines alpha_values rows Pnorm_values
          ++ summary_heading
          ++ map (summary_line sm) (printed_states (List.length (shape (estimated r0))) K)
          ++ [totals_line sm (totals_state (List.length (shape (estimated r0))) K)].
Proof.
  unfold generateConfidenceIntervals. intro H.
  set (dim := List.length (shape (estimated r0))) in *.
  apply iobind_Ok in H. destruct H as (o1 & [] & o1' & H1 & H & ->).
  rewrite print_all_run in H1. injection H1 as <-.
  apply iobind_Ok in H. destruct H as (o2 & [] & o2' & H2 & H & ->).
  unfold lift in H2. injection H2 as <- _.
  apply iobind_Ok in H. destruct H as (o3 & dim' & o3' & H3 & H & ->).
  unfold ret in H3. injection H3 as <- <-. fold dim in H.
  apply iobind_Ok in H. destruct H as (o4 & rows & o4' & H4 & H & ->).
  apply iobind_Ok in H. destruct H as (o5 & [] & o5' & H5 & H & ->).
  unfold print in H5. injection H5 as <-.
  apply iobind_Ok in H. destruct H as (o6 & [] & o6' & H6 & H & ->).
  unfold print in H6. injection H6 as <-.
  apply iobind_Ok in H. destruct H as (o7 & [] & o7' & H7 & H & ->).
  unfold lift in H7. injection H7 as <- _.
  apply iobind_Ok in H. destruct H as (o8 & [] & o8' & H8 & H & ->).
  rewrite print_all_run in H8.
  assert (E8 : coverage_lines alpha_values rows Pnorm_values = o8)
    by (unfold Pnorm_values; congruence).
  subst o8. clear H8.
  apply iobind_Ok in H. destruct H as (o9 & sm & o9' & H9 & H & ->).
  unfold lift in H9. injection H9 as <- H9.
  apply iobind_Ok in H. destruct H as (o10 & [] & o10' & H10 & H & ->).
  unfold ret in H. injection H as <- <-.
  exists rows, sm. split; [exact H9|]. split; [reflexivity|].
  assert (Ho4 : o4 = []).
  { revert H4. apply map_io_silent. intros alpha o' row. apply sweep_alpha_silent. }
  assert (HL : List.length rows = nalpha).
  { apply map_io_Ok in H4. destruct H4 as [HL _]. now rewrite HL, alpha_values_length. }
  destruct (summary_statistics_shape _ _ _ _ H9) as (s & Hs & Hok).
  rewrite (report_summary_output dim K s sm o10 Hs Hok H10).
  subst o4. split.
  - clear - HL.
    assert (Ha : List.length alpha_values = nalpha) by apply alpha_values_length.
    assert (Hp : List.length Pnorm_values = nalpha).
    { unfold Pnorm_values. now rewrite length_map. }
    revert Ha Hp HL. generalize Pnorm_values as ps. generalize alpha_values as al.
    generalize nalpha as n. intros n al. revert n rows.
    induction al as [|a al IH]; intros n rows ps Ha Hp HL; cbn [List.length] in Ha; subst n.
    + reflexivity.
    + destruct rows as [|r rows]; [discriminate|]. destruct ps as [|p ps]; [discriminate|].
      cbn [coverage_lines List.length]. f_equal.
      apply IH; cbn [List.length] in *; lia.
  - unfold table_heading.
    rewrite ?app_nil_r, <- ?app_assoc. reflexivity.
Qed.

Lemma output_of_a_normal_run_witness :
  exists out returned rows sm,
    generateConfidenceIntervals (numerics := rational_numerics) module_globals
      three_by_two 2 = (out, Ok returned) /\
    summary_statistics (numerics := rational_numerics) 1 2 three_by_two = Ok sm /\
    returned = returned_tuple (numerics := rational_numerics) rows /\
    out = preamble ++ table_heading
          ++ coverage_lines alpha_values rows (Pnorm_values (numerics := rational_numerics))
          ++ summary_heading
          ++ [summary_line sm 0; summary_line sm 1; totals_line sm 1].
Proof.
  destruct (generateConfidenceIntervals (numerics := rational_numerics) module_globals
              three_by_two 2) as [out [returned|e]] eqn:E;
    [|exfalso; vm_compute in E; discriminate E].
  destruct (output_of_a_normal_run rational_numerics module_globals
              (rep [Fin 1; Fin 2] [Fin 1; Fin 2] [Fin 0; Fin 1]) (tl three_by_two) 2
              out returned E) as (rows & sm & H1 & H2 & _ & H4).
  exists out, returned, rows, sm. repeat split; assumption.
Defined.

(** ** generateConfidenceIntervals and the others: edges of the input *)

Section NoStates.

Context {numerics : Numerics}.

Lemma sweep_alpha_no_states (dim : nat) (replicates : list replicate) (alpha : float) :
  (1 <= dim)%nat ->
  sweep_alpha module_globals dim 0 replicates alpha = ret untested_row.
Proof.
  intro Hdim. unfold sweep_alpha, count_alpha.
  rewrite for_io_skip.
  - reflexivity.
  - intros s [idx r]. unfold sweep_replicate.
    destruct dim as [|[|[|dim]]]; try lia; reflexivity.
Qed.

(** No state, no element in a slice of [vals]: line 311 raises. *)
Lemma summary_statistics_no_states (dim : nat) (replicates : list replicate) :
  (1 <= dim <= 2)%nat ->
  summary_statistics dim 0 replicates = Err ZeroDivisionError.
Proof.
  intro Hdim. unfold summary_statistics.
  rewrite forM_skip.
  - destruct dim as [|[|[|dim]]]; try lia; cbn [vals_shape bind];
      now apply summarize_empty.
  - intros s [idx r]. unfold populate_replicate.
    destruct dim as [|[|[|dim]]]; try lia; reflexivity.
Qed.

End NoStates.

(** X13: [K = 0] with a per-state or a state-pair quantity.  Nothing is
    tested, the table is printed with [a = b = 1] at every alpha, and the
    call stops at line 311: the slices of [vals] hold no element and
    [numpy.average] raises ZeroDivisionError.  The output is the preamble
    and the table, 57 lines; nothing of the summary is printed. *)
Theorem no_states_raise_ZeroDivisionError (numerics : Numerics) (r0 : replicate)
    (rest : list replicate) :
  (1 <= List.length (shape (estimated r0)) <= 2)%nat ->
  generateConfidenceIntervals module_globals (r0 :: rest) 0
  = (untested_report, Err ZeroDivisionError) /\
  List.length untested_report = 57%nat.
Proof.
  intro Hdim. split; [|reflexivity]. unfold generateConfidenceIntervals.
  rewrite print_all_run, iobind_run.
  change (lift (use_module module_globals "numpy" "numpy")) with (ret tt).
  change (lift (use_module module_globals "scipy" "scipy")) with (ret tt).
  rewrite !iobind_ret_l.
  rewrite (map_io_const _ untested_row)
    by (intro alpha; apply sweep_alpha_no_states; lia).
  rewrite iobind_ret_l.
  rewrite print_all_run.
  rewrite (summary_statistics_no_states (List.length (shape (estimated r0))) (r0 :: rest) Hdim).
  unfold untested_report, Pnorm_values.
  cbn [print lift ret raise iobind fst snd app].
  rewrite ?app_nil_r, <- ?app_assoc. reflexivity.
Qed.

Lemma no_states_raise_ZeroDivisionError_witness :
  generateConfidenceIntervals (numerics := rational_numerics) module_globals nan_second 0
  = (untested_report (numerics := rational_numerics), Err ZeroDivisionError) /\
  List.length (untested_report (numerics := rational_numerics)) = 57%nat.
Proof.
  apply (no_states_raise_ZeroDivisionError rational_numerics
           (rep [Fin 1; Fin 1] [Fin 1; Fin 1] [Fin 1; Fin 1])
           [rep [Fin 1; Fin 1] [Fin 1; NaN] [Fin 1; Fin 1]]).
  simpl. lia.
Defined.

(** X14: an empty list of replicates.  Every function reads [replicates[0]]
    before anything else it does with the list: [OrderReplicates] and
    [AndersonDarling], once [np] resolves, raise [IndexError] at line 36,
    and [generateConfidenceIntervals] raises it at line 208, after the
    fifteen lines of the preamble and before the sweep. *)
Theorem empty_replicates_raise_IndexError (numerics : Numerics) (g : globals) (K : nat) :
  use_module g "np" "numpy" = Ok tt ->
  use_module g "numpy" "numpy" = Ok tt ->
  use_function g "OrderReplicates" = Ok tt ->
  OrderReplicates g [] K = ([], Err IndexError) /\
  AndersonDarling g [] K = ([], Err IndexError) /\
  generateConfidenceIntervals g [] K = (preamble, Err IndexError).
Proof.
  intros Hnp Hnumpy Hfn. repeat split.
  - unfold OrderReplicates. now rewrite Hnp.
  - unfold AndersonDarling, OrderReplicates. now rewrite Hfn, Hnp.
  - unfold generateConfidenceIntervals.
    rewrite print_all_run, iobind_run, Hnumpy.
    cbn [lift raise iobind fst snd app]. now rewrite app_nil_r.
Qed.

Lemma empty_replicates_raise_IndexError_witness :
  OrderReplicates np_globals [] 2 = ([], Err IndexError) /\
  AndersonDarling (numerics := rational_numerics) np_globals [] 2 = ([], Err IndexError) /\
  generateConfidenceIntervals (numerics := rational_numerics) np_globals [] 2
  = (preamble, Err IndexError).
Proof.
  apply (empty_replicates_raise_IndexError rational_numerics np_globals 2);
    reflexivity.
Defined.

(** ** Normal returns on concrete replicate sets *)

Lemma AndersonDarling_returns_witness :
  (exists st A2,
     AndersonDarling (numerics := rational_numerics) np_globals three_by_two 2
     = (st, Ok A2)) /\
  snd (AndersonDarling (numerics := rational_numerics) np_globals scalar_three 0)
  = Err TypeError.
Proof.
  split.
  - apply (AndersonDarling_returns rational_numerics np_globals 2 [2%nat] three_by_two).
    + reflexivity.
    + reflexivity.
    + reflexivity.
    + split; [discriminate|]. split; [right; left; reflexivity|].
      repeat constructor.
    + discriminate.
  - apply (AndersonDarling_returns rational_numerics np_globals 0 [] scalar_three).
    + reflexivity.
    + reflexivity.
    + reflexivity.
    + split; [discriminate|]. split; [left; reflexivity|].
      repeat constructor.
    + reflexivity.
Defined.

(** ** QQPlot *)

(** X15: under the names the module binds, [QQPlot] stops at line 108 on
    every input: [OrderReplicates] raises the [NameError] on [np], no call
    into matplotlib is made, no file is written, and the replicates are
    untouched. *)
Theorem QQPlot_needs_np (numerics : Numerics) (quantiles : Quantiles)
    (replicates : list replicate) (K : nat) (title filename : string) :
  QQPlot module_globals replicates K title filename
  = (replicates, ([], Raised (Python (NameError "np")))).
Proof.
  unfold QQPlot, OrderReplicates.
  change (use_function module_globals "OrderReplicates") with (@Ok unit tt).
  rewrite np_unbound. reflexivity.
Qed.

Section PlotFacts.

Context {numerics : Numerics} {quantiles : Quantiles}.

Lemma calls_andthen {A B : Type} (P : plot_call -> Prop) (m : plot A) (f : A -> plot B) :
  Forall P (fst m) ->
  (forall a, snd m = Returned a -> Forall P (fst (f a))) ->
  Forall P (fst (andthen m f)).
Proof.
  destruct m as [calls [a|e]]; cbn [fst snd andthen]; intros H Hf; [|exact H].
  specialize (Hf a eq_refl). destruct (f a) as [calls' r]. cbn [fst] in *.
  apply Forall_app. now split.
Qed.

Lemma calls_for_plot {A : Type} (P : plot_call -> Prop) (xs : list A) (body : A -> plot unit) :
  (forall x, In x xs -> Forall P (fst (body x))) ->
  Forall P (fst (for_plot xs body)).
Proof.
  induction xs as [|x xs IH]; intro H; cbn [for_plot].
  - constructor.
  - apply calls_andthen; [apply H; now left|].
    intros _ _. apply IH. intros y Hy. apply H. now right.
Qed.

Lemma calls_python {A : Type} (r : result A) : fst (python r) = [].
Proof. now destruct r. Qed.

Lemma python_Returned {A : Type} (r : result A) (a : A) :
  snd (python r) = Returned a -> r = Ok a.
Proof. destruct r; cbn; congruence. Qed.

Lemma calls_float_div (x y : float) : fst (float_div x y) = [].
Proof. destruct y as [|b]; cbn [float_div]; [reflexivity|]. now destruct (Qeq_bool b 0). Qed.

End PlotFacts.

(** The grid of lines 145-146 holds [n] panels. *)
Lemma grid_room (n : nat) (q : Q) (h : Z) :
  0 <= q -> inject_Z (Z.of_nat n) <= q * q + (1 # 2) ->
  (forall r : nat, n = (r * r)%nat -> inject_Z (Z.of_nat r) <= q) ->
  int_of (Fin q) = Ok h ->
  (Z.of_nat n
   <= h * (h + 1 + 1 * (if fgt (fsub (Fin q) (of_int h)) (Fin (1 # 2)) then 1 else 0)))%Z.
Proof.
  destruct q as [a b]. intros Hq Hn Hr Hh.
  cbn [int_of Qnum Qden] in Hh. injection Hh as <-.
  assert (Ha : (0 <= a)%Z).
  { unfold Qle in Hq. cbn [Qnum Qden] in Hq. lia. }
  rewrite Z.quot_div_nonneg by lia.
  set (h := (a / Z.pos b)%Z).
  assert (H1 : (Z.pos b * h <= a)%Z) by (apply Z.mul_div_le; lia).
  assert (H2 : (a < Z.pos b * (h + 1))%Z).
  { unfold h. pose proof (Z.mul_succ_div_gt a (Z.pos b) ltac:(lia)). lia. }
  assert (Hh0 : (0 <= h)%Z) by (apply Z.div_pos; lia).
  assert (Hn' : (2 * Z.of_nat n * (Z.pos b * Z.pos b) <= 2 * (a * a) + Z.pos b * Z.pos b)%Z).
  { unfold Qle, Qplus, Qmult, inject_Z in Hn. cbn [Qnum Qden] in Hn.
    rewrite !Pos2Z.inj_mul in Hn. lia. }
  cbn [fsub lift2 of_int fgt].
  destruct (Qle_bool (Qred ((a # b) - inject_Z h)) (1 # 2)) eqn:E; cbn [negb].
  - apply Qle_bool_iff in E. rewrite Qred_correct in E.
    unfold Qle, Qminus, Qplus, Qopp, inject_Z in E. cbn [Qnum Qden] in E.
    assert (E' : (2 * a <= Z.pos b * (2 * h + 1))%Z) by nia.
    assert (4 * (a * a) <= (Z.pos b * Z.pos b) * (4 * h * h + 4 * h + 1))%Z by nia.
    assert ((4 * Z.of_nat n) * (Z.pos b * Z.pos b)
            <= (Z.pos b * Z.pos b) * (4 * h * h + 4 * h + 3))%Z by nia.
    assert (4 * Z.of_nat n <= 4 * h * h + 4 * h + 3)%Z by nia.
    nia.
  - assert (a * a < (Z.pos b * Z.pos b) * ((h + 1) * (h + 1)))%Z by nia.
    assert ((2 * Z.of_nat n) * (Z.pos b * Z.pos b)
            < (Z.pos b * Z.pos b) * (2 * ((h + 1) * (h + 1)) + 1))%Z by nia.
    assert (Hle : (Z.of_nat n <= (h + 1) * (h + 1))%Z) by nia.
    assert (Hne : (Z.of_nat n <> (h + 1) * (h + 1))%Z).
    { intro Heq.
      assert (Hsq : n = (Z.to_nat (h + 1) * Z.to_nat (h + 1))%nat).
      { apply Nat2Z.inj. rewrite Nat2Z.inj_mul, Z2Nat.id by lia. exact Heq. }
      specialize (Hr _ Hsq). rewrite Z2Nat.id in Hr by lia.
      unfold Qle, inject_Z in Hr. cbn [Qnum Qden] in Hr. lia. }
    lia.
Qed.

(** X16: every panel [QQPlot] asks matplotlib for is a panel of the grid it
    asks for.  When the square root of line 139 is close to the exact root
    in the sense of [close_root], each [plt.subplot(h, w, i + 1)] of line
    149 has [1 <= i + 1 <= h * w], whatever the replicates and [K], and also
    in a run that an exception ends. *)
Theorem QQPlot_grid_has_room (numerics : Numerics) (quantiles : Quantiles)
    (g : globals) (replicates : list replicate) (K : nat) (title filename : string) :
  (forall n, close_root n (np_sqrt (of_nat n))) ->
  Forall fits_grid (fst (snd (QQPlot g replicates K title filename))).
Proof.
  intro Hsqrt. unfold QQPlot.
  destruct (use_function g "OrderReplicates"); [|constructor].
  destruct (OrderReplicates g replicates K) as [st [sortedyi|e]]; [|constructor].
  cbn [snd]. unfold draw.
  apply calls_andthen; [rewrite calls_python; constructor|]. intros _ _.
  apply calls_andthen; [destruct st; constructor|]. intros dim _.
  apply calls_andthen; [rewrite calls_python; constructor|]. intros _ _.
  apply calls_andthen; [rewrite calls_python; constructor|]. intros lay _.
  unfold render.
  apply calls_andthen; [rewrite calls_float_div; constructor|]. intros labelsize _.
  do 4 (apply calls_andthen; [repeat constructor|]; intros _ _).
  apply calls_andthen; [rewrite calls_python; constructor|]. intros h Hh.
  apply python_Returned in Hh.
  apply calls_andthen; [repeat constructor|]. intros _ _.
  apply calls_andthen.
  - apply calls_for_plot. intros i Hi. apply in_seq in Hi. unfold panel.
    apply calls_andthen.
    + repeat constructor; cbn [fits_grid]; try lia.
      destruct (Hsqrt (nplots lay)) as (q & E & Hq & Hn & Hr).
      rewrite E in Hh. rewrite E.
      pose proof (grid_room (nplots lay) q h Hq Hn Hr Hh). lia.
    + intros _ _.
      apply calls_andthen; [rewrite calls_python; constructor|]. intros column _.
      apply calls_andthen; [rewrite calls_float_div; constructor|]. intros ms _.
      do 2 (apply calls_andthen; [repeat constructor|]; intros _ _).
      apply calls_andthen; [rewrite calls_python; constructor|]. intros lo _.
      apply calls_andthen; [rewrite calls_python; constructor|]. intros hi _.
      apply calls_andthen; [repeat constructor|]. intros _ _.
      apply calls_andthen; [destruct (dim =? 1)%nat; repeat constructor|]. intros _ _.
      destruct (dim =? 2)%nat; [|constructor].
      destruct (getitem (labelij lay) i) as [[x y]|]; repeat constructor.
  - intros _ _. do 2 (apply calls_andthen; [repeat constructor|]; intros _ _).
    repeat constructor.
Qed.

Lemma half_square_above (x : Q) : x <= ((1 + x) / 2) * ((1 + x) / 2) + (1 # 2).
Proof.
  assert (Hx : (1 + x) / 2 == (1 + x) * (1 # 2)) by (unfold Qdiv; reflexivity).
  rewrite Hx.
  assert (0 <= (x - 1) * (x - 1)) by (destruct (Qlt_le_dec (x - 1) 0); nra).
  nra.
Qed.

Lemma half_above (y : Q) : y <= (1 + y * y) / 2.
Proof.
  assert (Hy : (1 + y * y) / 2 == (1 + y * y) * (1 # 2)) by (unfold Qdiv; reflexivity).
  rewrite Hy.
  assert (0 <= (y - 1) * (y - 1)) by (destruct (Qlt_le_dec (y - 1) 0); nra).
  nra.
Qed.

Lemma rational_close_root (n : nat) :
  close_root n (np_sqrt (Numerics := rational_numerics) (of_nat n)).
Proof.
  unfold close_root, of_nat, of_int. cbn [np_sqrt rational_numerics].
  assert (H0 : Qle_bool 0 (inject_Z (Z.of_nat n)) = true).
  { apply Qle_bool_iff. change 0 with (inject_Z 0). rewrite <- Zle_Qle. lia. }
  rewrite H0.
  destruct (Qeq_bool (inject_Z (Z.of_nat n)) 0) eqn:E.
  - apply Qeq_bool_iff in E.
    assert (Hz : n = 0%nat).
    { unfold Qeq, inject_Z in E. cbn [Qnum Qden] in E. lia. }
    subst n.
    exists 0. split; [reflexivity|]. split; [lra|]. split.
    + change (inject_Z (Z.of_nat 0)) with 0. lra.
    + intros r Hr. assert (r = 0%nat) by nia. subst r.
      change (inject_Z (Z.of_nat 0)) with 0. lra.
  - eexists. split; [reflexivity|].
    assert (Hn : 0 <= inject_Z (Z.of_nat n)) by now apply Qle_bool_iff.
    rewrite !Qred_correct.
    split; [|split].
    + apply Qle_shift_div_l; lra.
    + apply half_square_above.
    + intros r Hr. subst n.
      rewrite Qred_correct, Nat2Z.inj_mul, inject_Z_mult. apply half_above.
Qed.

Lemma QQPlot_grid_has_room_witness :
  Forall fits_grid
    [ RcColor "axes" "facecolor" "#E3E4FA"; RcColor "axes" "edgecolor" "white";
      RcLabelsize "xtick" (Fin 20); RcLabelsize "ytick" (Fin 20); Figure 8 6;
      Subplot 1 2 1;
      PlotPoints [Fin (-2); Fin 0; Fin 2] [Fin 1; Fin 2; Fin 3] (Fin 25);
      PlotLine [Fin (-2); Fin 0; Fin 2] [Fin (-2); Fin 0; Fin 2];
      Xlim (Fin (-2)) (Fin 2); Annotate [0%nat; 1%nat] (Fin 20);
      Subplot 1 2 2;
      PlotPoints [Fin (-2); Fin 0; Fin 2] [Fin (-3); Fin (-2); Fin (-1)] (Fin 25);
      PlotLine [Fin (-2); Fin 0; Fin 2] [Fin (-2); Fin 0; Fin 2];
      Xlim (Fin (-2)) (Fin 2); Annotate [1%nat; 0%nat] (Fin 20);
      Suptitle "Generic Q-Q plot"; Savefig "qq.pdf"; Close ].
Proof.
  exact (QQPlot_grid_has_room rational_numerics rational_quantiles np_globals
           three_matrices 2 default_title default_filename rational_close_root).
Defined.

(** *** What a run of QQPlot went through *)

Lemma forM_flat_map {A B S : Type} (h : A -> list B) (xs : list A)
    (body : S -> B -> result S) (acc : S) :
  forM (flat_map h xs) body acc = forM xs (fun s x => forM (h x) body s) acc.
Proof.
  revert acc. induction xs as [|x xs IH]; intro acc; cbn [flat_map forM]; [reflexivity|].
  rewrite forM_app. destruct (forM (h x) body acc); cbn [bind]; [apply IH|reflexivity].
Qed.

Lemma forM_map {A B S : Type} (h : A -> B) (xs : list A)
    (body : S -> B -> result S) (acc : S) :
  forM (map h xs) body acc = forM xs (fun s x => body s (h x)) acc.
Proof.
  revert acc. induction xs as [|x xs IH]; intro acc; cbn [map forM]; [reflexivity|].
  destruct (body acc (h x)); [apply IH|reflexivity].
Qed.

Lemma forM_ext {A S : Type} (xs : list A) (body body' : S -> A -> result S) (acc : S) :
  (forall s x, body s x = body' s x) -> forM xs body acc = forM xs body' acc.
Proof.
  intro H. revert acc. induction xs as [|x xs IH]; intro acc; cbn [forM]; [reflexivity|].
  rewrite H. destruct (body' acc x); [apply IH|reflexivity].
Qed.

Lemma andthen_Returned {A B : Type} (m : plot A) (f : A -> plot B)
    (calls : list plot_call) (b : B) :
  andthen m f = (calls, Returned b) ->
  exists c1 a c2, m = (c1, Returned a) /\ f a = (c2, Returned b) /\ calls = c1 ++ c2.
Proof.
  destruct m as [c1 [a|e]]; cbn [andthen]; [|discriminate].
  destruct (f a) as [c2 r] eqn:E. intro H. injection H as <- ->.
  exists c1, a, c2. auto.
Qed.

Lemma python_run {A : Type} (r : result A) (calls : list plot_call) (a : A) :
  python r = (calls, Returned a) -> r = Ok a /\ calls = [].
Proof. destruct r; cbn [python done fails]; intro H; inversion H; auto. Qed.

Lemma float_div_run (x y : float) (calls : list plot_call) (z : float) :
  float_div x y = (calls, Returned z) -> calls = [].
Proof.
  destruct y as [|b]; cbn [float_div done].
  - intro H. now inversion H.
  - destruct (Qeq_bool b 0); cbn [done fails]; intro H; now inversion H.
Qed.

Lemma andthen_done_l {A B : Type} (a : A) (f : A -> plot B) : andthen (done a) f = f a.
Proof. cbn [andthen done]. now destruct (f a). Qed.

Lemma for_plot_Returned {A : Type} (xs : list A) (body : A -> plot unit)
    (calls : list plot_call) :
  for_plot xs body = (calls, Returned tt) ->
  exists cs, Forall2 (fun x c => body x = (c, Returned tt)) xs cs /\ calls = List.concat cs.
Proof.
  revert calls. induction xs as [|x xs IH]; intros calls H; cbn [for_plot] in H.
  - injection H as <-. exists []. split; constructor.
  - apply andthen_Returned in H. destruct H as (c1 & [] & c2 & H1 & H2 & ->).
    destruct (IH c2 H2) as (cs & Hcs & ->).
    exists (c1 :: cs). split; [now constructor|reflexivity].
Qed.

Section PlotRuns.

Context {numerics : Numerics} {quantiles : Quantiles}.

(** The store after a normal return of [OrderReplicates]: replicate 0 with
    another [destimated] array. *)
Lemma OrderReplicates_head (g : globals) (r0 : replicate) (rest : list replicate)
    (K : nat) (st : list replicate) (s : list ndarray) :
  OrderReplicates g (r0 :: rest) K = (st, Ok s) ->
  exists sigma, st = mkrep (estimated r0) (error r0) sigma :: rest.
Proof.
  intro Hrun.
  destruct (OrderReplicates_Ok _ _ _ _ _ Hrun) as (r0' & rest' & E & _ & _ & _ & ->).
  injection E as <- <-.
  destruct (shape (destimated r0)); cbn [write_sigma set_destimated0]; [|eauto].
  exists (destimated r0). now destruct r0.
Qed.

(** After a normal return of [OrderReplicates], what is left of [QQPlot]. *)
Lemma QQPlot_run (g : globals) (r0 : replicate) (rest : list replicate) (K : nat)
    (title filename : string) (st : list replicate) (s : list ndarray) :
  use_function g "OrderReplicates" = Ok tt ->
  use_module g "scipy" "scipy" = Ok tt ->
  OrderReplicates g (r0 :: rest) K = (st, Ok s) ->
  QQPlot g (r0 :: rest) K title filename
  = (st, andthen (python (qq_layout (List.length (shape (error r0))) K
                            (List.length (r0 :: rest)) s))
           (fun lay => render (List.length (shape (error r0)))
                         (plotting_positions (List.length (r0 :: rest))) lay
                         title filename)).
Proof.
  intros Hfn Hsp Hrun. unfold QQPlot. rewrite Hfn, Hrun.
  destruct (OrderReplicates_Ok _ _ _ _ _ Hrun) as (_ & _ & _ & Hnp & _).
  destruct (OrderReplicates_head _ _ _ _ _ _ Hrun) as [sigma ->].
  unfold draw. rewrite Hnp, Hsp.
  change (python (Ok tt)) with (done tt). rewrite !andthen_done_l.
  reflexivity.
Qed.

(** What a normal return of [QQPlot] went through. *)
Lemma QQPlot_Returned (g : globals) (r0 : replicate) (rest : list replicate) (K : nat)
    (title filename : string) (st : list replicate) (calls : list plot_call) :
  QQPlot g (r0 :: rest) K title filename = (st, (calls, Returned tt)) ->
  exists s lay,
    OrderReplicates g (r0 :: rest) K = (st, Ok s) /\
    qq_layout (List.length (shape (error r0))) K (List.length (r0 :: rest)) s = Ok lay /\
    render (List.length (shape (error r0)))
      (plotting_positions (List.length (r0 :: rest))) lay title filename
    = (calls, Returned tt).
Proof.
  intro H.
  assert (Hfn : use_function g "OrderReplicates" = Ok tt).
  { unfold QQPlot in H. destruct (use_function g "OrderReplicates") as [[]|e];
      [reflexivity|discriminate]. }
  destruct (OrderReplicates g (r0 :: rest) K) as [st' [s|e]] eqn:Hrun;
    [|unfold QQPlot in H; rewrite Hfn, Hrun in H; discriminate].
  assert (Hst : st' = st).
  { unfold QQPlot in H. rewrite Hfn, Hrun in H. now injection H. }
  subst st'.
  assert (Hsp : use_module g "scipy" "scipy" = Ok tt).
  { unfold QQPlot in H. rewrite Hfn, Hrun in H. injection H as H. unfold draw in H.
    apply andthen_Returned in H. destruct H as (c1 & [] & c2 & _ & H & _).
    apply andthen_Returned in H. destruct H as (c3 & dim & c4 & _ & H & _).
    apply andthen_Returned in H. destruct H as (c5 & [] & c6 & H & _ & _).
    apply python_run in H. now destruct H. }
  rewrite (QQPlot_run g r0 rest K title filename st s Hfn Hsp Hrun) in H.
  injection H as H.
  apply andthen_Returned in H. destruct H as (c1 & lay & c2 & H1 & H2 & ->).
  apply python_run in H1. destruct H1 as [H1 ->].
  exists s, lay. auto.
Qed.

(** The calls of one panel that returns. *)
Lemma panel_Returned (dim : nat) (xvals : list float) (lay : layout) (labelsize : float)
    (h w : Z) (i : nat) (calls : list plot_call) :
  panel dim xvals lay labelsize h w i = (calls, Returned tt) ->
  exists column,
    nth_error (yy lay) i = Some column /\
    curves calls = [(xvals, column)] /\
    annotations calls = panel_label dim lay i.
Proof.
  unfold panel. intro H.
  apply andthen_Returned in H. destruct H as (c1 & [] & c1' & H1 & H & ->).
  injection H1 as <-.
  apply andthen_Returned in H. destruct H as (c2 & column & c2' & H2 & H & ->).
  apply python_run in H2. destruct H2 as [H2 ->].
  apply andthen_Returned in H. destruct H as (c3 & ms & c3' & H3 & H & ->).
  apply float_div_run in H3. subst c3.
  apply andthen_Returned in H. destruct H as (c4 & [] & c4' & H4 & H & ->).
  injection H4 as <-.
  apply andthen_Returned in H. destruct H as (c5 & [] & c5' & H5 & H & ->).
  injection H5 as <-.
  apply andthen_Returned in H. destruct H as (c6 & lo & c6' & H6 & H & ->).
  apply python_run in H6. destruct H6 as [_ ->].
  apply andthen_Returned in H. destruct H as (c7 & hi & c7' & H7 & H & ->).
  apply python_run in H7. destruct H7 as [_ ->].
  apply andthen_Returned in H. destruct H as (c8 & [] & c8' & H8 & H & ->).
  injection H8 as <-.
  apply andthen_Returned in H. destruct H as (c9 & [] & c9' & H9 & H & ->).
  exists column. split.
  { destruct (nth_error (yy lay) i); [now injection H2 as ->|discriminate]. }
  destruct dim as [|[|[|dim]]]; cbn [Nat.eqb] in H9, H;
    cbn [call done] in H9; injection H9 as <-.
  - injection H as <-. split; reflexivity.
  - injection H as <-. split; reflexivity.
  - unfold panel_label. destruct (getitem (labelij lay) i) as [[a b]|];
      [|discriminate].
    injection H as <-. split; reflexivity.
  - injection H as <-. split; reflexivity.
Qed.

Lemma curves_app (c c' : list plot_call) : curves (c ++ c') = curves c ++ curves c'.
Proof. apply flat_map_app. Qed.

Lemma annotations_app (c c' : list plot_call) :
  annotations (c ++ c') = annotations c ++ annotations c'.
Proof. apply flat_map_app. Qed.

Lemma panels_Returned (dim : nat) (xvals : list float) (lay : layout) (labelsize : float)
    (h w : Z) (indices : list nat) (cs : list (list plot_call)) :
  Forall2 (fun i c => panel dim xvals lay labelsize h w i = (c, Returned tt)) indices cs ->
  Forall (fun i => nth_error (yy lay) i <> None) indices /\
  curves (List.concat cs) = map (fun i => (xvals, nth i (yy lay) [])) indices /\
  annotations (List.concat cs) = flat_map (panel_label dim lay) indices.
Proof.
  induction 1 as [|i c indices cs Hi _ IH]; cbn [List.concat map flat_map].
  - repeat split; constructor.
  - destruct IH as (IH0 & IH1 & IH2).
    apply panel_Returned in Hi. destruct Hi as (column & Hc & Hcurves & Hann).
    rewrite curves_app, annotations_app, Hcurves, Hann, IH1, IH2.
    repeat split; auto.
    + constructor; [congruence|exact IH0].
    + cbn [app]. f_equal. f_equal. symmetry. now apply nth_error_nth.
Qed.

(** The calls of a figure that is finished. *)
Lemma render_Returned (dim : nat) (xvals : list float) (lay : layout)
    (title filename : string) (calls : list plot_call) :
  render dim xvals lay title filename = (calls, Returned tt) ->
  curves calls = map (fun i => (xvals, nth i (yy lay) [])) (seq 0 (nplots lay)) /\
  annotations calls = flat_map (panel_label dim lay) (seq 0 (nplots lay)) /\
  exists front, calls = front ++ [Suptitle title; Savefig filename; Close].
Proof.
  unfold render. intro H.
  apply andthen_Returned in H. destruct H as (c1 & labelsize & c1' & H1 & H & ->).
  apply float_div_run in H1. subst c1.
  apply andthen_Returned in H. destruct H as (c2 & [] & c2' & H2 & H & ->).
  injection H2 as <-.
  apply andthen_Returned in H. destruct H as (c3 & [] & c3' & H3 & H & ->).
  injection H3 as <-.
  apply andthen_Returned in H. destruct H as (c4 & [] & c4' & H4 & H & ->).
  injection H4 as <-.
  apply andthen_Returned in H. destruct H as (c5 & [] & c5' & H5 & H & ->).
  injection H5 as <-.
  apply andthen_Returned in H. destruct H as (c6 & h & c6' & H6 & H & ->).
  apply python_run in H6. destruct H6 as [_ ->].
  apply andthen_Returned in H. destruct H as (c7 & [] & c7' & H7 & H & ->).
  injection H7 as <-.
  apply andthen_Returned in H. destruct H as (c8 & [] & c8' & H8 & H & ->).
  apply for_plot_Returned in H8. destruct H8 as (cs & Hcs & ->).
  apply panels_Returned in Hcs. destruct Hcs as (_ & Hcurves & Hann).
  apply andthen_Returned in H. destruct H as (c9 & [] & c9' & H9 & H & ->).
  injection H9 as <-.
  apply andthen_Returned in H. destruct H as (c10 & [] & c10' & H10 & H & ->).
  injection H10 as <-. injection H as <-.
  cbn [app]. repeat split.
  - change (curves (List.concat cs ++ [Suptitle title; Savefig filename; Close])
            = map (fun i => (xvals, nth i (yy lay) [])) (seq 0 (nplots lay))).
    rewrite curves_app, Hcurves. cbn [curves flat_map app]. apply app_nil_r.
  - change (annotations (List.concat cs ++ [Suptitle title; Savefig filename; Close])
            = flat_map (panel_label dim lay) (seq 0 (nplots lay))).
    rewrite annotations_app, Hann. cbn [annotations flat_map app]. apply app_nil_r.
  - exists ([ RcColor "axes" "facecolor" "#E3E4FA"; RcColor "axes" "edgecolor" "white";
              RcLabelsize "xtick" labelsize; RcLabelsize "ytick" labelsize; Figure 8 6 ]
            ++ List.concat cs).
    now rewrite <- app_assoc.
Qed.

End PlotRuns.

(** *** The columns of the figure, lines 113-137 *)

Lemma nth_error_set_nth_same {A : Type} (k : nat) (v : A) (l : list A) :
  (k < List.length l)%nat -> nth_error (set_nth k v l) k = Some v.
Proof.
  revert k. induction l as [|x l IH]; intros [|k] H; cbn [List.length] in H;
    cbn [set_nth nth_error]; try lia; auto. apply IH. lia.
Qed.

Lemma nth_error_set_nth_other {A : Type} (k k' : nat) (v : A) (l : list A) :
  k <> k' -> nth_error (set_nth k v l) k' = nth_error l k'.
Proof.
  revert k k'. induction l as [|x l IH]; intros [|k] [|k'] H;
    cbn [set_nth nth_error]; auto; try congruence.
Qed.

Lemma layout_scalar (K N : nat) (s : list ndarray) (lay : layout) :
  qq_layout 0 K N s = Ok lay ->
  nplots lay = 1%nat /\ nth_error (yy lay) 0 = Some (column 0 s).
Proof.
  unfold qq_layout, column0, set_plot_column.
  destruct (slice_shape s); [|discriminate]. cbn [bind repeat List.length Nat.ltb Nat.leb].
  intro H. injection H as <-. split; reflexivity.
Qed.

Lemma fill_columns (s : list ndarray) (l : list nat) (yy0 yy1 : list (list float)) :
  forM l (fun yy i => vals <- column1 s i ;; set_plot_column i vals yy)%result yy0 = Ok yy1 ->
  List.length yy1 = List.length yy0 /\
  forall i, nth_error yy1 i = if existsb (Nat.eqb i) l then Some (column i s)
                              else nth_error yy0 i.
Proof.
  revert yy0. induction l as [|a l IH]; intros yy0 H; cbn [forM existsb] in *.
  - injection H as <-. auto.
  - destruct (column1 s a) as [vals|] eqn:Ec; [|discriminate]. cbn [bind] in H.
    unfold set_plot_column in H at 1.
    destruct (Nat.ltb_spec a (List.length yy0)) as [Ha|]; [|discriminate].
    apply IH in H. destruct H as [HL Hnth].
    rewrite set_nth_length in HL. split; [exact HL|].
    intro i. rewrite Hnth.
    destruct (existsb (Nat.eqb i) l); [now rewrite orb_true_r|].
    rewrite orb_false_r.
    assert (Ev : vals = column a s).
    { unfold column1 in Ec. destruct (slice_shape s) as [|d0 [|]]; try discriminate.
      destruct (a <? d0)%nat; [now injection Ec|discriminate]. }
    destruct (Nat.eqb_spec i a) as [->|Hne].
    + rewrite nth_error_set_nth_same by exact Ha. now rewrite Ev.
    + apply nth_error_set_nth_other. congruence.
Qed.

Lemma layout_vector (K N : nat) (s : list ndarray) (lay : layout) :
  qq_layout 1 K N s = Ok lay ->
  nplots lay = K /\
  forall i, (i < K)%nat -> nth_error (yy lay) i = Some (column i s).
Proof.
  unfold qq_layout.
  destruct (forM _ _ _) as [yy1|] eqn:E; [|discriminate]. cbn [bind].
  intro H. injection H as <-. cbn [nplots yy]. split; [reflexivity|].
  apply fill_columns in E. destruct E as [_ Hnth].
  intros i Hi. rewrite Hnth.
  replace (existsb (Nat.eqb i) (seq 0 K)) with true; [reflexivity|].
  symmetry. apply existsb_exists. exists i. split; [apply in_seq; lia|apply Nat.eqb_refl].
Qed.

(** Lines 131-137 over a list of pairs, from the counter [k]: the pairs off
    the diagonal get the next columns and the next keys, in order. *)
Lemma fill_pairs (s : list ndarray) (d1 : nat) (P : list (nat * nat))
    (yy0 yy1 : list (list float)) (lab0 lab1 : labels) (k0 k1 : nat) :
  (forall d0' d1', slice_shape s = [d0'; d1'] -> d1' = d1) ->
  forM P (fill_pair s) (yy0, lab0, k0) = Ok (yy1, lab1, k1) ->
  let Q := filter (fun ij => negb (fst ij =? snd ij)%nat) P in
  k1 = (k0 + List.length Q)%nat /\
  (forall m, (m < k0)%nat ->
     getitem lab1 m = getitem lab0 m /\ nth_error yy1 m = nth_error yy0 m) /\
  (forall m i j, nth_error Q m = Some (i, j) ->
     getitem lab1 (k0 + m) = Some (i, j) /\
     nth_error yy1 (k0 + m) = Some (column (i * d1 + j) s)).
Proof.
  intro Hd. revert yy0 lab0 k0.
  induction P as [|[i j] P IH]; intros yy0 lab0 k0 H; cbn [forM filter fst snd] in *.
  - injection H as <- <- <-. cbn [List.length]. split; [lia|]. split; [auto|].
    intros [|m'] i' j' Hm; discriminate.
  - unfold fill_pair in H at 1.
    destruct (Nat.eqb_spec i j) as [->|Hij]; cbn [negb].
    + now apply IH.
    + destruct (column2 s i j) as [vals|] eqn:Ec; [|discriminate]. cbn [bind] in H.
      unfold set_plot_column in H at 1.
      destruct (Nat.ltb_spec k0 (List.length yy0)) as [Hk|]; [|discriminate].
      cbn [bind] in H. apply IH in H. cbn zeta in H.
      destruct H as (Hk1 & Hold & Hnew).
      assert (Ev : vals = column (i * d1 + j) s).
      { unfold column2 in Ec. destruct (slice_shape s) as [|d0' [|d1' [|]]] eqn:Es;
          try discriminate.
        rewrite (Hd d0' d1' eq_refl) in Ec.
        destruct ((i <? d0')%nat && (j <? d1)%nat)%bool; [now injection Ec|discriminate]. }
      cbn [List.length]. split; [lia|]. split.
      * intros m Hm. destruct (Hold m ltac:(lia)) as [H1 H2]. split.
        -- rewrite H1. cbn [getitem].
           destruct (Nat.eqb_spec k0 m); [lia|reflexivity].
        -- rewrite H2. apply nth_error_set_nth_other. lia.
      * intros [|m] i' j' Hm; cbn [nth_error] in Hm.
        -- injection Hm as <- <-. rewrite Nat.add_0_r.
           destruct (Hold k0 ltac:(lia)) as [H1 H2]. split.
           ++ rewrite H1. cbn [getitem]. now rewrite Nat.eqb_refl.
           ++ rewrite H2, nth_error_set_nth_same by exact Hk. now rewrite Ev.
        -- replace (k0 + S m)%nat with (S k0 + m)%nat by lia. now apply Hnew.
Qed.

Lemma length_filter_row (i a n : nat) :
  List.length (filter (fun j => negb (i =? j)%nat) (seq a n))
  = if ((a <=? i) && (i <? a + n))%nat%bool then (n - 1)%nat else n.
Proof.
  revert a. induction n as [|n IH]; intro a; cbn [seq filter].
  - cbn [List.length]. now destruct ((a <=? i)%nat && (i <? a + 0)%nat)%bool.
  - destruct (Nat.eqb_spec i a) as [->|Hne]; cbn [negb List.length]; rewrite IH.
    + destruct (Nat.leb_spec (S a) a); [lia|]. cbn [andb].
      destruct (Nat.leb_spec a a); [|lia].
      destruct (Nat.ltb_spec a (a + S n)); [|lia]. cbn [andb]. lia.
    + destruct (Nat.leb_spec (S a) i), (Nat.ltb_spec i (S a + n)),
        (Nat.leb_spec a i), (Nat.ltb_spec i (a + S n)); cbn [andb]; lia.
Qed.

Lemma length_off_diagonal (K : nat) : List.length (off_diagonal K) = (K * (K - 1))%nat.
Proof.
  unfold off_diagonal, all_pairs.
  assert (H : forall l, (forall i, In i l -> (i < K)%nat) ->
            List.length
              (filter (fun ij => negb (fst ij =? snd ij)%nat)
                 (flat_map (fun i => map (fun j => (i, j)) (seq 0 K)) l))
            = (List.length l * (K - 1))%nat).
  { induction l as [|i l IH]; intro Hl; cbn [flat_map List.length]; [reflexivity|].
    rewrite filter_app, length_app, IH by (intros; apply Hl; now right).
    enough (Hrow : List.length
                     (filter (fun ij => negb (fst ij =? snd ij)%nat)
                        (map (fun j => (i, j)) (seq 0 K))) = (K - 1)%nat) by lia.
    assert (E : filter (fun ij => negb (fst ij =? snd ij)%nat)
                  (map (fun j => (i, j)) (seq 0 K))
                = map (fun j => (i, j)) (filter (fun j => negb (i =? j)%nat) (seq 0 K))).
    { generalize (seq 0 K) as l0. induction l0 as [|j l0 IH0]; cbn [map filter fst snd];
        [reflexivity|].
      destruct (negb (i =? j)%nat); cbn [map]; now rewrite IH0. }
    rewrite E, length_map, length_filter_row.
    specialize (Hl i (or_introl eq_refl)).
    destruct (Nat.leb_spec 0 i); [|lia].
    destruct (Nat.ltb_spec i (0 + K)); [reflexivity|lia]. }
  rewrite H, length_seq; [reflexivity|].
  intros i Hi. apply in_seq in Hi. lia.
Qed.

Lemma layout_matrix (K N d0 d1 : nat) (s : list ndarray) (lay : layout) :
  slice_shape s = [d0; d1] ->
  qq_layout 2 K N s = Ok lay ->
  nplots lay = List.length (off_diagonal K) /\
  forall m i j, nth_error (off_diagonal K) m = Some (i, j) ->
    getitem (labelij lay) m = Some (i, j) /\
    nth_error (yy lay) m = Some (column (i * d1 + j) s).
Proof.
  intros Hs. unfold qq_layout.
  rewrite (forM_ext (seq 0 K) _
             (fun st i => forM (map (fun j => (i, j)) (seq 0 K)) (fill_pair s) st))
    by (intros st i; symmetry; apply forM_map).
  rewrite <- (forM_flat_map (fun i => map (fun j => (i, j)) (seq 0 K))).
  fold (all_pairs K).
  destruct (forM _ _ _) as [[[yy1 lab1] k1]|] eqn:E; [|discriminate]. cbn [bind].
  intro H. injection H as <-. cbn [nplots yy labelij].
  apply (fill_pairs s d1) in E.
  - cbn zeta in E. fold (off_diagonal K) in E. destruct E as (_ & _ & Hnew).
    split; [now rewrite length_off_diagonal|].
    intros m i j Hm. exact (Hnew m i j Hm).
  - intros d0' d1' Hs'. rewrite Hs in Hs'. now injection Hs'.
Qed.

Lemma map_seq_nth {A B : Type} (f : A -> B) (d : A) (l : list A) :
  map (fun m => f (nth m l d)) (seq 0 (List.length l)) = map f l.
Proof.
  induction l as [|x l IH]; cbn [List.length seq map]; [reflexivity|].
  f_equal. rewrite <- seq_shift, map_map. exact IH.
Qed.

Lemma flat_map_seq_nth {A B : Type} (f : A -> list B) (d : A) (l : list A) :
  flat_map (fun m => f (nth m l d)) (seq 0 (List.length l)) = flat_map f l.
Proof.
  induction l as [|x l IH]; cbn [List.length seq flat_map]; [reflexivity|].
  f_equal. rewrite <- seq_shift, flat_map_concat_map, map_map, <- flat_map_concat_map.
  exact IH.
Qed.

Lemma flat_map_singleton {A B : Type} (f : A -> B) (l : list A) :
  flat_map (fun x => [f x]) l = map f l.
Proof. induction l as [|x l IH]; cbn [flat_map map app]; [reflexivity|]. now rewrite IH. Qed.

(** X17: what a figure of [QQPlot] shows.  When [QQPlot] returns, the panels
    are, in order, one for a scalar quantity, one per state [i < K] for a
    per-state quantity, and one per ordered pair of different states
    [i, j < K] for a state-pair quantity (the diagonal is left out; both
    [i, j] and [j, i] are drawn).  The points of a panel are the plotting
    positions of line 111 against the column of that coordinate in the
    result of [OrderReplicates]; a panel of a vector or a matrix is
    labelled with its state or its pair; and the last three calls give the
    title, save the figure under [filename] and close it. *)
Theorem QQPlot_panels (numerics : Numerics) (quantiles : Quantiles) (g : globals)
    (r0 : replicate) (rest : list replicate) (K : nat) (title filename : string)
    (st : list replicate) (calls : list plot_call) :
  QQPlot g (r0 :: rest) K title filename = (st, (calls, Returned tt)) ->
  exists sortedyi front,
    OrderReplicates g (r0 :: rest) K = (st, Ok sortedyi) /\
    curves calls
    = map (fun c => (plotting_positions (List.length (r0 :: rest)),
                     column (offset_of (shape (destimated r0)) c) sortedyi))
          (plotted (shape (destimated r0)) K) /\
    annotations calls
    = match shape (destimated r0) with
      | [] => []
      | _ => plotted (shape (destimated r0)) K
      end /\
    calls = front ++ [Suptitle title; Savefig filename; Close].
Proof.
  intro H. apply QQPlot_Returned in H. destruct H as (s & lay & Hrun & Hlay & Hren).
  apply render_Returned in Hren. destruct Hren as (Hcurves & Hann & front & Hcalls).
  exists s, front. split; [exact Hrun|].
  destruct (OrderReplicates_Ok _ _ _ _ _ Hrun) as (r0' & rest' & E & _ & Herr & _ & _).
  injection E as <- <-.
  destruct (OrderReplicates_rows _ _ _ _ _ Hrun) as (r0' & rest' & E & Hrows & HL).
  injection E as <- <-.
  assert (Hdim : shape (error r0) = shape (destimated r0)).
  { now inversion Herr. }
  assert (Hslice : slice_shape s = shape (destimated r0)).
  { destruct s as [|row s]; [discriminate|]. inversion Hrows as [|? ? [Hr _] _]. exact Hr. }
  rewrite Hdim in *. rewrite Hcurves, Hann. clear Hcurves Hann.
  set (xvals := plotting_positions (List.length (r0 :: rest))) in *.
  destruct (shape (destimated r0)) as [|d0 [|d1 [|d2 dims]]]; cbn [List.length] in Hlay.
  - apply layout_scalar in Hlay. destruct Hlay as [-> Hy].
    cbn [seq map flat_map plotted offset_of panel_label app].
    rewrite (nth_error_nth _ _ _ Hy). auto.
  - apply layout_vector in Hlay. destruct Hlay as [-> Hy].
    cbn [plotted]. rewrite map_map. split; [|split; [|exact Hcalls]].
    + apply map_ext_in. intros i Hi. apply in_seq in Hi. cbn [offset_of].
      now rewrite (nth_error_nth _ _ _ (Hy i ltac:(lia))).
    + cbn [List.length]. apply flat_map_singleton.
  - apply (layout_matrix K _ d0 d1) in Hlay; [|exact Hslice].
    destruct Hlay as [-> Hy].
    cbn [plotted]. rewrite map_map. split; [|split; [|exact Hcalls]].
    + rewrite <- (map_seq_nth
                    (fun ij => (xvals, column (offset_of [d0; d1] [fst ij; snd ij]) s))
                    (0%nat, 0%nat)).
      apply map_ext_in. intros m Hm. apply in_seq in Hm.
      destruct (nth_error (off_diagonal K) m) as [[i j]|] eqn:Em;
        [|apply nth_error_None in Em; lia].
      rewrite (nth_error_nth _ _ _ Em). cbn [fst snd offset_of].
      destruct (Hy m i j Em) as [_ Hcol]. now rewrite (nth_error_nth _ _ _ Hcol).
    + rewrite <- (flat_map_singleton (fun ij => [fst ij; snd ij])).
      rewrite <- (flat_map_seq_nth (fun ij => [[fst ij; snd ij]]) (0%nat, 0%nat)).
      rewrite !flat_map_concat_map. f_equal.
      apply map_ext_in. intros m Hm. apply in_seq in Hm.
      destruct (nth_error (off_diagonal K) m) as [[i j]|] eqn:Em;
        [|apply nth_error_None in Em; lia].
      rewrite (nth_error_nth _ _ _ Em). cbn [fst snd List.length]. unfold panel_label.
      destruct (Hy m i j Em) as [Hlab _]. now rewrite Hlab.
  - unfold qq_layout in Hlay. discriminate.
Qed.

Lemma QQPlot_panels_witness :
  exists calls sortedyi front,
    QQPlot (numerics := rational_numerics) (quantiles := rational_quantiles)
      np_globals three_matrices 2 default_title default_filename
    = (three_matrices, (calls, Returned tt)) /\
    OrderReplicates np_globals three_matrices 2 = (three_matrices, Ok sortedyi) /\
    curves calls
    = [ ([Fin (-2); Fin 0; Fin 2], column 1 sortedyi);
        ([Fin (-2); Fin 0; Fin 2], column 2 sortedyi) ] /\
    annotations calls = [[0; 1]; [1; 0]]%nat /\
    calls = front ++ [Suptitle default_title; Savefig default_filename; Close].
Proof.
  destruct (QQPlot (numerics := rational_numerics) (quantiles := rational_quantiles)
              np_globals three_matrices 2 default_title default_filename)
    as [st [calls [[]|e]]] eqn:E; [|exfalso; vm_compute in E; discriminate E].
  assert (Hst : st = three_matrices) by (vm_compute in E; now injection E).
  subst st.
  destruct (QQPlot_panels rational_numerics rational_quantiles np_globals
              (mkrep (mat [[Fin 0; Fin 1]; [Fin (-1); Fin 0]])
                     (mat [[Fin 0; Fin 3]; [Fin (-3); Fin 0]])
                     (mat [[Fin 0; Fin 1]; [Fin 1; Fin 0]]))
              (tl three_matrices) 2 default_title default_filename
              three_matrices calls E) as (sortedyi & front & H1 & H2 & H3 & H4).
  exists calls, sortedyi, front. repeat split; assumption.
Defined.

(** X18: a figure without a panel.  A per-state quantity with [K = 0] and a
    state-pair quantity with [K <= 1] leave [nplots = 0] (a matrix over one
    state has no pair off the diagonal); with a square root of 0 that is 0,
    line 140 divides by it and [QQPlot] raises [ZeroDivisionError] before
    any call into matplotlib. *)
Theorem QQPlot_without_panels (numerics : Numerics) (quantiles : Quantiles) (g : globals)
    (r0 : replicate) (rest : list replicate) (K : nat) (title filename : string)
    (st : list replicate) (sortedyi : list ndarray) :
  use_function g "OrderReplicates" = Ok tt ->
  use_module g "scipy" "scipy" = Ok tt ->
  OrderReplicates g (r0 :: rest) K = (st, Ok sortedyi) ->
  (List.length (shape (error r0)) = 1%nat /\ K = 0%nat) \/
  (List.length (shape (error r0)) = 2%nat /\ (K <= 1)%nat) ->
  feq (np_sqrt (of_nat 0)) (Fin 0) = true ->
  QQPlot g (r0 :: rest) K title filename = (st, ([], Raised ZeroDivisionError)).
Proof.
  intros Hfn Hsp Hrun Hcase Hsqrt.
  rewrite (QQPlot_run g r0 rest K title filename st sortedyi Hfn Hsp Hrun).
  f_equal.
  assert (Hlay : exists lay,
             qq_layout (List.length (shape (error r0))) K (List.length (r0 :: rest)) sortedyi
             = Ok lay /\ nplots lay = 0%nat).
  { destruct Hcase as [[-> ->]|[-> HK]].
    - eexists. split; reflexivity.
    - destruct K as [|[|K]]; [| |lia]; eexists; split; reflexivity. }
  destruct Hlay as (lay & -> & Hn).
  change (python (Ok lay)) with (done lay). rewrite andthen_done_l.
  unfold render. rewrite Hn.
  destruct (np_sqrt (of_nat 0)) as [|q]; [discriminate|].
  cbn [feq] in Hsqrt. cbn [float_div]. rewrite Hsqrt. reflexivity.
Qed.

Lemma QQPlot_without_panels_witness :
  QQPlot (numerics := rational_numerics) (quantiles := rational_quantiles)
    np_globals one_pair_matrix 1 default_title default_filename
  = (one_pair_matrix, ([], Raised ZeroDivisionError)).
Proof.
  apply (QQPlot_without_panels rational_numerics rational_quantiles np_globals
           (mkrep (mat [[Fin 1; Fin 2]; [Fin 3; Fin 4]])
                  (mat [[Fin 10; Fin 20]; [Fin 30; Fin 40]])
                  (mat [[Fin 1; Fin 1]; [Fin 1; Fin 1]]))
           [] 1 default_title default_filename one_pair_matrix
           [mat [[Fin 10; Fin 0]; [Fin 0; Fin 0]]]).
  - reflexivity.
  - reflexivity.
  - vm_compute. reflexivity.
  - right. split; [reflexivity|lia].
  - reflexivity.
Defined.

(** X19: a quantity with three dimensions or more.  [OrderReplicates]
    returns zeros for it, no branch of lines 113-118 binds [nplots], and
    [QQPlot] stops at line 120 on the unbound local, before any call into
    matplotlib. *)
Theorem QQPlot_high_dimension (numerics : Numerics) (quantiles : Quantiles) (g : globals)
    (r0 : replicate) (rest : list replicate) (K : nat) (title filename : string)
    (st : list replicate) (sortedyi : list ndarray) :
  use_function g "OrderReplicates" = Ok tt ->
  use_module g "scipy" "scipy" = Ok tt ->
  OrderReplicates g (r0 :: rest) K = (st, Ok sortedyi) ->
  (3 <= List.length (shape (error r0)))%nat ->
  QQPlot g (r0 :: rest) K title filename
  = (st, ([], Raised (Python (UnboundLocalError "nplots")))).
Proof.
  intros Hfn Hsp Hrun Hdim.
  rewrite (QQPlot_run g r0 rest K title filename st sortedyi Hfn Hsp Hrun).
  destruct (List.length (shape (error r0))) as [|[|[|dim]]]; try lia.
  reflexivity.
Qed.

Lemma QQPlot_high_dimension_witness :
  QQPlot (numerics := rational_numerics) (quantiles := rational_quantiles)
    np_globals one_cube 1 default_title default_filename
  = (one_cube, ([], Raised (Python (UnboundLocalError "nplots")))).
Proof.
  apply (QQPlot_high_dimension rational_numerics rational_quantiles np_globals
           (mkrep (cube (Fin 1)) (cube (Fin (1 # 2))) (cube (Fin 1))) [] 1
           default_title default_filename one_cube [np_zeros [1; 1; 1]%nat]).
  - reflexivity.
  - reflexivity.
  - vm_compute. reflexivity.
  - simpl. lia.
Defined.

(** *** Normal returns of QQPlot *)

Lemma for_plot_total {A : Type} (xs : list A) (body : A -> plot unit) :
  (forall x, In x xs -> exists c, body x = (c, Returned tt)) ->
  exists c, for_plot xs body = (c, Returned tt).
Proof.
  induction xs as [|x xs IH]; intro H; cbn [for_plot].
  - unfold done. eauto.
  - destruct (H x (or_introl eq_refl)) as [c ->].
    destruct IH as [c' E]; [intros y Hy; apply H; now right|].
    cbn [andthen]. rewrite E. eauto.
Qed.

Lemma fill_pairs_total (K : nat) (s : list ndarray) (P : list (nat * nat))
    (yy0 : list (list float)) (lab0 : labels) (k0 : nat) :
  slice_shape s = [K; K] ->
  (forall i j, In (i, j) P -> (i < K)%nat /\ (j < K)%nat) ->
  (k0 + List.length (filter (fun ij => negb (fst ij =? snd ij)%nat) P)
   <= List.length yy0)%nat ->
  exists st, forM P (fill_pair s) (yy0, lab0, k0) = Ok st.
Proof.
  intros Hs. revert yy0 lab0 k0.
  induction P as [|[i j] P IH]; intros yy0 lab0 k0 HP Hk; cbn [forM filter fst snd] in *.
  - eauto.
  - unfold fill_pair at 1.
    destruct (Nat.eqb_spec i j) as [->|Hij]; cbn [negb] in Hk.
    + apply IH; auto. intros; apply HP; now right.
    + destruct (HP i j (or_introl eq_refl)) as [Hi Hj].
      unfold column2. rewrite Hs.
      destruct (Nat.ltb_spec i K); [|lia]. destruct (Nat.ltb_spec j K); [|lia].
      cbn [andb bind]. unfold set_plot_column. cbn [List.length] in Hk.
      destruct (Nat.ltb_spec k0 (List.length yy0)); [|lia]. cbn [bind].
      apply IH.
      * intros; apply HP; now right.
      * rewrite set_nth_length. lia.
Qed.

Lemma in_all_pairs (K i j : nat) : In (i, j) (all_pairs K) -> (i < K)%nat /\ (j < K)%nat.
Proof.
  unfold all_pairs. intro H. apply in_flat_map in H. destruct H as (i' & Hi & H).
  apply in_map_iff in H. destruct H as (j' & E & Hj). injection E as <- <-.
  apply in_seq in Hi. apply in_seq in Hj. lia.
Qed.

(** On the result of [OrderReplicates] for a replicate set of the data
    model, lines 113-137 end normally, and every panel has its column, a
    column of [sortedyi], and its label. *)
Lemma qq_layout_returns (K N : nat) (s : list nat) (rows : list ndarray) :
  model_shape K s -> slice_shape rows = s ->
  exists lay,
    qq_layout (List.length s) K N rows = Ok lay /\
    forall i, (i < nplots lay)%nat ->
      (exists k, nth_error (yy lay) i = Some (column k rows)) /\
      (List.length s = 2%nat -> getitem (labelij lay) i <> None).
Proof.
  intros [->|[->| ->]] Hs; cbn [List.length].
  - assert (E : exists lay, qq_layout 0 K N rows = Ok lay).
    { unfold qq_layout, column0, set_plot_column. rewrite Hs. cbn. eauto. }
    destruct E as [lay E]. exists lay. split; [exact E|].
    apply layout_scalar in E. destruct E as [-> Hy].
    intros i Hi. replace i with 0%nat by lia. split; [eauto|discriminate].
  - assert (E : exists lay, qq_layout 1 K N rows = Ok lay).
    { unfold qq_layout.
      destruct (forM_total (fun yy => List.length yy = K) (seq 0 K)
                  (fun yy i => vals <- column1 rows i ;; set_plot_column i vals yy)%result
                  (repeat (repeat (Fin 0) N) K)) as (yy1 & -> & _).
      - apply repeat_length.
      - intros yy i Hi Hyy. apply in_seq in Hi. unfold column1, set_plot_column.
        rewrite Hs. destruct (Nat.ltb_spec i K); [|lia]. cbn [bind].
        destruct (Nat.ltb_spec i (List.length yy)); [|lia].
        eexists. split; [reflexivity|]. now rewrite set_nth_length.
      - cbn [bind]. eauto. }
    destruct E as [lay E]. exists lay. split; [exact E|].
    apply layout_vector in E. destruct E as [-> Hy].
    intros i Hi. split; [rewrite (Hy i Hi); eauto|discriminate].
  - assert (E : exists lay, qq_layout 2 K N rows = Ok lay).
    { unfold qq_layout.
      rewrite (forM_ext (seq 0 K) _
                 (fun st i => forM (map (fun j => (i, j)) (seq 0 K)) (fill_pair rows) st))
        by (intros st i; symmetry; apply forM_map).
      rewrite <- (forM_flat_map (fun i => map (fun j => (i, j)) (seq 0 K))).
      destruct (fill_pairs_total K rows (all_pairs K) (repeat (repeat (Fin 0) N) (K * K))
                  [] 0 Hs (in_all_pairs K)) as [[[yy1 lab1] k1] E'].
      - fold (off_diagonal K). rewrite length_off_diagonal, repeat_length. nia.
      - unfold all_pairs in E'.
        destruct (forM _ _ _) as [[[yy2 lab2] k2]|e]; [cbn [bind]; eauto|].
        discriminate E'. }
    destruct E as [lay E]. exists lay. split; [exact E|].
    apply (layout_matrix K N K K) in E; [|exact Hs]. destruct E as [-> Hy].
    intros i Hi.
    destruct (nth_error (off_diagonal K) i) as [[a b]|] eqn:Ei;
      [|apply nth_error_None in Ei; lia].
    destruct (Hy i a b Ei) as [Hlab Hcol].
    split; [rewrite Hcol; eauto|]. intros _. rewrite Hlab. discriminate.
Qed.

Lemma float_div_total (x y : float) :
  feq y (Fin 0) = false -> exists z, float_div x y = ([], Returned z).
Proof.
  destruct y as [|b]; cbn [feq float_div]; [unfold done; eauto|].
  intros ->. unfold done. eauto.
Qed.

Section PlotReturns.

Context {numerics : Numerics} {quantiles : Quantiles}.

Lemma panel_returns (dim : nat) (xvals : list float) (lay : layout) (labelsize : float)
    (h w : Z) (i k : nat) (rows : list ndarray) :
  xvals <> [] -> rows <> [] ->
  nth_error (yy lay) i = Some (column k rows) ->
  (dim = 2%nat -> getitem (labelij lay) i <> None) ->
  exists c, panel dim xvals lay labelsize h w i = (c, Returned tt).
Proof.
  intros Hx Hrows Hcol Hlab. unfold panel. rewrite Hcol.
  change (python (Ok (column k rows))) with (done (column k rows)).
  destruct (float_div_total (Fin 75) (of_nat (List.length (column k rows)))) as [ms Hms].
  { rewrite column_length. destruct rows as [|r rows]; [congruence|]. reflexivity. }
  destruct xvals as [|x xvals]; [congruence|].
  cbn [np_min np_max python]. unfold call, done.
  cbn [andthen]. rewrite Hms. cbn [andthen].
  destruct dim as [|[|[|dim]]]; cbn [Nat.eqb andthen call done app]; eauto.
  destruct (getitem (labelij lay) i) as [[a b]|]; [|now destruct Hlab].
  cbn [andthen call app]. eauto.
Qed.

Lemma render_returns (dim : nat) (xvals : list float) (lay : layout)
    (title filename : string) (rows : list ndarray) :
  close_root (nplots lay) (np_sqrt (of_nat (nplots lay))) -> (1 <= nplots lay)%nat ->
  xvals <> [] -> rows <> [] ->
  (forall i, (i < nplots lay)%nat ->
     (exists k, nth_error (yy lay) i = Some (column k rows)) /\
     (dim = 2%nat -> getitem (labelij lay) i <> None)) ->
  exists c, render dim xvals lay title filename = (c, Returned tt).
Proof.
  intros (q & Hq & Hq0 & Hn & _) Hpos Hx Hrows Hpanels. unfold render. rewrite Hq.
  destruct (float_div_total (Fin 30) (Fin q)) as [labelsize ->].
  { cbn [feq]. destruct (Qeq_bool q 0) eqn:E; auto.
    apply Qeq_bool_iff in E. rewrite E in Hn.
    assert (1 <= inject_Z (Z.of_nat (nplots lay))).
    { change 1 with (inject_Z 1). rewrite <- Zle_Qle. lia. }
    lra. }
  cbn [int_of python]. unfold call, done. cbn [andthen].
  match goal with
  | |- context [for_plot ?xs ?body] =>
      destruct (for_plot_total xs body) as [c ->]
  end.
  - intros i Hi. apply in_seq in Hi.
    destruct (Hpanels i ltac:(lia)) as [[k Hk] Hlab].
    now apply (panel_returns dim _ lay _ _ _ i k rows).
  - cbn [andthen app]. eauto.
Qed.

End PlotReturns.

(** X20: with [np], [scipy] and [OrderReplicates] bound as intended and a
    square root in the sense of [close_root], [QQPlot] returns on every
    replicate set of the data model that gives it a panel to draw: a scalar
    quantity, a per-state quantity with one state or more, a state-pair
    quantity with two states or more. *)
Theorem QQPlot_returns (numerics : Numerics) (quantiles : Quantiles) (g : globals)
    (K : nat) (s : list nat) (replicates : list replicate) (title filename : string) :
  use_module g "np" "numpy" = Ok tt ->
  use_module g "scipy" "scipy" = Ok tt ->
  use_function g "OrderReplicates" = Ok tt ->
  (forall n, close_root n (np_sqrt (of_nat n))) ->
  valid_replicates K s replicates ->
  s = [] \/ (s = [K] /\ (1 <= K)%nat) \/ (s = [K; K] /\ (2 <= K)%nat) ->
  exists st calls, QQPlot g replicates K title filename = (st, (calls, Returned tt)).
Proof.
  intros Hnp Hsp Hfn Hsqrt Hv Hpanels.
  destruct (OrderReplicates_returns g K s replicates Hnp Hv) as (st & rows & Hrun).
  destruct Hv as (Hne & Hs & Hok).
  destruct replicates as [|r0 rest]; [congruence|].
  destruct (OrderReplicates_rows _ _ _ _ _ Hrun) as (r0' & rest' & E & Hrows & HL).
  injection E as <- <-.
  assert (H0 : shape (destimated r0) = s /\ shape (error r0) = s).
  { inversion Hok as [|? ? (_ & (He & _) & (Hd & _)) _]. auto. }
  destruct H0 as [Hd He]. rewrite Hd in Hrows.
  assert (Hrows0 : rows <> []) by (destruct rows; [discriminate|congruence]).
  assert (Hslice : slice_shape rows = s).
  { destruct rows as [|row rows]; [congruence|].
    inversion Hrows as [|? ? [Hr _] _]. exact Hr. }
  rewrite (QQPlot_run g r0 rest K title filename st rows Hfn Hsp Hrun), He.
  destruct (qq_layout_returns K (List.length (r0 :: rest)) s rows Hs Hslice)
    as (lay & Hlay & Hcols).
  rewrite Hlay. change (python (Ok lay)) with (done lay). rewrite andthen_done_l.
  assert (Hn : (1 <= nplots lay)%nat).
  { destruct Hpanels as [->|[[-> HK]|[-> HK]]]; cbn [List.length] in Hlay.
    - apply layout_scalar in Hlay. destruct Hlay as [-> _]. lia.
    - apply layout_vector in Hlay. destruct Hlay as [-> _]. lia.
    - apply (layout_matrix K _ K K) in Hlay; [|exact Hslice].
      destruct Hlay as [-> _]. rewrite length_off_diagonal. nia. }
  destruct (render_returns (List.length s)
              (plotting_positions (List.length (r0 :: rest))) lay title filename rows)
    as [c Hc]; auto.
  - unfold plotting_positions. cbn [List.length seq map]. discriminate.
  - rewrite Hc. eauto.
Qed.

Lemma QQPlot_returns_witness :
  exists st calls,
    QQPlot (numerics := rational_numerics) (quantiles := rational_quantiles)
      np_globals three_matrices 2 default_title default_filename
    = (st, (calls, Returned tt)).
Proof.
  apply (QQPlot_returns rational_numerics rational_quantiles np_globals 2 [2; 2]%nat
           three_matrices default_title default_filename).
  - reflexivity.
  - reflexivity.
  - reflexivity.
  - exact rational_close_root.
  - split; [discriminate|]. split; [right; right; reflexivity|].
    repeat constructor.
  - right. right. split; [reflexivity|lia].
Defined.

(** ** generateConfidenceIntervals: [K] above the number of states *)

Section TooManyStates.

Context {numerics : Numerics}.

Lemma test_entry_counts (error_label destimated_label : string) (replicate_index : nat)
    (replicate : replicate) (alpha e d : float) (ab : float * float) :
  isnan e = false -> isnan d = false ->
  test_entry error_label destimated_label replicate_index replicate alpha (Ok e) (Ok d) ab
  = ret (tally alpha e d ab).
Proof.
  intros He Hd. unfold test_entry.
  change (lift (Ok e)) with (ret e). rewrite iobind_ret_l, He.
  change (lift (Ok d)) with (ret d). now rewrite iobind_ret_l, Hd.
Qed.

Lemma item1_clean (d0 i : nat) (a : ndarray) :
  shape a = [d0] -> well_formed a -> nan_free a -> (i < d0)%nat ->
  exists x, item1 a i = Ok x /\ isnan x = false.
Proof.
  intros Hs Hw Hn Hi. unfold well_formed in Hw. rewrite Hs in Hw.
  cbn [size fold_right] in Hw. unfold item1. rewrite Hs.
  destruct (Nat.ltb_spec i d0); [|lia].
  destruct (nth_error (data a) i) as [x|] eqn:E.
  - exists x. split; [reflexivity|]. apply nth_error_In in E.
    unfold nan_free in Hn. rewrite Forall_forall in Hn. exact (Hn x E).
  - apply nth_error_None in E. lia.
Qed.

(** The loop of lines 235-247 over the states of a vector of [d0] entries:
    the first [d0] passes count, the next one reads past the end. *)
Lemma sweep_states_index_error (d0 K : nat) (alpha : float) (replicate_index : nat)
    (r : replicate) (ab : float * float) :
  shape (error r) = [d0] -> well_formed (error r) -> nan_free (error r) ->
  shape (destimated r) = [d0] -> well_formed (destimated r) -> nan_free (destimated r) ->
  (d0 < K)%nat ->
  sweep_replicate 1 K alpha ab (replicate_index, r) = ([], Err IndexError).
Proof.
  intros Hes Hew Hen Hds Hdw Hdn HK. unfold sweep_replicate.
  replace K with (d0 + S (K - S d0))%nat by lia.
  rewrite seq_app, for_io_app.
  assert (Hfirst : forall l ab0, (forall i, In i l -> (i < d0)%nat) ->
            exists ab1,
              for_io l
                (fun ab i =>
                   test_entry "error" "destimated" replicate_index r alpha
                     (item1 (error r) i) (item1 (destimated r) i) ab) ab0
              = ret ab1).
  { induction l as [|i l IH]; intros ab0 Hl; cbn [for_io]; [eauto|].
    destruct (item1_clean d0 i (error r) Hes Hew Hen (Hl i (or_introl eq_refl)))
      as (e & -> & He).
    destruct (item1_clean d0 i (destimated r) Hds Hdw Hdn (Hl i (or_introl eq_refl)))
      as (d & -> & Hd).
    rewrite test_entry_counts, iobind_ret_l by assumption.
    apply IH. intros j Hj. apply Hl. now right. }
  destruct (Hfirst (seq 0 d0) ab) as [ab1 ->].
  { intros i Hi. apply in_seq in Hi. lia. }
  rewrite iobind_ret_l. cbn [Nat.add seq for_io].
  unfold item1 at 1. rewrite Hes, Nat.ltb_irrefl.
  reflexivity.
Qed.

End TooManyStates.

(** X21: [K] above the number of states of a per-state quantity.  When
    replicate 0 holds vectors of [d0 < K] numbers, none a NaN among its
    errors and standard errors, [generateConfidenceIntervals] (under the
    module's own names) raises [IndexError] at line 236, at the first alpha
    and the first replicate, having printed the preamble only. *)
Theorem too_many_states_raise_IndexError (numerics : Numerics) (r0 : replicate)
    (rest : list replicate) (K d0 : nat) :
  replicate_ok [d0] r0 ->
  nan_free (error r0) -> nan_free (destimated r0) ->
  (d0 < K)%nat ->
  generateConfidenceIntervals module_globals (r0 :: rest) K = (preamble, Err IndexError).
Proof.
  intros ((Hs & _) & (Hes & Hew) & (Hds & Hdw)) Hen Hdn HK.
  unfold generateConfidenceIntervals.
  rewrite print_all_run, iobind_run.
  change (lift (use_module module_globals "numpy" "numpy")) with (ret tt).
  rewrite !iobind_ret_l. rewrite Hs. cbn [List.length].
  assert (Hsweep : forall alpha,
            sweep_alpha module_globals 1 K (r0 :: rest) alpha = ([], Err IndexError)).
  { intro alpha. unfold sweep_alpha, count_alpha, enumerate.
    cbn [List.length seq combine for_io].
    rewrite (sweep_states_index_error d0 K) by assumption.
    now rewrite !iobind_stop. }
  assert (Hmap : map_io (sweep_alpha module_globals 1 K (r0 :: rest)) alpha_values
                 = ([], Err IndexError)).
  { rewrite alpha_values_closed. cbn [seq map map_io].
    now rewrite Hsweep, iobind_stop. }
  rewrite Hmap, iobind_stop. cbn [fst snd]. now rewrite app_nil_r.
Qed.

Lemma too_many_states_raise_IndexError_witness :
  generateConfidenceIntervals (numerics := rational_numerics) module_globals
    three_by_two 3 = (preamble, Err IndexError).
Proof.
  apply (too_many_states_raise_IndexError rational_numerics
           (rep [Fin 1; Fin 2] [Fin 1; Fin 2] [Fin 0; Fin 1]) (tl three_by_two) 3 2).
  - repeat split.
  - repeat constructor.
  - repeat constructor.
  - lia.
Defined.

(** ** QQPlot: the plotting positions *)

(** X22: line 111 never evaluates [norm.ppf] at 0, at 1 or outside the unit
    interval: the plotting positions are the quantiles at the [N]
    probabilities [(i + 0.5) / N], each strictly between 0 and 1, and
    probability [i] and probability [N - 1 - i] add up to 1. *)
Theorem plotting_probabilities_inside_unit (numerics : Numerics) (quantiles : Quantiles)
    (N : nat) :
  plotting_positions N = map norm_ppf (plotting_probabilities N) /\
  Forall inside_unit (plotting_probabilities N) /\
  forall i, (i < N)%nat ->
    fadd (nth i (plotting_probabilities N) NaN)
         (nth (N - 1 - i) (plotting_probabilities N) NaN) = Fin 1.
Proof.
  assert (Hentry : forall i, (i < N)%nat ->
            exists p, fdiv (fadd (of_nat i) (Fin (1 # 2))) (of_nat N) = Fin p /\
                      p == (inject_Z (Z.of_nat i) + (1 # 2)) / inject_Z (Z.of_nat N) /\
                      0 < inject_Z (Z.of_nat N)).
  { intros i Hi. cbn [of_nat of_int fadd lift2 fdiv].
    assert (HN : 0 < inject_Z (Z.of_nat N)).
    { change 0 with (inject_Z 0). rewrite <- Zlt_Qlt. lia. }
    assert (E : Qeq_bool (inject_Z (Z.of_nat N)) 0 = false).
    { destruct (Qeq_bool (inject_Z (Z.of_nat N)) 0) eqn:E; auto.
      apply Qeq_bool_iff in E. lra. }
    rewrite E. eexists. split; [reflexivity|]. split; [|exact HN].
    rewrite !Qred_correct. reflexivity. }
  split; [|split].
  - unfold plotting_positions, plotting_probabilities. now rewrite map_map.
  - unfold plotting_probabilities. apply Forall_forall. intros x Hx.
    apply in_map_iff in Hx. destruct Hx as (i & <- & Hi). apply in_seq in Hi.
    destruct (Hentry i ltac:(lia)) as (p & -> & Hp & HN).
    exists p. split; [reflexivity|].
    assert (Hi0 : 0 <= inject_Z (Z.of_nat i)).
    { change 0 with (inject_Z 0). rewrite <- Zle_Qle. lia. }
    assert (Hi1 : inject_Z (Z.of_nat i) + 1 <= inject_Z (Z.of_nat N)).
    { change 1 with (inject_Z 1). rewrite <- inject_Z_plus, <- Zle_Qle. lia. }
    rewrite Hp. split.
    + apply Qlt_shift_div_l; [exact HN|]. lra.
    + apply Qlt_shift_div_r; [exact HN|]. lra.
  - intros i Hi. unfold plotting_probabilities.
    rewrite !(nth_map_default _ _ _ 0%nat NaN) by (rewrite length_seq; lia).
    rewrite !seq_nth by lia. cbn [Nat.add].
    destruct (Hentry i Hi) as (p & -> & Hp & HN).
    destruct (Hentry (N - 1 - i)%nat ltac:(lia)) as (p' & -> & Hp' & _).
    cbn [fadd lift2]. f_equal.
    change 1 with (Qred 1). apply Qred_complete.
    rewrite Hp, Hp'.
    replace (Z.of_nat (N - 1 - i)) with (Z.of_nat N - 1 - Z.of_nat i)%Z by lia.
    unfold Zminus. rewrite !inject_Z_plus, !inject_Z_opp.
    change (inject_Z 1) with 1. field. lra.
Qed.

(** ** [K] below the number of states *)

(** X23: [K] below the number of states in [AndersonDarling].  For a
    per-state quantity over [d0] states, a state [k] with [K <= k < d0] and
    a non-zero standard error gets the statistic of a sample of [N] zeros,
    whatever its errors are: [OrderReplicates] left its column at the zeros
    of line 47. *)
Theorem unsorted_states_get_the_statistic_of_zeros (numerics : Numerics) (g : globals)
    (r0 : replicate) (rest : list replicate) (K d0 k : nat)
    (st : list replicate) (A2 : ndarray) :
  shape (destimated r0) = [d0] -> well_formed (destimated r0) ->
  (K <= k < d0)%nat ->
  feq (nth k (data (destimated r0)) NaN) (Fin 0) = false ->
  AndersonDarling g (r0 :: rest) K = (st, Ok A2) ->
  nth k (data A2) NaN
  = ad_value (List.length (r0 :: rest)) (repeat (Fin 0) (List.length (r0 :: rest))).
Proof.
  intros Hd Hwf Hk Hnz Hrun.
  assert (Hres : snd (AndersonDarling g (r0 :: rest) K) = Ok A2) by now rewrite Hrun.
  rewrite AndersonDarling_result in Hres.
  destruct (use_function g "OrderReplicates"); [|discriminate].
  destruct (OrderReplicates g (r0 :: rest) K) as [st' [s|e]] eqn:E; [|discriminate].
  cbn [snd] in Hres.
  destruct (use_module g "np" "numpy"); [|discriminate].
  destruct (OrderReplicates_rows _ _ _ _ _ E) as (r0' & rest' & Heq & Hrows & HL).
  injection Heq as <- <-.
  destruct (OrderReplicates_Ok _ _ _ _ _ E) as (r0' & rest' & Heq & _ & _ & Hs & _).
  injection Heq as <- <-.
  assert (Hsize : (k < size (shape (destimated r0)))%nat).
  { rewrite Hd. cbn [size fold_right]. lia. }
  apply ad_statistic_entry in Hres; auto.
  - destruct Hres as [_ Hentry]. rewrite (Hentry k Hsize).
    rewrite zerosigma_entry by (unfold well_formed in Hwf; lia).
    rewrite Hnz. f_equal.
    apply sort_by_dims_fold in Hs. destruct Hs as [-> Hin].
    rewrite (column_fold_sort (shape (destimated r0))); auto.
    + rewrite Hd. cbn [written_offsets].
      replace (existsb (Nat.eqb k) (seq 0 K)) with false.
      * rewrite <- Hd. now apply (column_zeros (shape (destimated r0)) k (r0 :: rest)).
      * symmetry. apply not_true_iff_false. intro H. apply existsb_exists in H.
        destruct H as (i & Hi & Heq). apply in_seq in Hi. apply Nat.eqb_eq in Heq. lia.
    + apply Forall_forall. intros r Hr. apply in_map_iff in Hr.
      destruct Hr as (? & <- & _). apply np_zeros_ok.
    + now rewrite !length_map.
  - unfold zerosigma_of. rewrite length_map. exact Hwf.
Qed.

Lemma unsorted_states_get_the_statistic_of_zeros_witness :
  exists st A2,
    AndersonDarling (numerics := rational_numerics) np_globals three_by_two 1 = (st, Ok A2) /\
    nth 1 (data A2) NaN = ad_value (numerics := rational_numerics) 3 (repeat (Fin 0) 3).
Proof.
  destruct (AndersonDarling (numerics := rational_numerics) np_globals three_by_two 1)
    as [st [A2|e]] eqn:E; [|exfalso; vm_compute in E; discriminate E].
  exists st, A2. split; [reflexivity|].
  apply (unsorted_states_get_the_statistic_of_zeros rational_numerics np_globals
           (rep [Fin 1; Fin 2] [Fin 1; Fin 2] [Fin 0; Fin 1]) (tl three_by_two)
           1 2 1 st A2).
  - reflexivity.
  - reflexivity.
  - lia.
  - reflexivity.
  - exact E.
Defined.

Section TooFewStates.

Context {numerics : Numerics}.

Lemma summary_statistics_too_few_states (r0 : replicate) (rest : list replicate)
    (K d0 : nat) :
  shape (estimated r0) = [d0] -> (1 <= K)%nat -> K <> d0 ->
  summary_statistics 1 K (r0 :: rest) = Err ValueError.
Proof.
  intros Hs HK Hne. unfold summary_statistics, enumerate.
  cbn [vals_shape List.length seq combine forM populate_replicate].
  destruct K as [|K]; [lia|]. cbn [seq forM].
  unfold assign_replicate at 1. unfold assign_slice at 1. rewrite Hs.
  cbn [shape_eqb]. destruct (Nat.eqb_spec d0 (S K)); [congruence|]. reflexivity.
Qed.

End TooFewStates.

(** X24: [K] below the number of states in [generateConfidenceIntervals].
    For a per-state quantity over [d0] states and [1 <= K < d0], with no NaN
    among the entries the sweep tests, the call (under the module's own
    names) tests the first [K] states only, prints the preamble and the
    whole table, and then raises [ValueError] at line 300, where the [d0]
    estimates of replicate 0 do not fit a row of [K] numbers; the summary
    is not printed and nothing is returned. *)
Theorem too_few_states_raise_ValueError (numerics : Numerics) (r0 : replicate)
    (rest : list replicate) (K d0 : nat) :
  shape (estimated r0) = [d0] -> (1 <= K < d0)%nat ->
  Forall (fun v => classify v = Clean) (visits 1 K (r0 :: rest)) ->
  exists rows,
    List.length rows = nalpha /\
    generateConfidenceIntervals module_globals (r0 :: rest) K
    = (preamble ++ table_heading ++ coverage_lines alpha_values rows Pnorm_values,
       Err ValueError).
Proof.
  intros Hs HK Hclean.
  destruct (map_io_total (sweep_alpha module_globals 1 K (r0 :: rest)) alpha_values)
    as [rows Hrows].
  { intro alpha. apply sweep_alpha_returns_clean; auto. }
  exists rows. split.
  { apply map_io_Ok in Hrows. destruct Hrows as [HL _].
    now rewrite HL, alpha_values_length. }
  unfold generateConfidenceIntervals.
  rewrite print_all_run, iobind_run.
  change (lift (use_module module_globals "numpy" "numpy")) with (ret tt).
  change (lift (use_module module_globals "scipy" "scipy")) with (ret tt).
  rewrite !iobind_ret_l. rewrite Hs. cbn [List.length].
  rewrite Hrows, iobind_ret_l, print_all_run.
  rewrite (summary_statistics_too_few_states r0 rest K d0) by (auto; lia).
  unfold table_heading.
  cbn [print lift iobind fst snd app]. rewrite app_nil_r.
  reflexivity.
Qed.

Lemma too_few_states_raise_ValueError_witness :
  exists rows,
    List.length rows = nalpha /\
    generateConfidenceIntervals (numerics := rational_numerics) module_globals
      three_by_two 1
    = (preamble ++ table_heading
       ++ coverage_lines alpha_values rows (Pnorm_values (numerics := rational_numerics)),
       Err ValueError).
Proof.
  apply (too_few_states_raise_ValueError rational_numerics
           (rep [Fin 1; Fin 2] [Fin 1; Fin 2] [Fin 0; Fin 1]) (tl three_by_two) 1 2).
  - reflexivity.
  - lia.
  - repeat constructor.
Defined.

(** * Further properties: the two functions on binary64 *)

(** ** Binary64: comparison and the zero mask *)

Section Binary64Arithmetic.

Import Floats.
Local Open Scope float_scope.

Lemma SFcompare_refl (a : spec_float) :
  a <> S754_nan -> SFcompare a a = Some Eq.
Proof.
  destruct a as [s|s| |s m e]; intro H; try congruence; cbn.
  - reflexivity.
  - now destruct s.
  - destruct s; rewrite Z.compare_refl, Pos.compare_cont_refl; reflexivity.
Qed.

Lemma SFcompare_None (a b : spec_float) :
  SFcompare a b = None -> a = S754_nan \/ b = S754_nan.
Proof.
  destruct a as [s|s| |s m e], b as [s'|s'| |s' m' e']; cbn; auto; discriminate.
Qed.

Lemma SFcompare_antisym (a b : spec_float) (c : comparison) :
  SFcompare a b = Some c -> SFcompare b a = Some (CompOpp c).
Proof.
  destruct a as [s|s| |s m e], b as [s'|s'| |s' m' e']; cbn; try discriminate;
    intro H; injection H as <-; f_equal;
    try (destruct s; reflexivity); try (destruct s'; reflexivity);
    try (destruct s, s'; reflexivity).
  destruct s, s'; try reflexivity;
    rewrite (Z.compare_antisym e e');
    destruct (e ?= e')%Z; cbn; try reflexivity;
    rewrite (Pos.compare_cont_antisym m m' Eq); reflexivity.
Qed.

Lemma is_nan_Prim2SF (x : float64) :
  is_nan x = true <-> Prim2SF x = S754_nan.
Proof.
  unfold is_nan. rewrite eqb_spec. unfold SFeqb. split.
  - intro H. destruct (Prim2SF x) eqn:E; auto;
      rewrite SFcompare_refl in H by discriminate; discriminate.
  - intros ->. reflexivity.
Qed.

(** On numbers [<=] is total. *)
Lemma leb_total64 (x y : float64) :
  is_nan x = false -> is_nan y = false -> (x <=? y) = false -> (y <=? x) = true.
Proof.
  intros Hx Hy. rewrite !leb_spec. unfold SFleb.
  destruct (SFcompare (Prim2SF x) (Prim2SF y)) as [c|] eqn:E.
  - rewrite (SFcompare_antisym _ _ _ E). now destruct c.
  - apply SFcompare_None in E. destruct E as [E|E]; apply is_nan_Prim2SF in E; congruence.
Qed.

Lemma leb64_number (x y : float64) :
  is_nan x = false -> is_nan y = false -> leb64 x y = (x <=? y).
Proof. intros Hx Hy. unfold leb64. now rewrite Hx, Hy. Qed.

End Binary64Arithmetic.

(** ** Binary64: numpy.sort and the sorted columns *)

Section Binary64Sort.

Import Floats.
Local Open Scope float_scope.

Lemma insert64_length (x : float64) (l : list float64) :
  List.length (insert64 x l) = S (List.length l).
Proof.
  induction l as [|y l IH]; cbn [insert64]; [reflexivity|].
  destruct (leb64 x y); cbn [List.length]; auto.
Qed.

Lemma np_sort64_length (l : list float64) : List.length (np_sort64 l) = List.length l.
Proof.
  unfold np_sort64. induction l as [|x l IH]; cbn [fold_right List.length]; auto.
  now rewrite insert64_length, IH.
Qed.

Lemma insert64_numbers (x : float64) (l : list float64) :
  is_nan x = false -> Forall (fun y => is_nan y = false) l ->
  Forall (fun y => is_nan y = false) (insert64 x l).
Proof.
  intros Hx Hl. induction Hl as [|y l Hy Hl IH]; cbn [insert64]; [now constructor|].
  destruct (leb64 x y); repeat constructor; auto.
Qed.

Lemma insert64_sorted (x : float64) (l : list float64) :
  is_nan x = false -> Forall (fun y => is_nan y = false) l ->
  Sorted (fun a b => (a <=? b) = true) l ->
  Sorted (fun a b => (a <=? b) = true) (insert64 x l).
Proof.
  intros Hx Hl Hs. induction Hs as [|y l Hs IH Hd]; cbn [insert64].
  - repeat constructor.
  - apply Forall_cons_iff in Hl. destruct Hl as [Hy Hl].
    rewrite (leb64_number x y Hx Hy).
    destruct (x <=? y) eqn:E.
    + constructor; [now constructor|]. now constructor.
    + constructor; [now apply IH|].
      destruct l as [|z l]; cbn [insert64].
      * constructor. now apply leb_total64.
      * apply Forall_cons_iff in Hl. destruct Hl as [Hz _].
        rewrite (leb64_number x z Hx Hz).
        inversion Hd as [|? ? Hyz]; subst.
        destruct (x <=? z); constructor; auto. now apply leb_total64.
Qed.

Lemma np_sort64_sorted (l : list float64) :
  Forall (fun y => is_nan y = false) l ->
  Forall (fun y => is_nan y = false) (np_sort64 l) /\
  Sorted (fun a b => (a <=? b) = true) (np_sort64 l).
Proof.
  unfold np_sort64. intro H. induction H as [|x l Hx Hl [IH1 IH2]]; cbn [fold_right].
  - split; constructor.
  - split; [now apply insert64_numbers|now apply insert64_sorted].
Qed.

Lemma sorted_ascending64 (l : list float64) :
  Sorted (fun a b => (a <=? b) = true) l -> ascending64 l.
Proof.
  intro H. induction H as [|x l Hs IH Hd]; intros i Hi; cbn [List.length] in Hi; [lia|].
  destruct i as [|i].
  - destruct l as [|y l]; cbn [List.length] in Hi; [lia|].
    inversion Hd; subst. assumption.
  - cbn [nth]. apply IH. lia.
Qed.

(** [numpy.sort] of a column of numbers is ascending. *)
Lemma np_sort64_ascending (l : list float64) :
  Forall (fun y => is_nan y = false) l -> ascending64 (np_sort64 l).
Proof. intro H. apply sorted_ascending64. now apply np_sort64_sorted. Qed.

Lemma column64_length (k : nat) (rows : list (list float64)) :
  List.length (column64 k rows) = List.length rows.
Proof. apply length_map. Qed.

Lemma set_column64_length (k : nat) (vals : list float64) (rows : list (list float64)) :
  List.length vals = List.length rows ->
  List.length (set_column64 k vals rows) = List.length rows.
Proof. intro H. unfold set_column64. rewrite map2_length. lia. Qed.

Lemma set_column64_rows (d0 k : nat) (vals : list float64) (rows : list (list float64)) :
  Forall (fun row => List.length row = d0) rows ->
  Forall (fun row => List.length row = d0) (set_column64 k vals rows).
Proof.
  unfold set_column64. intro H. revert vals.
  induction H as [|row rows Hr _ IH]; intros [|v vals]; cbn [map2]; constructor.
  - now rewrite set_nth_length.
  - apply IH.
Qed.

Lemma column64_set_same (d0 k : nat) (vals : list float64) (rows : list (list float64)) :
  (k < d0)%nat -> List.length vals = List.length rows ->
  Forall (fun row => List.length row = d0) rows ->
  column64 k (set_column64 k vals rows) = vals.
Proof.
  unfold column64, set_column64. intros Hk HL H. revert vals HL.
  induction H as [|row rows Hr _ IH]; intros [|v vals] HL; cbn in HL; try discriminate;
    cbn [map2 map]; [reflexivity|].
  rewrite nth_set_nth_same by lia. rewrite IH by lia. reflexivity.
Qed.

Lemma column64_set_other (k k' : nat) (vals : list float64) (rows : list (list float64)) :
  k <> k' -> List.length vals = List.length rows ->
  column64 k' (set_column64 k vals rows) = column64 k' rows.
Proof.
  unfold column64, set_column64. intros Hk. revert vals.
  induction rows as [|row rows IH]; intros [|v vals] HL; cbn in HL; try discriminate;
    cbn [map2 map]; [reflexivity|].
  rewrite nth_set_nth_other by exact Hk. rewrite IH by lia. reflexivity.
Qed.

Lemma corrected_sigma64_length (r0 : replicate64) :
  List.length (corrected_sigma64 r0) = List.length (destimated64 r0).
Proof.
  unfold corrected_sigma64, add_mask64, zerosigma64.
  rewrite map2_length, length_map. lia.
Qed.

(** What a normal return of [OrderReplicates64] went through. *)
Lemma OrderReplicates64_Ok (replicates : list replicate64) (K : nat)
    (sigma : list float64) (s : list (list float64)) :
  OrderReplicates64 replicates K = Ok (sigma, s) ->
  exists r0 rest,
    replicates = r0 :: rest /\
    Forall (fun r => List.length (error64 r) = List.length (destimated64 r0)) replicates /\
    forM (seq 0 K)
      (fun t i =>
         if (i <? List.length (destimated64 r0))%nat
         then Ok (set_column64 i
                    (np_sort64 (column64 i (map (normalized64 (corrected_sigma64 r0))
                                              replicates))) t)
         else Err IndexError)
      (map (fun _ => repeat 0 (List.length (destimated64 r0))) replicates) = Ok s /\
    sigma = sub_mask64 (corrected_sigma64 r0) (zerosigma64 (destimated64 r0)).
Proof.
  unfold OrderReplicates64. destruct replicates as [|r0 rest]; [discriminate|].
  cbv zeta. fold (corrected_sigma64 r0). rewrite corrected_sigma64_length.
  unfold bind.
  destruct (mapM _ (r0 :: rest)) as [yi|e] eqn:Ey; [|discriminate].
  assert (Hlen : Forall (fun r => List.length (error64 r) = List.length (destimated64 r0))
                   (r0 :: rest)).
  { apply Forall_forall. intros r Hr.
    destruct (mapM_Ok_each _ _ _ Ey r Hr) as [b Hb].
    destruct (Nat.eqb_spec (List.length (error64 r)) (List.length (destimated64 r0)));
      [assumption|discriminate]. }
  assert (Hyi : yi = map (normalized64 (corrected_sigma64 r0)) (r0 :: rest)).
  { revert Ey. apply mapM_Ok_map. intros r _ b.
    destruct (_ =? _)%nat; [|discriminate]. now intro E; injection E as <-. }
  subst yi. rewrite map_map.
  rewrite (map_ext_in (fun x => repeat 0 (List.length (normalized64 (corrected_sigma64 r0) x)))
                      (fun _ => repeat 0 (List.length (destimated64 r0)))).
  2:{ intros r Hr. rewrite Forall_forall in Hlen. unfold normalized64.
      rewrite map2_length, corrected_sigma64_length, (Hlen r Hr), Nat.min_id. reflexivity. }
  destruct (forM _ _ _) as [s'|e] eqn:Es; [|discriminate].
  intro H. injection H as <- <-.
  exists r0, rest. repeat split; auto.
Qed.

End Binary64Sort.

(** X25: [OrderReplicates] on binary64, for a per-state quantity.  When no
    quotient [error / sigma] of line 45 is a NaN -- infinities and zeros of
    either sign allowed --, every column of the result is ascending along the
    replicates in the order of the machine: [normalized[i] <= normalized[i+1]]. *)
Theorem OrderReplicates64_sorted (replicates : list replicate64) (K : nat)
    (sigma : list float64) (s : list (list float64)) :
  normalized_without_nan64 replicates ->
  OrderReplicates64 replicates K = Ok (sigma, s) ->
  forall k, (k < List.length sigma)%nat -> ascending64 (column64 k s).
Proof.
  intros Hnan Hrun. apply OrderReplicates64_Ok in Hrun.
  destruct Hrun as (r0 & rest & -> & Hlen & Hs & ->).
  cbn [normalized_without_nan64] in Hnan.
  set (d0 := List.length (destimated64 r0)) in *.
  set (yi := map (normalized64 (corrected_sigma64 r0)) (r0 :: rest)) in *.
  assert (Hyi : List.length yi = List.length (r0 :: rest)) by apply length_map.
  assert (Hcol : forall k, (k < d0)%nat ->
                   Forall (fun y => PrimFloat.is_nan y = false) (column64 k yi)).
  { intros k Hk. unfold column64, yi. rewrite map_map. apply Forall_forall.
    intros x Hx. apply in_map_iff in Hx. destruct Hx as (r & <- & Hr).
    now apply Hnan. }
  assert (Hd0 : List.length (sub_mask64 (corrected_sigma64 r0) (zerosigma64 (destimated64 r0)))
                = d0).
  { unfold sub_mask64, zerosigma64.
    rewrite map2_length, corrected_sigma64_length, length_map. apply Nat.min_id. }
  rewrite Hd0.
  assert (Hinv : List.length s = List.length yi /\
                 Forall (fun row => List.length row = d0) s /\
                 forall k, (k < d0)%nat -> ascending64 (column64 k s)).
  { revert Hs.
    apply (forM_invariant
             (fun t => List.length t = List.length yi /\
                       Forall (fun row => List.length row = d0) t /\
                       forall k, (k < d0)%nat -> ascending64 (column64 k t))).
    - split; [|split].
      + now rewrite length_map.
      + apply Forall_forall. intros x Hx. apply in_map_iff in Hx.
        destruct Hx as (r & <- & _). apply repeat_length.
      + intros k Hk i Hi. unfold column64 in *. rewrite map_map in *.
        rewrite length_map in Hi.
        rewrite !(nth_map_default _ _ _ r0) by lia.
        rewrite !nth_repeat_lt by exact Hk. reflexivity.
    - intros t i t' _ (Hl & Hrows & Hasc).
      destruct (Nat.ltb_spec i d0) as [Hi|Hi]; [|discriminate].
      intro H. injection H as <-.
      assert (HL : List.length (np_sort64 (column64 i yi)) = List.length t)
        by now rewrite np_sort64_length, column64_length.
      split; [|split].
      + rewrite set_column64_length; auto.
      + now apply set_column64_rows.
      + intros k Hk. destruct (Nat.eq_dec i k) as [<-|Hne].
        * rewrite (column64_set_same d0); auto.
          exact (np_sort64_ascending (column64 i yi) (Hcol i Hi)).
        * rewrite column64_set_other; auto. }
  destruct Hinv as (_ & _ & Hasc). exact Hasc.
Qed.

Section Binary64SortedWitness.

Import Floats.
Local Open Scope float_scope.

Lemma OrderReplicates64_sorted_witness :
  normalized_without_nan64 with_infinities64 /\
  forall k, (k < 2)%nat ->
    ascending64 (column64 k [[neg_infinity; 1]; [-2; 2]; [infinity; 3]]).
Proof.
  assert (C : normalized_without_nan64 with_infinities64).
  { intros r k Hr Hk. cbn in Hk.
    destruct k as [|[|k]]; [| |lia];
      (destruct Hr as [<-|[<-|[<-|[]]]]; vm_compute; reflexivity). }
  split; [exact C|].
  apply (OrderReplicates64_sorted with_infinities64 2 [1; 0]
           [[neg_infinity; 1]; [-2; 2]; [infinity; 3]] C).
  vm_compute. reflexivity.
Defined.

End Binary64SortedWitness.

(** ** Binary64: the zero mask and rescaling *)

Section Binary64Rescaling.

Import Floats.
Local Open Scope float_scope.

Lemma Prim2SF_zero : Prim2SF 0 = S754_zero false.
Proof. vm_compute. reflexivity. Qed.

(** [x == 0] holds of the two zeros only. *)
Lemma eqb_zero64 (x : float64) :
  (x =? 0) = match Prim2SF x with S754_zero _ => true | _ => false end.
Proof.
  rewrite eqb_spec, Prim2SF_zero. unfold SFeqb.
  destruct (Prim2SF x) as [s|s| |s m e]; cbn; try reflexivity; now destruct s.
Qed.

(** Lines 41 and 59 on one entry: adding the mask and taking it away again
    leaves the entry zero or not zero as it was. *)
Lemma restore_entry64 (x : float64) :
  ((x + of_bool64 (x =? 0)) - of_bool64 (x =? 0) =? 0) = (x =? 0).
Proof.
  destruct (x =? 0) eqn:E; cbn [of_bool64].
  - rewrite eqb_zero64 in E.
    assert (H : x + 1 = 1).
    { apply Prim2SF_inj. rewrite add_spec. unfold SF64add, SFadd.
      destruct (Prim2SF x) as [s|s| |s m e]; try discriminate.
      vm_compute. reflexivity. }
    rewrite H. vm_compute. reflexivity.
  - rewrite eqb_zero64 in E. rewrite eqb_zero64, sub_spec, add_spec, Prim2SF_zero.
    unfold SF64sub, SF64add, SFsub, SFadd.
    destruct (Prim2SF x) as [s|s| |s m e]; try discriminate; reflexivity.
Qed.

Lemma restore_zerosigma64 (r0 : replicate64) :
  zerosigma64 (sub_mask64 (corrected_sigma64 r0) (zerosigma64 (destimated64 r0)))
  = zerosigma64 (destimated64 r0).
Proof.
  unfold zerosigma64, sub_mask64, corrected_sigma64, add_mask64, zerosigma64.
  induction (destimated64 r0) as [|x l IH]; cbn [map map2]; [reflexivity|].
  rewrite IH, restore_entry64. reflexivity.
Qed.

Lemma restored_sigma64_length (r0 : replicate64) :
  List.length (sub_mask64 (corrected_sigma64 r0) (zerosigma64 (destimated64 r0)))
  = List.length (destimated64 r0).
Proof.
  unfold sub_mask64, zerosigma64.
  rewrite map2_length, corrected_sigma64_length, length_map. apply Nat.min_id.
Qed.

Lemma mapM_lockstep {A A' B B' : Type} (R : B' -> B -> Prop)
    (f' : A' -> result B') (f : A -> result B) (h : A -> A') (l : list A) :
  (forall a, In a l -> same_outcome R (f' (h a)) (f a)) ->
  same_outcome (Forall2 R) (mapM f' (map h l)) (mapM f l).
Proof.
  intro H. induction l as [|a l IH]; cbn [map mapM]; [constructor|].
  pose proof (H a (or_introl eq_refl)) as Ha. unfold same_outcome in Ha.
  destruct (f' (h a)) as [b'|e'], (f a) as [b|e]; try contradiction; [|exact Ha].
  assert (IH' : same_outcome (Forall2 R) (mapM f' (map h l)) (mapM f l))
    by (apply IH; intros x Hx; apply H; now right).
  unfold same_outcome in IH' |- *.
  destruct (mapM f' (map h l)), (mapM f l); try contradiction; auto.
Qed.

Lemma rows_rel64_length (mask : list bool) (s' s : list (list float64)) :
  Forall2 (row_rel64 mask) s' s -> List.length s' = List.length s.
Proof. apply Forall2_length. Qed.

Lemma rows_rel64_column (mask : list bool) (s' s : list (list float64)) (k : nat) :
  Forall2 (row_rel64 mask) s' s -> nth k mask false = false ->
  column64 k s' = column64 k s.
Proof.
  intros H Hk. unfold column64.
  induction H as [|r' r s' s (_ & Hr) _ IH]; cbn [map]; [reflexivity|].
  rewrite IH, (Hr k Hk). reflexivity.
Qed.

Lemma rows_rel64_zeros (mask : list bool) (s' s : list (list float64)) :
  Forall2 (row_rel64 mask) s' s ->
  map (fun y => repeat 0 (List.length y)) s' = map (fun y => repeat 0 (List.length y)) s.
Proof.
  intro H. induction H as [|r' r s' s (Hl & _) _ IH]; cbn [map]; [reflexivity|].
  now rewrite Hl, IH.
Qed.

Lemma rows_rel64_nth_error (mask : list bool) (s' s : list (list float64)) (i : nat) :
  Forall2 (row_rel64 mask) s' s ->
  match nth_error s' i, nth_error s i with
  | Some r', Some r => row_rel64 mask r' r
  | None, None => True
  | _, _ => False
  end.
Proof.
  intro H. revert i. induction H as [|r' r s' s Hr _ IH]; intros [|i]; cbn; auto.
  apply IH.
Qed.

Lemma rows_rel64_refl (mask : list bool) (s : list (list float64)) :
  Forall2 (row_rel64 mask) s s.
Proof. induction s; constructor; auto. now split. Qed.

Lemma set_column64_rel (mask : list bool) (k : nat) (v' v : list float64)
    (t' t : list (list float64)) :
  Forall2 (row_rel64 mask) t' t ->
  List.length v' = List.length v ->
  (nth k mask false = false -> v' = v) ->
  Forall2 (row_rel64 mask) (set_column64 k v' t') (set_column64 k v t).
Proof.
  unfold set_column64. intros H. revert v' v.
  induction H as [|r' r t' t (Hl & Hr) _ IH]; intros [|x' v'] [|x v] HL Hv;
    cbn in HL; try discriminate; cbn [map2]; constructor.
  - split.
    + now rewrite !set_nth_length.
    + intros k' Hk'. destruct (Nat.eq_dec k k') as [<-|Hne].
      * specialize (Hv Hk'). injection Hv as -> _.
        destruct (Nat.lt_ge_cases k (List.length r)) as [Hlt|Hge].
        -- rewrite !nth_set_nth_same by lia. reflexivity.
        -- rewrite !nth_overflow by (rewrite set_nth_length; lia). reflexivity.
      * rewrite !nth_set_nth_other by exact Hne. now apply Hr.
  - apply IH; [lia|]. intro Hk. specialize (Hv Hk). now injection Hv.
Qed.

Lemma rescaled_sigma64_length (c : float64) (r0 : replicate64) :
  List.length (corrected_sigma64 (rescale64 c r0)) = List.length (corrected_sigma64 r0).
Proof.
  rewrite !corrected_sigma64_length. cbn [rescale64 destimated64]. apply length_map.
Qed.

(** [OrderReplicates64] on the rescaled replicates: the same exception, or the
    same mask at line 91 and the same columns wherever the mask is clear. *)
Lemma OrderReplicates64_rescale (c : float64) (r0 : replicate64)
    (rest : list replicate64) (K : nat) :
  mask_kept64 c (r0 :: rest) ->
  ratios_kept64 c (r0 :: rest) ->
  same_outcome
    (fun o' o : list float64 * list (list float64) =>
       zerosigma64 (fst o') = zerosigma64 (fst o) /\
       zerosigma64 (fst o) = zerosigma64 (destimated64 r0) /\
       List.length (fst o') = List.length (fst o) /\
       Forall2 (row_rel64 (zerosigma64 (destimated64 r0))) (snd o') (snd o))
    (OrderReplicates64 (map (rescale64 c) (r0 :: rest)) K)
    (OrderReplicates64 (r0 :: rest) K).
Proof.
  intros Hmask Hratio. cbn [mask_kept64] in Hmask. cbn [ratios_kept64] in Hratio.
  unfold OrderReplicates64. cbn [map]. cbv zeta.
  fold (corrected_sigma64 (rescale64 c r0)). fold (corrected_sigma64 r0).
  change (rescale64 c r0 :: map (rescale64 c) rest) with (map (rescale64 c) (r0 :: rest)).
  rewrite rescaled_sigma64_length.
  assert (HM : same_outcome (Forall2 (row_rel64 (zerosigma64 (destimated64 r0))))
                 (mapM (fun replicate =>
                          if (List.length (error64 replicate)
                              =? List.length (corrected_sigma64 r0))%nat
                          then Ok (map2 PrimFloat.div (error64 replicate)
                                     (corrected_sigma64 (rescale64 c r0)))
                          else Err ValueError)
                       (map (rescale64 c) (r0 :: rest)))
                 (mapM (fun replicate =>
                          if (List.length (error64 replicate)
                              =? List.length (corrected_sigma64 r0))%nat
                          then Ok (map2 PrimFloat.div (error64 replicate) (corrected_sigma64 r0))
                          else Err ValueError)
                       (r0 :: rest))).
  { apply mapM_lockstep. intros r Hr.
    cbn [rescale64 error64]. rewrite length_map.
    destruct (_ =? _)%nat eqn:El; [|reflexivity].
    apply Nat.eqb_eq in El. cbn [same_outcome]. split.
    - rewrite !map2_length, rescaled_sigma64_length, length_map. reflexivity.
    - intros k Hk. exact (Hratio r k Hr Hk). }
  unfold same_outcome in HM. unfold bind.
  destruct (mapM _ (map (rescale64 c) (r0 :: rest))) as [yi'|e'],
           (mapM _ (r0 :: rest)) as [yi|e]; try contradiction; [|exact HM].
  rewrite (rows_rel64_zeros _ yi' yi HM).
  match goal with
  | |- same_outcome _ match forM ?xs ?b' ?z with _ => _ end
                      match forM ?xs ?b ?z with _ => _ end =>
      assert (HF : same_outcome (Forall2 (row_rel64 (zerosigma64 (destimated64 r0))))
                     (forM xs b' z) (forM xs b z))
  end.
  { apply forM_lockstep; [apply rows_rel64_refl|].
    intros t' t i _ Ht.
    destruct (i <? _)%nat; [|reflexivity]. cbn [same_outcome].
    apply set_column64_rel; auto.
    - rewrite !np_sort64_length, !column64_length. now apply rows_rel64_length in HM.
    - intro Hk. now rewrite (rows_rel64_column _ yi' yi i HM Hk). }
  unfold same_outcome in HF.
  destruct (forM _ _ _) as [s'|e'], (forM _ _ _) as [s|e]; try contradiction; [|exact HF].
  cbn [same_outcome fst snd].
  rewrite !restore_zerosigma64, !restored_sigma64_length.
  split; [exact Hmask|]. split; [reflexivity|]. split; [|exact HF].
  cbn [rescale64 destimated64]. apply length_map.
Qed.

End Binary64Rescaling.

(** X26: [AndersonDarling] on binary64, for a per-state quantity.  It answers
    the same on the replicates rescaled by [c] as on the replicates themselves
    -- the same statistic for every state, or the same exception -- whenever
    the rescaling keeps the zero mask of replicate 0 (line 39) and, where the
    mask is clear, the quotients [error / sigma] (line 45), whatever
    [norm.cdf] and [log] are. *)
Theorem AndersonDarling64_scale_invariant (numerics64 : Numerics64) (c : float64)
    (replicates : list replicate64) (K : nat) :
  mask_kept64 c replicates ->
  ratios_kept64 c replicates ->
  AndersonDarling64 (map (rescale64 c) replicates) K = AndersonDarling64 replicates K.
Proof.
  intros Hmask Hratio. destruct replicates as [|r0 rest]; [reflexivity|].
  pose proof (OrderReplicates64_rescale c r0 rest K Hmask Hratio) as HO.
  unfold AndersonDarling64, bind. unfold same_outcome in HO.
  destruct (OrderReplicates64 (map (rescale64 c) (r0 :: rest)) K) as [[d' s']|e'],
           (OrderReplicates64 (r0 :: rest) K) as [[d s]|e];
    try contradiction; [|now rewrite HO].
  cbn [fst snd] in HO. destruct HO as (Hm' & Hm & Hl & Hs).
  rewrite Hm', Hl, length_map.
  set (mask := zerosigma64 d) in *.
  set (N := List.length (r0 :: rest)).
  match goal with
  | |- match forM ?xs ?b' ?z with _ => _ end = match forM ?xs ?b ?z with _ => _ end =>
      assert (HL : same_outcome (row_rel64 mask) (forM xs b' z) (forM xs b z))
  end.
  { apply forM_lockstep; [now split|].
    intros sum' sum i _ (Hsl & Hsv).
    pose proof (rows_rel64_nth_error _ s' s i Hs) as Hr. rewrite <- Hm in Hr. fold mask in Hr.
    destruct (nth_error s' i) as [row'|], (nth_error s i) as [row|];
      try contradiction; [|reflexivity].
    destruct Hr as (Rl & Rv). cbn [same_outcome]. split.
    - rewrite !map2_length, !length_map. lia.
    - intros k Hk.
      apply (nth_map2_congr _ _ _ _ _ _ PrimFloat.nan PrimFloat.nan).
      + exact Hsl.
      + now rewrite !length_map.
      + now apply Hsv.
      + destruct (Nat.lt_ge_cases k (List.length row)) as [H|H].
        * rewrite !(nth_map_default (ad_term64 N i) _ k PrimFloat.nan PrimFloat.nan) by lia.
          f_equal. now apply Rv.
        * rewrite !nth_overflow by (rewrite length_map; lia). reflexivity. }
  unfold same_outcome in HL.
  destruct (forM _ _ _) as [sum'|e'], (forM _ _ _) as [sum|e];
    try contradiction; [|now rewrite HL].
  destruct HL as (Hsl & Hsv). f_equal.
  apply (list_eq_nth PrimFloat.nan).
  - rewrite !map2_length, !length_map. lia.
  - intros k Hk. rewrite map2_length, length_map in Hk.
    rewrite !(nth_map2 _ _ _ k PrimFloat.nan PrimFloat.nan false)
      by (rewrite ?length_map; lia).
    destruct (nth k mask false) eqn:Em; [reflexivity|].
    match goal with
    | |- nth k (map ?f _) _ = _ =>
        rewrite !(nth_map_default f _ k PrimFloat.nan PrimFloat.nan) by lia
    end.
    now rewrite (Hsv k Em).
Qed.

Section Binary64InvarianceWitness.

Import Floats.
Local Open Scope float_scope.

Lemma AndersonDarling64_scale_invariant_witness :
  mask_kept64 2 two_states64 /\
  ratios_kept64 2 two_states64 /\
  AndersonDarling64 (numerics64 := coarse64) (map (rescale64 2) two_states64) 2
  = AndersonDarling64 (numerics64 := coarse64) two_states64 2.
Proof.
  assert (M : mask_kept64 2 two_states64) by (vm_compute; reflexivity).
  assert (R : ratios_kept64 2 two_states64).
  { intros r k Hr Hk.
    destruct Hr as [<-|[<-|[]]];
      (destruct k as [|[|k]];
       [vm_compute; reflexivity|vm_compute in Hk; discriminate Hk|
        destruct k; reflexivity]). }
  split; [exact M|]. split; [exact R|].
  exact (AndersonDarling64_scale_invariant coarse64 2 two_states64 2 M R).
Defined.

End Binary64InvarianceWitness.
